(** * HttpDownloader: a shallow embedding of [main.go]

    The development follows the source file: Go's [int] arithmetic, the
    [HttpDownloader] record, the range planner [Split], the [float64]
    arithmetic and the body of the progress loop, the fetch and write
    path ([download], [save2file]), the goroutines of [Download] (the
    fetch tasks and the progress goroutine, interleaved step by step
    under a schedule), the probe [NewDownloader] and [main].
    Definitions come first, properties after. *)

From Stdlib Require Import ZArith Lia Ascii String.
From Stdlib Require Import Floats.SpecFloat.
From stdpp Require Import base numbers list strings gmap pretty.

Local Open Scope Z_scope.

(** ** Go's [int] on a 64-bit platform *)

Module GoInt.

Definition min_int : Z := - 2 ^ 63.
Definition max_int : Z := 2 ^ 63 - 1.

(** Two's complement wrap-around of a mathematical integer. *)
Definition wrap (z : Z) : Z := (z + 2 ^ 63) mod 2 ^ 64 - 2 ^ 63.

Definition add (x y : Z) : Z := wrap (x + y).
Definition sub (x y : Z) : Z := wrap (x - y).
Definition mul (x y : Z) : Z := wrap (x * y).
(** [x / y] truncates toward zero; the caller checks [y <> 0]. *)
Definition quo (x y : Z) : Z := wrap (Z.quot x y).

Definition in_range (z : Z) : Prop := min_int <= z <= max_int.

End GoInt.

(** ** The downloader record *)

Record HttpDownloader := mkHttpDownloader {
  url : string;
  filename : string;
  contentLength : Z;
  acceptRanges : bool;
  numRoutines : Z
}.

(** Result of running a Go function that may panic.  [OutOfFuel] is the
    model's own artefact for a loop cut short; [Split_total] shows it is
    never produced. *)
Inductive run (A : Type) : Type :=
| Done (a : A)
| Panic (msg : string)
| OutOfFuel.
Arguments Done {A} a.
Arguments Panic {A} msg.
Arguments OutOfFuel {A}.

(** ** The range planner *)

(** The body of [for i := 0; i < h.numRoutines; i++ { ... }]. *)
Fixpoint Split_loop (fuel : nat) (h : HttpDownloader) (blockSize i : Z)
    (ranges : list (list Z)) : option (list (list Z)) :=
  match fuel with
  | O => None
  | S fuel' =>
      if i <? numRoutines h then
        let start := GoInt.mul i blockSize in
        let end_ := GoInt.sub (GoInt.mul (GoInt.add i 1) blockSize) 1 in
        let end_ :=
          if i =? GoInt.sub (numRoutines h) 1
          then GoInt.sub (contentLength h) 1
          else end_ in
        Split_loop fuel' h blockSize (GoInt.add i 1) (ranges ++ [[start; end_]])
      else Some ranges
  end.

Definition Split (h : HttpDownloader) : run (list (list Z)) :=
  if numRoutines h =? 0 then Panic "runtime error: integer divide by zero"
  else
    let blockSize := GoInt.quo (contentLength h) (numRoutines h) in
    match Split_loop (S (Z.to_nat (numRoutines h))) h blockSize 0 [] with
    | Some ranges => Done ranges
    | None => OutOfFuel
    end.

(** [ranges[0]] and [ranges[1]] as [Download] reads them. *)
Definition range_start (r : list Z) : Z := nth 0 r 0.
Definition range_end (r : list Z) : Z := nth 1 r 0.

(** The bytes an inclusive range [[start, end]] denotes. *)
Definition covers (r : list Z) (x : Z) : Prop :=
  match r with
  | [s; e] => s <= x <= e
  | _ => False
  end.

Definition range_len (r : list Z) : Z := range_end r - range_start r + 1.

(** The planner as the specification words it: the [i]-th range in closed
    form over mathematical integers, and the sequence of all of them. *)
Definition spec_range (totalLength workerCount i : Z) : list Z :=
  let blockSize := Z.quot totalLength workerCount in
  [ i * blockSize;
    if i =? workerCount - 1 then totalLength - 1 else (i + 1) * blockSize - 1 ].

Definition spec_plan (totalLength workerCount : Z) : list (list Z) :=
  spec_range totalLength workerCount <$> seqZ 0 workerCount.

(** ** Go's [float64] *)

(** IEEE 754 binary64 with round to nearest, ties to even, as the
    standard library specifies it over [spec_float]. *)
Module Float64.

Definition prec : Z := 53.
Definition emax : Z := 1024.

(** [float64(z)] for an integer [z]. *)
Definition of_int (z : Z) : spec_float := binary_normalize prec emax z 0 false.

Definition div : spec_float -> spec_float -> spec_float := SFdiv prec emax.
Definition mul : spec_float -> spec_float -> spec_float := SFmul prec emax.
Definition leb : spec_float -> spec_float -> bool := SFleb.

Definition zero : spec_float := S754_zero false.

(** [int(f)]: the fraction is discarded (truncation toward zero).  A value
    that does not fit in an [int] gives the smallest [int], as the amd64
    conversion instruction does. *)
Definition to_int (f : spec_float) : Z :=
  match f with
  | S754_zero _ => 0
  | S754_finite s m e =>
      let a := if 0 <=? e then Z.pos m * 2 ^ e else Z.pos m / 2 ^ (- e) in
      let t := if s then - a else a in
      if (GoInt.min_int <=? t) && (t <=? GoInt.max_int) then t else GoInt.min_int
  | _ => GoInt.min_int
  end.

End Float64.

(** ** The body of the progress loop of [Download] *)

Fixpoint repeat_string (n : nat) (s : string) : string :=
  match n with
  | O => ""
  | S n' => s +:+ repeat_string n' s
  end.

(** [strings.Repeat] panics on a negative count. *)
Definition strings_Repeat (s : string) (count : Z) : run string :=
  if count <? 0 then Panic "strings: negative Repeat count"
  else Done (repeat_string (Z.to_nat count) s).

(** The two arguments of one [fmt.Printf(ProgressBarStr, str, currProgress)]. *)
Record Snapshot := mkSnapshot {
  bar : string;
  percentage : spec_float
}.

(** [float64(countSuccess) / float64(h.numRoutines) * 100] *)
Definition currProgress (numRoutines countSuccess : Z) : spec_float :=
  Float64.mul
    (Float64.div (Float64.of_int countSuccess) (Float64.of_int numRoutines))
    (Float64.of_int 100).

(** The body of the loop after [countSuccess++]. *)
Definition progress_step (numRoutines countSuccess : Z) : run Snapshot :=
  let p := currProgress numRoutines countSuccess in
  match strings_Repeat "=" (Float64.to_int p) with
  | Done filled =>
      match strings_Repeat " " (GoInt.sub 100 (Float64.to_int p)) with
      | Done blank => Done (mkSnapshot (filled +:+ blank) p)
      | Panic msg => Panic msg
      | OutOfFuel => OutOfFuel
      end
  | Panic msg => Panic msg
  | OutOfFuel => OutOfFuel
  end.

(** The bar with [floor(p)] columns filled out of 100. *)
Definition bar_of (p : spec_float) : string :=
  repeat_string (Z.to_nat (Float64.to_int p)) "="
  +:+ repeat_string (Z.to_nat (100 - Float64.to_int p)) " ".

(** The snapshot printed when [countSuccess] tasks have completed. *)
Definition snapshot_at (numRoutines countSuccess : Z) : Snapshot :=
  mkSnapshot (bar_of (currProgress numRoutines countSuccess))
    (currProgress numRoutines countSuccess).

(** ** HTTP messages, the file system and the process *)

Definition kUserAgent : string :=
  "Mozilla/5.0 (Windows NT 10.0; Win64; x64) AppleWebKit/537.36 (KHTML, like Gecko) Chrome/99.0.4844.82 Safari/537.36".

(** [http.Header] is [map[string][]string]; a missing key reads as the nil
    slice. *)
Definition header_values (hd : gmap string (list string)) (key : string)
    : list string :=
  default [] (hd !! key).

(** [Header.Set]: the key's values become the single given value. *)
Definition header_set (key value : string) (hd : gmap string (list string))
    : gmap string (list string) :=
  <[key := [value]]> hd.

Record Request := mkRequest {
  reqMethod : string;
  reqURL : string;
  reqHeader : gmap string (list string)
}.

(** [respBody] is what [ioutil.ReadAll(resp.Body)] yields: the content, or
    [None] when reading the stream fails. *)
Record Response := mkResponse {
  StatusCode : Z;
  ContentLength : Z;
  respHeader : gmap string (list string);
  respBody : option (list Byte.byte)
}.

(** The collaborators the program calls: each field is the outcome the
    environment gives to one library call ([None] or [true] is the call's
    [err != nil]).  The last field is the machine's answer to
    [make(chan bool, size)] for a size within the runtime's own limit:
    [true] when the buffer is more than the machine can provide, which
    ends the process like a panic.  A failing [Write] is taken to have
    written nothing. *)
Record World := mkWorld {
  url_ParseRequestURI_fails : string -> bool;
  http_Head : string -> option Response;
  http_NewRequest_fails : string -> bool;
  http_RoundTrip : Request -> option Response;
  os_Create_fails : string -> bool;
  os_OpenFile_fails : string -> bool;
  file_Seek_fails : string -> Z -> bool;
  file_Write_fails : string -> Z -> list Byte.byte -> bool;
  runtime_makechan_fails : Z -> bool
}.

Inductive Event : Type :=
| EvRequest (r : Request)
| EvCreate (name : string)
| EvOpen (name : string)
| EvSeek (name : string) (offset : Z)
| EvWrite (name : string) (offset : Z) (content : list Byte.byte)
| EvPrint (line : string)
| EvProgress (s : Snapshot)
| EvSignal
| EvFatal (msg : string)
| EvPanic (msg : string).

Record Process := mkProcess {
  files : gmap string (list Byte.byte);
  trace : list Event
}.

(** How a piece of the program ends: it returns, or the whole process
    exits ([log.Fatal] calls [os.Exit(1)]; an unrecovered panic exits with
    status 2).  [Diverged] stands for a run that has not ended: a loop the
    model cut short, or goroutines the schedule leaves waiting. *)
Inductive Outcome (A : Type) : Type :=
| Returned (a : A)
| Exited (code : Z)
| Diverged.
Arguments Returned {A} a.
Arguments Exited {A} code.
Arguments Diverged {A}.

Definition IO (A : Type) : Type := Process -> Outcome A * Process.

Definition io_ret {A} (a : A) : IO A := fun p => (Returned a, p).

Definition io_bind {A B} (m : IO A) (k : A -> IO B) : IO B :=
  fun p =>
    match m p with
    | (Returned a, p') => k a p'
    | (Exited c, p') => (Exited c, p')
    | (Diverged, p') => (Diverged, p')
    end.

#[global] Instance IO_ret : MRet IO := @io_ret.
#[global] Instance IO_bind : MBind IO := fun A B k m => io_bind m k.

Definition emit (e : Event) : IO unit :=
  fun p => (Returned tt, mkProcess (files p) (trace p ++ [e])).

(** [log.Fatal] and [log.Fatalf]: log the message, then [os.Exit(1)].
    Deferred calls do not run. *)
Definition log_Fatal {A} (msg : string) : IO A :=
  fun p => (Exited 1, mkProcess (files p) (trace p ++ [EvFatal msg])).

(** A panic nobody recovers ends the process with status 2. *)
Definition go_panic {A} (msg : string) : IO A :=
  fun p => (Exited 2, mkProcess (files p) (trace p ++ [EvPanic msg])).

(** [defer d; body]: [d] runs when [body] returns.  When [body] ends the
    process through [os.Exit], [d] never runs. *)
Definition with_defer {A} (d : IO unit) (body : IO A) : IO A :=
  a ← body; d;; mret a.

Definition fmt_Println (line : string) : IO unit := emit (EvPrint line).

(** Bytes of a file after writing [content] at [offset]: a write past the
    end of the file leaves a hole of zero bytes; a write of no bytes
    leaves the file as it is, wherever the offset lies. *)
Definition write_at (data : list Byte.byte) (offset : nat)
    (content : list Byte.byte) : list Byte.byte :=
  match content with
  | [] => data
  | _ :: _ =>
      take offset data ++ replicate (offset - length data) Byte.x00
      ++ content ++ drop (offset + length content) data
  end.

(** [os.Create]: create or truncate. *)
Definition os_Create (w : World) (name : string) : IO unit :=
  if os_Create_fails w name
  then log_Fatal "Failed to create file"
  else fun p => (Returned tt,
                 mkProcess (<[name := []]> (files p)) (trace p ++ [EvCreate name])).

(** ** [save2file] *)

Definition save2file (w : World) (filename : string) (offset : Z)
    (resp : Response) : IO unit :=
  fun p =>
    match files p !! filename with
    | None => log_Fatal "Open file failed" p
    | Some data =>
        if os_OpenFile_fails w filename then log_Fatal "Open file failed" p
        else
          (emit (EvOpen filename);;
           if (offset <? 0) || file_Seek_fails w filename offset
           then log_Fatal "Seek on a file failed"
           else
             emit (EvSeek filename offset);;
             match respBody resp with
             | None => log_Fatal "Read content from response body failed"
             | Some content =>
                 if file_Write_fails w filename offset content
                 then log_Fatal "Write content to file failed"
                 else fun q =>
                   (Returned tt,
                    mkProcess
                      (<[filename := write_at data (Z.to_nat offset) content]> (files q))
                      (trace q ++ [EvWrite filename offset content]))
             end) p
    end.

(** ** [download] *)

Definition range_request (h : HttpDownloader) (start end_ : Z) : Request :=
  mkRequest "GET" (url h)
    (header_set "User-Agent" kUserAgent
       (header_set "Range" ("bytes=" +:+ pretty start +:+ "-" +:+ pretty end_) ∅)).

Definition download (w : World) (h : HttpDownloader) (start end_ : Z) : IO unit :=
  if http_NewRequest_fails w (url h)
  then log_Fatal "Create the download request failed"
  else
    let req := range_request h start end_ in
    emit (EvRequest req);;
    match http_RoundTrip w req with
    | None => log_Fatal "Failed to execute download request"
    | Some resp => save2file w (filename h) start resp
    end.

(** The body of one goroutine of [Download]:
    [defer func() { success <- true; wg.Done() }(); h.download(start, end)]. *)
Definition fetch_task (w : World) (h : HttpDownloader) (start end_ : Z) : IO unit :=
  with_defer (emit EvSignal) (download w h start end_).

(** ** The goroutines of [Download] *)

(** How far a fetch task has come.  Each constructor but the first is the
    state right after one more call of [download] and [save2file] has
    returned; between two of them any other goroutine may run, and a
    [log.Fatalf] there ends the fetch task as well. *)
Inductive Stage : Type :=
| Launched
| Responded (resp : Response)
| Opened (resp : Response)
| Sought (resp : Response)
| Fetched (content : list Byte.byte)
| Written
| Signalled.

Definition is_Signalled (st : Stage) : bool :=
  match st with Signalled => true | _ => false end.

(** The next call of the task for the range [[start, end_]]: the request
    ([http.NewRequest] and [Do]), [os.OpenFile], [f.Seek],
    [ioutil.ReadAll], [f.Write], and at last the deferred
    [success <- true; wg.Done()]. *)
Definition task_step (w : World) (h : HttpDownloader) (start end_ : Z)
    (st : Stage) : IO Stage :=
  match st with
  | Launched =>
      if http_NewRequest_fails w (url h)
      then log_Fatal "Create the download request failed"
      else
        let req := range_request h start end_ in
        emit (EvRequest req);;
        match http_RoundTrip w req with
        | None => log_Fatal "Failed to execute download request"
        | Some resp => mret (Responded resp)
        end
  | Responded resp =>
      fun p =>
        match files p !! filename h with
        | None => log_Fatal "Open file failed" p
        | Some _ =>
            if os_OpenFile_fails w (filename h)
            then log_Fatal "Open file failed" p
            else (emit (EvOpen (filename h));; mret (Opened resp)) p
        end
  | Opened resp =>
      if (start <? 0) || file_Seek_fails w (filename h) start
      then log_Fatal "Seek on a file failed"
      else emit (EvSeek (filename h) start);; mret (Sought resp)
  | Sought resp =>
      match respBody resp with
      | None => log_Fatal "Read content from response body failed"
      | Some content => mret (Fetched content)
      end
  | Fetched content =>
      if file_Write_fails w (filename h) start content
      then log_Fatal "Write content to file failed"
      else fun p =>
        (Returned Written,
         mkProcess
           (<[filename h := write_at (default [] (files p !! filename h))
                              (Z.to_nat start) content]> (files p))
           (trace p ++ [EvWrite (filename h) start content]))
  | Written => emit EvSignal;; mret Signalled
  | Signalled => mret Signalled
  end.

(** A task run from its launch with nothing in between. *)
Fixpoint task_steps (k : nat) (w : World) (h : HttpDownloader)
    (start end_ : Z) (st : Stage) : IO Stage :=
  match k with
  | O => mret st
  | S k' => st' ← task_step w h start end_ st; task_steps k' w h start end_ st'
  end.

(** The progress goroutine of lines 93-104: before its first [Printf],
    inside [for range success] with the current [countSuccess], and after
    its last [Printf]. *)
Inductive Tracker : Type :=
| Unstarted
| Counting (countSuccess : Z)
| Ended.

(** One step of the progress goroutine when [sent] signals have been put
    on the channel and [closed] tells whether [close(success)] has run.
    [countSuccess] is also the number of values received so far: with a
    value waiting the loop body runs once, on a closed and drained channel
    the loop ends, otherwise the goroutine stays blocked.  A panic of
    [strings.Repeat] ends the process. *)
Definition tracker_step (numRoutines : Z) (sent : nat) (closed : bool)
    (t : Tracker) : IO Tracker :=
  match t with
  | Unstarted =>
      emit (EvProgress (mkSnapshot (repeat_string 100 " ") Float64.zero));;
      mret (Counting 0)
  | Counting countSuccess =>
      if countSuccess <? Z.of_nat sent then
        let countSuccess := GoInt.add countSuccess 1 in
        match progress_step numRoutines countSuccess with
        | Done snap => emit (EvProgress snap);; mret (Counting countSuccess)
        | Panic msg => go_panic msg
        | OutOfFuel => fun p => (Diverged, p)
        end
      else if closed then
        emit (EvProgress (mkSnapshot (repeat_string 100 "=") (Float64.of_int 100)));;
        mret Ended
      else mret (Counting countSuccess)
  | Ended => mret Ended
  end.

Fixpoint count_stage (f : Stage -> bool) (stages : list Stage) : nat :=
  match stages with
  | [] => 0
  | st :: rest => (if f st then 1 else 0) + count_stage f rest
  end.

(** The signals sent so far, and whether [wg.Wait()] can return. *)
Definition signalled (stages : list Stage) : nat := count_stage is_Signalled stages.
Definition all_done (stages : list Stage) : bool := forallb is_Signalled stages.

(** ** [Download] *)

(** [http.Get]: a GET request with no header of the program's own. *)
Definition plain_request (h : HttpDownloader) : Request :=
  mkRequest "GET" (url h) ∅.

(** The largest buffer of one-byte elements [makechan] accepts on a 64-bit
    platform with 48 address bits: [maxAlloc - hchanSize], the header of a
    channel taking at least 96 bytes. *)
Definition max_chan_size : Z := 2 ^ 48 - 96.

(** [make(chan bool, size)]: a negative size panics, and so does a size
    beyond the runtime's limit; below it the machine may still be unable
    to provide the buffer. *)
Definition make_chan (w : World) (size : Z) : IO unit :=
  if (size <? 0) || (max_chan_size <? size) || runtime_makechan_fails w size
  then go_panic "makechan: size out of range"
  else mret tt.

(** The goroutines of the multi-range path, from their launch to the end
    of the process.  [order] is the scheduler's choice: each entry lets
    one goroutine make its next step, index [k] below [length ranges]
    being the task of the [k]-th range and index [length ranges] the
    progress goroutine.  Once every task has signalled, [wg.Wait()]
    returns, the channel is closed and [Download] returns; [main] returns
    right after it, so what is left of [order] is all the progress
    goroutine still gets to do before the process ends.  An [order] that
    runs out while a task is unfinished leaves [Download] waiting. *)
Fixpoint run_tasks (w : World) (h : HttpDownloader) (ranges : list (list Z))
    (stages : list Stage) (t : Tracker) (order : list nat) : IO unit :=
  match order with
  | [] => if all_done stages then mret tt else fun p => (Diverged, p)
  | k :: order' =>
      match ranges !! k, stages !! k with
      | Some r, Some st =>
          st' ← task_step w h (range_start r) (range_end r) st;
          run_tasks w h ranges (<[k := st']> stages) t order'
      | _, _ =>
          if (k =? length ranges)%nat then
            t' ← tracker_step (numRoutines h) (signalled stages)
                   (all_done stages) t;
            run_tasks w h ranges stages t' order'
          else run_tasks w h ranges stages t order'
      end
  end.

Definition Download (w : World) (order : list nat) (h : HttpDownloader) : IO unit :=
  os_Create w (filename h);;
  if negb (acceptRanges h) then
    fmt_Println "This file does not support multi-coroutine download, now download with common way...";;
    emit (EvRequest (plain_request h));;
    match http_RoundTrip w (plain_request h) with
    | None => log_Fatal "Failed to request the url"
    | Some resp => save2file w (filename h) 0 resp
    end
  else
    fmt_Println "Downloading with multi goroutine...";;
    make_chan w (numRoutines h);;
    match Split h with
    | Panic msg => go_panic msg
    | OutOfFuel => fun p => (Diverged, p)
    | Done ranges =>
        run_tasks w h ranges (replicate (length ranges) Launched) Unstarted order
    end.

(** ** [NewDownloader] *)

Fixpoint drop_slashes (cs : list Ascii.ascii) : list Ascii.ascii :=
  match cs with
  | c :: cs' => if Ascii.eqb c "/"%char then drop_slashes cs' else cs
  | [] => []
  end.

Fixpoint until_slash (cs : list Ascii.ascii) : list Ascii.ascii :=
  match cs with
  | c :: cs' => if Ascii.eqb c "/"%char then [] else c :: until_slash cs'
  | [] => []
  end.

(** [path.Base]: the last element of a path, trailing slashes removed. *)
Definition path_Base (path : string) : string :=
  if String.eqb path "" then "."
  else
    let stripped := drop_slashes (rev (list_ascii_of_string path)) in
    match until_slash stripped with
    | [] => "/"
    | last => string_of_list_ascii (rev last)
    end.

(** [len(v) != 0 && v[0] == "bytes"] for [v = resp.Header["Accept-Ranges"]]. *)
Definition advertises_ranges (resp : Response) : bool :=
  let v := header_values (respHeader resp) "Accept-Ranges" in
  negb (length v =? 0)%nat && String.eqb (nth 0 v "") "bytes".

Definition NewDownloader (w : World) (url : string) (numThreads : Z)
    : IO HttpDownloader :=
  match http_Head w url with
  | None => log_Fatal "请求失败"
  | Some resp =>
      io_ret (mkHttpDownloader url (path_Base url)
                (GoInt.wrap (ContentLength resp))
                (advertises_ranges resp)
                numThreads)
  end.

(** ** [main], after flag parsing *)

Definition main (w : World) (order : list nat) (downloadUrl : string)
    (numRoutines : Z) : IO unit :=
  (if url_ParseRequestURI_fails w downloadUrl
   then log_Fatal "The file download url is invalid."
   else io_ret tt);;
  downloader ← NewDownloader w downloadUrl numRoutines;
  fmt_Println "Start the download task...";;
  Download w order downloader.

Definition fresh : Process := mkProcess ∅ [].

(** ** Reading a trace *)

Definition requests_of (evs : list Event) : list Request :=
  omap (fun e => match e with EvRequest r => Some r | _ => None end) evs.

Definition writes_of (evs : list Event) : list (string * Z * list Byte.byte) :=
  omap (fun e => match e with
                 | EvWrite name off c => Some (name, off, c)
                 | _ => None
                 end) evs.

Definition signals_of (evs : list Event) : nat :=
  length (omap (fun e => match e with EvSignal => Some tt | _ => None end) evs).

(** What the progress goroutine printed. *)
Definition snapshots_of (evs : list Event) : list Snapshot :=
  omap (fun e => match e with EvProgress s => Some s | _ => None end) evs.

(** The events a run appended to the trace it started from. *)
Definition new_events (before after : Process) : list Event :=
  drop (length (trace before)) (trace after).

(** The failures [download] and [save2file] test for, in the order of the
    calls: building the request, the transport, opening the file, seeking,
    reading the body, writing.  The status code of the response is not
    among them. *)
Definition save_fails (w : World) (name : string) (offset : Z)
    (resp : Response) : bool :=
  os_OpenFile_fails w name
  || (offset <? 0)
  || file_Seek_fails w name offset
  || match respBody resp with
     | None => true
     | Some content => file_Write_fails w name offset content
     end.

Definition fetch_fails (w : World) (h : HttpDownloader) (start end_ : Z) : bool :=
  http_NewRequest_fails w (url h)
  || match http_RoundTrip w (range_request h start end_) with
     | None => true
     | Some resp => save_fails w (filename h) start resp
     end.

(** The scheduled task of index [k] fails. *)
Definition task_fails (w : World) (h : HttpDownloader)
    (ranges : list (list Z)) (k : nat) : bool :=
  match ranges !! k with
  | Some r => fetch_fails w h (range_start r) (range_end r)
  | None => false
  end.

(** A schedule that lets every task make the six steps from its launch to
    its signal. *)
Definition complete (order : list nat) (ranges : list (list Z)) : bool :=
  forallb (fun k => (6 <=? count_occ Nat.eq_dec order k)%nat)
    (seq 0 (length ranges)).

(** ** Sample environments *)

Definition sample_content : list Byte.byte :=
  [Byte.x30; Byte.x31; Byte.x32; Byte.x33; Byte.x34;
   Byte.x35; Byte.x36; Byte.x37; Byte.x38; Byte.x39].

(** A server holding [sample_content] that honours the two halves as byte
    ranges and answers a request without a [Range] header with the whole
    file; every local call succeeds. *)
Definition sample_server (accept : list string) (r : Request) : option Response :=
  let hd : gmap string (list string) :=
    match accept with
    | [] => ∅
    | _ => {[ "Accept-Ranges" := accept ]}
    end in
  match reqHeader r !! "Range" with
  | None => Some (mkResponse 200 10 hd (Some sample_content))
  | Some ["bytes=0-4"] => Some (mkResponse 206 5 hd (Some (take 5 sample_content)))
  | Some ["bytes=5-9"] => Some (mkResponse 206 5 hd (Some (drop 5 sample_content)))
  | Some _ => Some (mkResponse 416 0 hd (Some []))
  end.

Definition sample_world (accept : list string) : World :=
  mkWorld (fun _ => false)
          (fun u => Some (mkResponse 200 10
                            (match accept with
                             | [] => ∅
                             | _ => {[ "Accept-Ranges" := accept ]}
                             end) (Some [])))
          (fun _ => false)
          (sample_server accept)
          (fun _ => false) (fun _ => false)
          (fun _ _ => false) (fun _ _ _ => false)
          (fun _ => false).

(** The same machine with the network down for ranged and plain fetches. *)
Definition offline_world : World :=
  mkWorld (fun _ => false)
          (http_Head (sample_world ["bytes"]))
          (fun _ => false)
          (fun _ => None)
          (fun _ => false) (fun _ => false)
          (fun _ _ => false) (fun _ _ _ => false)
          (fun _ => false).

(** The sample server with the second half of the file out of reach. *)
Definition half_down_world : World :=
  mkWorld (fun _ => false)
          (http_Head (sample_world ["bytes"]))
          (fun _ => false)
          (fun r => match reqHeader r !! "Range" with
                    | Some ["bytes=5-9"] => None
                    | _ => sample_server ["bytes"] r
                    end)
          (fun _ => false) (fun _ => false)
          (fun _ _ => false) (fun _ _ _ => false)
          (fun _ => false).

(** A server that answers every fetch with status 404 and a short body. *)
Definition not_found_world : World :=
  mkWorld (fun _ => false)
          (http_Head (sample_world ["bytes"]))
          (fun _ => false)
          (fun _ => Some (mkResponse 404 2 ∅ (Some [Byte.x4e; Byte.x46])))
          (fun _ => false) (fun _ => false)
          (fun _ _ => false) (fun _ _ _ => false)
          (fun _ => false).

(** The same downloader asked for another number of goroutines. *)
Definition with_workers (h : HttpDownloader) (workerCount : Z) : HttpDownloader :=
  mkHttpDownloader (url h) (filename h) (contentLength h) (acceptRanges h)
    workerCount.

(** What an observer sees of a single-stream download that started in [p]
    and ended in [p']: no request but the plain one, at most once, and no
    write but one at offset 0 holding the body of its response. *)
Definition single_stream_run (w : World) (h : HttpDownloader)
    (p p' : Process) : Prop :=
  let evs := new_events p p' in
  (requests_of evs = [] \/ requests_of evs = [plain_request h])
  /\ reqHeader (plain_request h) !! "Range" = None
  /\ (writes_of evs = []
      \/ exists resp content,
           http_RoundTrip w (plain_request h) = Some resp
           /\ respBody resp = Some content
           /\ writes_of evs = [(filename h, 0, content)]
           /\ files p' !! filename h = Some content).

(** A job whose server does not honour byte ranges. *)
Definition legacy_job (workerCount : Z) : HttpDownloader :=
  mkHttpDownloader "http://example.com/f.bin" "f.bin" 10 false workerCount.

(** The process right after [Download] created the sample file. *)
Definition created (name : string) : Process :=
  mkProcess {[ name := [] ]} [EvCreate name].

(** ** Rounding, seen through integer codes

    A positive real located at mantissa [m] and position [l] inside the
    unit interval above [m] is coded by the integer [4 * m + loc_code l].
    On these codes a one-bit right shift and the rounding to nearest even
    are monotone functions, which is what the monotonicity of the
    arithmetic rests on. *)

Definition loc_code (l : location) : Z :=
  match l with
  | loc_Exact => 0
  | loc_Inexact Lt => 1
  | loc_Inexact Eq => 2
  | loc_Inexact Gt => 3
  end.

Definition rec_code (r : shr_record) : Z :=
  4 * shr_m r + (if shr_r r then 2 else 0) + (if shr_s r then 1 else 0).

(** The code after [shr_1]. *)
Definition sticky_half (z : Z) : Z :=
  2 * (z / 4) + (if z mod 4 =? 0 then 0 else 1).

(** The mantissa [round_nearest_even] picks. *)
Definition nearest_even (z : Z) : Z :=
  let m := z / 4 in
  let c := z mod 4 in
  if c <? 2 then m
  else if c =? 2 then (if Z.even m then m else m + 1)
  else m + 1.

Fixpoint times {A : Type} (k : nat) (f : A -> A) (x : A) : A :=
  match k with
  | O => x
  | S k' => f (times k' f x)
  end.

(** [binary_round_aux] on a code whose mantissa has at least 53 digits. *)
Definition round_code (z e : Z) : spec_float :=
  let k := Zdigits2 (z / 4) - 53 in
  let m := nearest_even (times (Z.to_nat k) sticky_half z) in
  if m =? 2 ^ 53 then S754_finite false (2 ^ 52)%positive (e + k + 1)
  else S754_finite false (Z.to_pos m) (e + k).

Definition rem_code (D r : Z) : Z := loc_code (new_location D r).

(** The code of the ratio [M / D]. *)
Definition quot_code (M D : Z) : Z := 4 * (M / D) + rem_code D (M mod D).

(** The float nearest to [M / D * 2 ^ e]. *)
Definition round_ratio (M D e : Z) : spec_float := round_code (quot_code M D) e.

(** Positive values with a full 53-bit mantissa and an exponent between
    [lo] and [hi]. *)
Definition normal (lo hi : Z) (x : spec_float) : Prop :=
  exists m e,
    x = S754_finite false m e /\ Zdigits2 (Z.pos m) = 53 /\ lo <= e <= hi.

(** What the specification asks of a sequence of ranges. *)
Definition contiguous (rs : list (list Z)) : Prop :=
  forall (k : nat) (r1 r2 : list Z),
    rs !! k = Some r1 -> rs !! S k = Some r2 ->
    range_start r2 = range_end r1 + 1.

Definition ordered_by_start (rs : list (list Z)) : Prop :=
  forall (j k : nat) (r1 r2 : list Z),
    (j <= k)%nat -> rs !! j = Some r1 -> rs !! k = Some r2 ->
    range_start r1 <= range_start r2.

Definition pairwise_disjoint (rs : list (list Z)) : Prop :=
  forall (j k : nat) (r1 r2 : list Z) (x : Z),
    j <> k -> rs !! j = Some r1 -> rs !! k = Some r2 ->
    ~ (covers r1 x /\ covers r2 x).

Definition union_is (rs : list (list Z)) (lo hi : Z) : Prop :=
  forall x : Z, (exists r, r ∈ rs /\ covers r x) <-> lo <= x <= hi.

Definition degenerate (r : list Z) : Prop := range_start r > range_end r.

(** Sample jobs used to exercise the planner. *)
Definition job (totalLength workerCount : Z) : HttpDownloader :=
  mkHttpDownloader "http://example.com/f.bin" "f.bin" totalLength true workerCount.

(** ** Further vocabulary for the fetch and write path *)

(** The bytes [start .. end_] of a resource, both ends included. *)
Definition byte_slice (content : list Byte.byte) (start end_ : Z)
    : list Byte.byte :=
  take (Z.to_nat (end_ + 1 - start)) (drop (Z.to_nat start) content).

(** The server answers the request for every planned range with exactly
    the bytes of that range. *)
Definition serves_ranges (w : World) (h : HttpDownloader)
    (ranges : list (list Z)) (content : list Byte.byte) : Prop :=
  forall (k : nat) (r : list Z) (resp : Response) (body : list Byte.byte),
    ranges !! k = Some r ->
    http_RoundTrip w (range_request h (range_start r) (range_end r)) = Some resp ->
    respBody resp = Some body ->
    body = byte_slice content (range_start r) (range_end r).

(** Nothing but the file [name] differs between two states of the
    file system. *)
Definition only_touches (name : string) (p p' : Process) : Prop :=
  forall other : string, other <> name -> files p' !! other = files p !! other.

(** Total number of bytes a plan asks for. *)
Definition total_len (ranges : list (list Z)) : Z :=
  foldr (fun r acc => range_len r + acc) 0 ranges.

(** A request of the multi-range path: a GET of the downloader's URL for
    one of the planned ranges, under the fixed client identity. *)
Definition planned_request (h : HttpDownloader) (ranges : list (list Z))
    (order : list nat) (req : Request) : Prop :=
  exists (k : nat) (r : list Z),
    k ∈ order /\ ranges !! k = Some r
    /\ req = range_request h (range_start r) (range_end r).

(** ** Vocabulary for the goroutines *)

Definition empty_bar : Snapshot :=
  mkSnapshot (repeat_string 100 " ") Float64.zero.
Definition full_bar : Snapshot :=
  mkSnapshot (repeat_string 100 "=") (Float64.of_int 100).

(** Everything the progress goroutine prints when it is left to run to
    its end. *)
Definition all_snapshots (numRoutines : Z) : list Snapshot :=
  empty_bar :: (snapshot_at numRoutines <$> seqZ 1 numRoutines) ++ [full_bar].

(** A step of a task that does not end the process: the stage before and
    after, the events it adds and the files it leaves. *)
Inductive task_moves (w : World) (h : HttpDownloader) (start end_ : Z)
    (fs : gmap string (list Byte.byte))
    : Stage -> Stage -> list Event -> gmap string (list Byte.byte) -> Prop :=
| moves_request resp :
    http_NewRequest_fails w (url h) = false ->
    http_RoundTrip w (range_request h start end_) = Some resp ->
    task_moves w h start end_ fs Launched (Responded resp)
      [EvRequest (range_request h start end_)] fs
| moves_open resp :
    is_Some (fs !! filename h) ->
    os_OpenFile_fails w (filename h) = false ->
    task_moves w h start end_ fs (Responded resp) (Opened resp)
      [EvOpen (filename h)] fs
| moves_seek resp :
    0 <= start ->
    file_Seek_fails w (filename h) start = false ->
    task_moves w h start end_ fs (Opened resp) (Sought resp)
      [EvSeek (filename h) start] fs
| moves_read resp content :
    respBody resp = Some content ->
    task_moves w h start end_ fs (Sought resp) (Fetched content) [] fs
| moves_write content :
    file_Write_fails w (filename h) start content = false ->
    task_moves w h start end_ fs (Fetched content) Written
      [EvWrite (filename h) start content]
      (<[filename h := write_at (default [] (fs !! filename h))
                         (Z.to_nat start) content]> fs)
| moves_signal :
    task_moves w h start end_ fs Written Signalled [EvSignal] fs
| moves_idle :
    task_moves w h start end_ fs Signalled Signalled [] fs.

(** A step of a task that ends the process through [log.Fatalf]. *)
Inductive task_dies (w : World) (h : HttpDownloader) (start end_ : Z)
    (fs : gmap string (list Byte.byte)) : Stage -> list Event -> Prop :=
| dies_new_request msg :
    http_NewRequest_fails w (url h) = true ->
    task_dies w h start end_ fs Launched [EvFatal msg]
| dies_round_trip msg :
    http_NewRequest_fails w (url h) = false ->
    http_RoundTrip w (range_request h start end_) = None ->
    task_dies w h start end_ fs Launched
      [EvRequest (range_request h start end_); EvFatal msg]
| dies_open resp msg :
    fs !! filename h = None \/ os_OpenFile_fails w (filename h) = true ->
    task_dies w h start end_ fs (Responded resp) [EvFatal msg]
| dies_seek resp msg :
    start < 0 \/ file_Seek_fails w (filename h) start = true ->
    task_dies w h start end_ fs (Opened resp) [EvFatal msg]
| dies_read resp msg :
    respBody resp = None ->
    task_dies w h start end_ fs (Sought resp) [EvFatal msg]
| dies_write content msg :
    file_Write_fails w (filename h) start content = true ->
    task_dies w h start end_ fs (Fetched content) [EvFatal msg].

(** A step of the progress goroutine that does not panic. *)
Inductive tracker_moves (numRoutines : Z) (sent : nat) (closed : bool)
    : Tracker -> Tracker -> list Event -> Prop :=
| moves_first :
    tracker_moves numRoutines sent closed Unstarted (Counting 0)
      [EvProgress empty_bar]
| moves_count c snap :
    c < Z.of_nat sent ->
    progress_step numRoutines (GoInt.add c 1) = Done snap ->
    tracker_moves numRoutines sent closed (Counting c)
      (Counting (GoInt.add c 1)) [EvProgress snap]
| moves_last c :
    Z.of_nat sent <= c -> closed = true ->
    tracker_moves numRoutines sent closed (Counting c) Ended
      [EvProgress full_bar]
| moves_blocked c :
    Z.of_nat sent <= c -> closed = false ->
    tracker_moves numRoutines sent closed (Counting c) (Counting c) []
| moves_ended :
    tracker_moves numRoutines sent closed Ended Ended [].

(** The stage of a task agrees with what the environment answered to the
    calls the task has made so far. *)
Definition on_track (w : World) (h : HttpDownloader) (start end_ : Z)
    (st : Stage) : Prop :=
  match st with
  | Launched => True
  | Responded resp =>
      http_NewRequest_fails w (url h) = false
      /\ http_RoundTrip w (range_request h start end_) = Some resp
  | Opened resp =>
      http_NewRequest_fails w (url h) = false
      /\ http_RoundTrip w (range_request h start end_) = Some resp
      /\ os_OpenFile_fails w (filename h) = false
  | Sought resp =>
      http_NewRequest_fails w (url h) = false
      /\ http_RoundTrip w (range_request h start end_) = Some resp
      /\ os_OpenFile_fails w (filename h) = false
      /\ 0 <= start
      /\ file_Seek_fails w (filename h) start = false
  | Fetched content =>
      exists resp,
        http_NewRequest_fails w (url h) = false
        /\ http_RoundTrip w (range_request h start end_) = Some resp
        /\ os_OpenFile_fails w (filename h) = false
        /\ 0 <= start
        /\ file_Seek_fails w (filename h) start = false
        /\ respBody resp = Some content
  | Written | Signalled => fetch_fails w h start end_ = false
  end.

(** Steps a task still has to make before it has signalled. *)
Definition steps_left (st : Stage) : nat :=
  match st with
  | Launched => 6
  | Responded _ => 5
  | Opened _ => 4
  | Sought _ => 3
  | Fetched _ => 2
  | Written => 1
  | Signalled => 0
  end.

Definition at_launch (st : Stage) : bool :=
  match st with Launched => true | _ => false end.

Definition before_write (st : Stage) : bool :=
  match st with
  | Launched | Responded _ | Opened _ | Sought _ | Fetched _ => true
  | Written | Signalled => false
  end.

Definition has_written (st : Stage) : bool := negb (before_write st).

(** The events of a whole run of [Download]. *)
Definition run_events (w : World) (order : list nat) (h : HttpDownloader)
    (p : Process) : list Event :=
  new_events p (Download w order h p).2.

(** ** Invariants of the multi-range path *)

(** Whatever the schedule and the environment: no file but the
    destination changes, the destination changes through writes only, and
    every request is the request of a planned range. *)
Definition frame_inv (h : HttpDownloader) (ranges : list (list Z))
    (order : list nat) (fs0 fs : gmap string (list Byte.byte))
    (evs : list Event) : Prop :=
  (forall other, other <> filename h -> fs !! other = fs0 !! other)
  /\ (writes_of evs = [] -> fs = fs0)
  /\ (forall req, req ∈ requests_of evs -> planned_request h ranges order req).

(** Requests, writes and signals so far against the stages of the tasks. *)
Definition counts_inv (ranges : list (list Z)) (stages : list Stage)
    (evs : list Event) : Prop :=
  length stages = length ranges
  /\ (length (requests_of evs) + count_stage at_launch stages
      = length ranges)%nat
  /\ (length (writes_of evs) + count_stage before_write stages
      = length ranges)%nat
  /\ signals_of evs = signalled stages.

Definition counts_post (ranges : list (list Z)) (o : Outcome unit)
    (evs : list Event) : Prop :=
  (signals_of evs <= length (writes_of evs))%nat
  /\ (length (writes_of evs) <= length (requests_of evs))%nat
  /\ (length (requests_of evs) <= length ranges)%nat
  /\ (o = Returned tt -> signals_of evs = length ranges)
  /\ (o = Exited 1 -> (signals_of evs < length ranges)%nat).

(** Every task stands where the environment's answers put it. *)
Definition tasks_on_track (w : World) (h : HttpDownloader)
    (ranges : list (list Z)) (stages : list Stage) : Prop :=
  forall k r st,
    ranges !! k = Some r -> stages !! k = Some st ->
    on_track w h (range_start r) (range_end r) st.

(** What the progress goroutine has printed, by where it stands. *)
Definition tracker_inv (n : Z) (stages : list Stage) (t : Tracker)
    (evs : list Event) : Prop :=
  signals_of evs = signalled stages
  /\ match t with
     | Unstarted => snapshots_of evs = []
     | Counting c =>
         0 <= c <= Z.of_nat (signalled stages)
         /\ snapshots_of evs = empty_bar :: (snapshot_at n <$> seqZ 1 c)
     | Ended =>
         all_done stages = true /\ snapshots_of evs = all_snapshots n
     end.


(** What a run has printed when it ends: nothing, the opening snapshot and
    those of the first [c] signals received, or everything, which takes
    all [total] signals. *)
Definition printed (n : Z) (total : nat) (evs : list Event) : Prop :=
  snapshots_of evs = []
  \/ (exists c,
        0 <= c <= Z.of_nat (signals_of evs)
        /\ snapshots_of evs = empty_bar :: (snapshot_at n <$> seqZ 1 c))
  \/ (signals_of evs = total /\ snapshots_of evs = all_snapshots n).

(** The destination while a resource [content] is being fetched: never
    longer than the resource, and right on every byte of the ranges whose
    task has written. *)
Definition fill_inv (h : HttpDownloader) (ranges : list (list Z))
    (content : list Byte.byte) (stages : list Stage)
    (fs : gmap string (list Byte.byte)) : Prop :=
  exists data,
    fs !! filename h = Some data
    /\ (length data <= length content)%nat
    /\ (forall k r st i,
          ranges !! k = Some r -> stages !! k = Some st ->
          before_write st = false -> covers r i ->
          data !! Z.to_nat i = content !! Z.to_nat i).

(** * Properties *)

(** ** Integer arithmetic stays in range *)

Lemma wrap_small z : GoInt.in_range z -> GoInt.wrap z = z.
Proof.
  unfold GoInt.in_range, GoInt.min_int, GoInt.max_int, GoInt.wrap. intros Hz.
  rewrite Z.mod_small; lia.
Qed.

Lemma wrap_in_range z : GoInt.in_range (GoInt.wrap z).
Proof.
  unfold GoInt.in_range, GoInt.min_int, GoInt.max_int, GoInt.wrap.
  pose proof (Z.mod_pos_bound (z + 2 ^ 63) (2 ^ 64)). lia.
Qed.

Lemma block_times_count (L n : Z) :
  0 <= L -> 1 <= n -> 0 <= Z.quot L n /\ n * Z.quot L n <= L.
Proof.
  intros HL Hn. rewrite Z.quot_div_nonneg by lia. split.
  - apply Z.div_pos; lia.
  - apply Z.mul_div_le; lia.
Qed.

Lemma scaled_block_bounds (L n b j : Z) :
  0 <= b -> n * b <= L -> 0 <= j <= n -> 0 <= j * b <= L.
Proof. intros Hb HnL Hj. nia. Qed.

Ltac int_range :=
  apply wrap_small;
  unfold GoInt.in_range, GoInt.min_int, GoInt.max_int in *; lia.

(** ** The planner loop *)

Section Planner.

Variable h : HttpDownloader.
Local Abbreviation L := (contentLength h).
Local Abbreviation n := (numRoutines h).
Hypothesis HL : 0 <= L <= GoInt.max_int.
Hypothesis Hn : 1 <= n <= GoInt.max_int.

Lemma Split_loop_spec (fuel : nat) :
  forall (i : Z) (acc : list (list Z)),
    0 <= i <= n ->
    (Z.to_nat (n - i) < fuel)%nat ->
    Split_loop fuel h (GoInt.quo L n) i acc
    = Some (acc ++ (spec_range L n <$> seqZ i (n - i))).
Proof.
  pose proof (block_times_count L n ltac:(lia) ltac:(lia)) as [Hb0 Hbn].
  assert (Hq : GoInt.quo L n = Z.quot L n).
  { pose proof (scaled_block_bounds L n _ 1 Hb0 Hbn ltac:(lia)).
    unfold GoInt.quo. int_range. }
  rewrite Hq. clear Hq.
  assert (Hsr : forall i, spec_range L n i
    = [i * Z.quot L n;
       if i =? n - 1 then L - 1 else (i + 1) * Z.quot L n - 1]) by done.
  remember (Z.quot L n) as b eqn:Eb. clear Eb.
  induction fuel as [|fuel IH]; intros i acc Hi Hfuel; [lia|].
  cbn [Split_loop].
  destruct (Z.ltb_spec i n) as [Hlt|Hge].
  - pose proof (scaled_block_bounds L n _ i Hb0 Hbn ltac:(lia)) as Hlo.
    pose proof (scaled_block_bounds L n _ (i + 1) Hb0 Hbn ltac:(lia)) as Hhi.
    assert (Hi1 : GoInt.add i 1 = i + 1) by (unfold GoInt.add; int_range).
    assert (Hm0 : GoInt.mul i b = i * b)
      by (unfold GoInt.mul; int_range).
    assert (Hm1 : GoInt.mul (i + 1) b = (i + 1) * b)
      by (unfold GoInt.mul; int_range).
    assert (Hs1 : GoInt.sub ((i + 1) * b) 1 = (i + 1) * b - 1)
      by (unfold GoInt.sub; int_range).
    assert (Hn1 : GoInt.sub n 1 = n - 1) by (unfold GoInt.sub; int_range).
    assert (HL1 : GoInt.sub L 1 = L - 1) by (unfold GoInt.sub; int_range).
    rewrite Hi1, Hm0, Hm1, Hs1, Hn1, HL1.
    rewrite IH by lia.
    assert (Hseq : seqZ i (n - i) = i :: seqZ (i + 1) (n - (i + 1))).
    { rewrite (seqZ_cons i) by lia. f_equal. f_equal; lia. }
    rewrite Hseq, <- app_assoc. cbn [fmap list_fmap app].
    by rewrite Hsr.
  - replace (n - i) with 0 by lia. cbn. by rewrite app_nil_r.
Qed.

Lemma Split_spec : Split h = Done (spec_plan L n).
Proof.
  unfold Split.
  destruct (Z.eqb_spec n 0) as [?|_]; [lia|].
  rewrite Split_loop_spec by lia.
  unfold spec_plan. by rewrite Z.sub_0_r.
Qed.

End Planner.

(** ** The closed form of the plan *)

Lemma spec_plan_length (L n : Z) : length (spec_plan L n) = Z.to_nat n.
Proof. unfold spec_plan. by rewrite length_fmap, length_seqZ. Qed.

Lemma spec_plan_lookup (L n : Z) (k : nat) (r : list Z) :
  spec_plan L n !! k = Some r <->
  r = spec_range L n (Z.of_nat k) /\ Z.of_nat k < n.
Proof.
  unfold spec_plan. rewrite list_lookup_fmap, fmap_Some. split.
  - intros (i & Hi & ->). apply lookup_seqZ in Hi as [-> ?]. by rewrite Z.add_0_l.
  - intros [-> Hk]. exists (Z.of_nat k). split; [|done].
    apply lookup_seqZ. lia.
Qed.

Lemma spec_plan_elem (L n : Z) (r : list Z) :
  r ∈ spec_plan L n <-> exists i, 0 <= i < n /\ r = spec_range L n i.
Proof.
  unfold spec_plan. rewrite list_elem_of_fmap. split.
  - intros (i & -> & Hi). apply elem_of_seqZ in Hi. exists i. split; [lia|done].
  - intros (i & Hi & ->). exists i. split; [done|]. apply elem_of_seqZ. lia.
Qed.

Lemma spec_range_start (L n i : Z) :
  range_start (spec_range L n i) = i * Z.quot L n.
Proof. reflexivity. Qed.

Lemma spec_range_end (L n i : Z) :
  range_end (spec_range L n i)
  = if i =? n - 1 then L - 1 else (i + 1) * Z.quot L n - 1.
Proof. reflexivity. Qed.

Lemma spec_range_covers (L n i x : Z) :
  covers (spec_range L n i) x <->
  i * Z.quot L n <= x
  /\ x <= (if i =? n - 1 then L - 1 else (i + 1) * Z.quot L n - 1).
Proof. reflexivity. Qed.

Section PlanFacts.

Variables L n : Z.
Hypothesis HL : 0 <= L.
Hypothesis Hn : 1 <= n.

Lemma spec_plan_contiguous : contiguous (spec_plan L n).
Proof.
  intros k r1 r2 H1 H2.
  apply spec_plan_lookup in H1 as [-> _], H2 as [-> Hk].
  rewrite spec_range_start, spec_range_end.
  destruct (Z.eqb_spec (Z.of_nat k) (n - 1)); lia.
Qed.

Lemma spec_plan_ordered : ordered_by_start (spec_plan L n).
Proof.
  destruct (block_times_count L n HL Hn) as [Hb _].
  intros j k r1 r2 Hjk H1 H2.
  apply spec_plan_lookup in H1 as [-> _], H2 as [-> _].
  rewrite !spec_range_start. apply Z.mul_le_mono_nonneg_r; lia.
Qed.

Lemma spec_plan_disjoint_lt (j k : nat) (x : Z) :
  (j < k)%nat -> Z.of_nat k < n ->
  ~ (covers (spec_range L n (Z.of_nat j)) x
     /\ covers (spec_range L n (Z.of_nat k)) x).
Proof.
  destruct (block_times_count L n HL Hn) as [Hb _].
  intros Hjk Hk [H1 H2].
  apply spec_range_covers in H1 as [_ H1], H2 as [H2 _].
  destruct (Z.eqb_spec (Z.of_nat j) (n - 1)); [lia|].
  remember (Z.quot L n) as b eqn:Eb. clear Eb.
  assert ((Z.of_nat j + 1) * b <= Z.of_nat k * b)
    by (apply Z.mul_le_mono_nonneg_r; lia).
  lia.
Qed.

Lemma spec_plan_disjoint : pairwise_disjoint (spec_plan L n).
Proof.
  intros j k r1 r2 x Hjk H1 H2.
  apply spec_plan_lookup in H1 as [-> Hj], H2 as [-> Hk].
  destruct (Nat.lt_total j k) as [Hlt|[->|Hgt]]; [|done|].
  - by apply spec_plan_disjoint_lt.
  - intros [Ha Hb]. by apply (spec_plan_disjoint_lt k j x).
Qed.

Lemma spec_plan_union : union_is (spec_plan L n) 0 (L - 1).
Proof.
  destruct (block_times_count L n HL Hn) as [Hb Hbn].
  intros x. split.
  - intros (r & Hr & Hx). apply spec_plan_elem in Hr as (i & Hi & ->).
    apply spec_range_covers in Hx as [Hlo Hhi].
    remember (Z.quot L n) as b eqn:Eb. clear Eb.
    pose proof (scaled_block_bounds L n b i Hb Hbn ltac:(lia)).
    pose proof (scaled_block_bounds L n b (i + 1) Hb Hbn ltac:(lia)).
    destruct (Z.eqb_spec i (n - 1)); lia.
  - intros Hx.
    remember (Z.quot L n) as b eqn:Eb.
    set (i := if b =? 0 then n - 1 else Z.min (x / b) (n - 1)).
    assert (0 <= x / b) as Hq0 by (apply Z_div_nonneg_nonneg; lia).
    exists (spec_range L n i). split.
    + apply spec_plan_elem. exists i. split; [|done].
      subst i. destruct (Z.eqb_spec b 0); lia.
    + apply spec_range_covers. rewrite <- Eb. clear Eb. subst i.
      destruct (Z.eqb_spec b 0) as [->|Hb0].
      * rewrite Z.eqb_refl. lia.
      * pose proof (Z.mul_div_le x b ltac:(lia)) as Hq1.
        pose proof (Z.mul_succ_div_gt x b ltac:(lia)) as Hq2.
        remember (x / b) as q eqn:Eq. clear Eq.
        destruct (Z.min_spec q (n - 1)) as [[Hlt ->]|[Hge ->]].
        -- destruct (Z.eqb_spec q (n - 1)); lia.
        -- rewrite Z.eqb_refl. split; [|lia].
           assert ((n - 1) * b <= q * b)
             by (apply Z.mul_le_mono_nonneg_r; lia).
           lia.
Qed.

Lemma spec_plan_degenerate :
  n > L -> exists r, r ∈ spec_plan L n /\ degenerate r.
Proof.
  intros Hgt. exists (spec_range L n 0). split.
  - apply spec_plan_elem. exists 0. split; [lia|done].
  - unfold degenerate. rewrite spec_range_start, spec_range_end.
    assert (Z.quot L n = 0) as -> by (apply Z.quot_small; lia).
    destruct (Z.eqb_spec 0 (n - 1)); lia.
Qed.

Lemma spec_plan_even_len (r : list Z) :
  (n | L) -> r ∈ spec_plan L n -> range_len r = Z.quot L n.
Proof.
  intros [q Hq] Hr. apply spec_plan_elem in Hr as (i & Hi & ->).
  unfold range_len. rewrite spec_range_start, spec_range_end.
  assert (Z.quot L n = q) as ->.
  { subst L. apply Z.quot_mul. lia. }
  destruct (Z.eqb_spec i (n - 1)); [subst i|]; lia.
Qed.

End PlanFacts.

Lemma spec_plan_strict (L n : Z) (j k : nat) (r1 r2 : list Z) :
  1 <= n <= L -> (j < k)%nat ->
  spec_plan L n !! j = Some r1 -> spec_plan L n !! k = Some r2 ->
  range_start r1 < range_start r2.
Proof.
  intros Hn Hjk H1 H2.
  apply spec_plan_lookup in H1 as [-> _], H2 as [-> _].
  rewrite !spec_range_start.
  assert (1 <= Z.quot L n).
  { rewrite Z.quot_div_nonneg by lia. apply Z.div_le_lower_bound; lia. }
  apply Z.mul_lt_mono_pos_r; lia.
Qed.

(** ** The planner's claims *)

Example Split_1000_3 :
  Split (job 1000 3) = Done [[0; 332]; [333; 665]; [666; 999]].
Proof. reflexivity. Qed.

Example Split_900_3 :
  Split (job 900 3) = Done [[0; 299]; [300; 599]; [600; 899]].
Proof. reflexivity. Qed.

Example Split_one_worker : Split (job 1000 1) = Done [[0; 999]].
Proof. reflexivity. Qed.

Example Split_2_5 :
  Split (job 2 5) = Done [[0; -1]; [0; -1]; [0; -1]; [0; -1]; [0; 1]].
Proof. reflexivity. Qed.

Example Split_empty_file : Split (job 0 2) = Done [[0; -1]; [0; -1]].
Proof. reflexivity. Qed.

Example Split_no_workers : Split (job 10 0) = Panic "runtime error: integer divide by zero".
Proof. reflexivity. Qed.

Lemma Split_loop_fields (h1 h2 : HttpDownloader) :
  contentLength h1 = contentLength h2 ->
  numRoutines h1 = numRoutines h2 ->
  forall fuel b i acc, Split_loop fuel h1 b i acc = Split_loop fuel h2 b i acc.
Proof.
  intros HL Hn fuel. induction fuel as [|fuel IH]; intros b i acc; [done|].
  cbn [Split_loop]. rewrite HL, Hn. destruct (i <? numRoutines h2); [|done].
  apply IH.
Qed.

Lemma Split_loop_total (h : HttpDownloader) (b : Z) (fuel : nat) :
  numRoutines h <= GoInt.max_int ->
  forall i acc,
    0 <= i -> (Z.to_nat (numRoutines h - i) < fuel)%nat ->
    is_Some (Split_loop fuel h b i acc).
Proof.
  intros Hn. induction fuel as [|fuel IH]; intros i acc Hi Hfuel; [lia|].
  cbn [Split_loop]. destruct (Z.ltb_spec i (numRoutines h)); [|done].
  assert (GoInt.add i 1 = i + 1) as -> by (unfold GoInt.add; int_range).
  apply IH; lia.
Qed.

(** The loop always leaves through its condition, never through the fuel. *)
Lemma Split_total (h : HttpDownloader) :
  numRoutines h <= GoInt.max_int -> Split h <> OutOfFuel.
Proof.
  intros Hn. unfold Split. destruct (numRoutines h =? 0); [done|].
  destruct (Split_loop_total h (GoInt.quo (contentLength h) (numRoutines h))
              (S (Z.to_nat (numRoutines h))) Hn 0 []) as [rs ->]; [lia|lia|done].
Qed.

(** C1: for every totalLength >= 0 and workerCount >= 1 (as Go ints), the
    ranges [Split] returns are pairwise disjoint, ordered by start offset,
    contiguous (each start is the previous end plus one) and cover exactly
    the bytes 0 .. totalLength-1. *)
Theorem Split_partitions_file (h : HttpDownloader) :
  0 <= contentLength h <= GoInt.max_int ->
  1 <= numRoutines h <= GoInt.max_int ->
  exists ranges,
    Split h = Done ranges
    /\ pairwise_disjoint ranges
    /\ ordered_by_start ranges
    /\ contiguous ranges
    /\ union_is ranges 0 (contentLength h - 1).
Proof.
  intros HL Hn. eexists. split; [by apply Split_spec|].
  split; [apply spec_plan_disjoint; lia|].
  split; [apply spec_plan_ordered; lia|].
  split; [apply spec_plan_contiguous|apply spec_plan_union; lia].
Qed.

Lemma Split_partitions_file_witness :
  0 <= contentLength (job 1000 3) <= GoInt.max_int
  /\ 1 <= numRoutines (job 1000 3) <= GoInt.max_int
  /\ exists ranges,
       Split (job 1000 3) = Done ranges
       /\ pairwise_disjoint ranges
       /\ ordered_by_start ranges
       /\ contiguous ranges
       /\ union_is ranges 0 (contentLength (job 1000 3) - 1).
Proof.
  assert (H1 : 0 <= contentLength (job 1000 3) <= GoInt.max_int)
    by (vm_compute; split; discriminate).
  assert (H2 : 1 <= numRoutines (job 1000 3) <= GoInt.max_int)
    by (vm_compute; split; discriminate).
  split; [exact H1|]. split; [exact H2|].
  exact (Split_partitions_file (job 1000 3) H1 H2).
Defined.

(** C2: [Split] computes blockSize = totalLength / workerCount by truncating
    division and returns, for each worker index i in [0, workerCount), the
    range from i*blockSize to (i+1)*blockSize - 1, the last worker's end
    being totalLength - 1; totalLength = 10 and workerCount = 4 give
    [0,1], [2,3], [4,5], [6,9]. *)
Theorem Split_block_formula (h : HttpDownloader) :
  0 <= contentLength h <= GoInt.max_int ->
  1 <= numRoutines h <= GoInt.max_int ->
  exists ranges,
    Split h = Done ranges
    /\ (forall i : Z, 0 <= i < numRoutines h ->
          ranges !! Z.to_nat i
          = Some [ i * Z.quot (contentLength h) (numRoutines h);
                   if i =? numRoutines h - 1 then contentLength h - 1
                   else (i + 1) * Z.quot (contentLength h) (numRoutines h) - 1 ])
    /\ (forall k : nat, numRoutines h <= Z.of_nat k -> ranges !! k = None)
    /\ (contentLength h = 10 -> numRoutines h = 4 ->
          ranges = [[0; 1]; [2; 3]; [4; 5]; [6; 9]]).
Proof.
  intros HL Hn. eexists. split; [by apply Split_spec|].
  split; [|split].
  - intros i Hi. apply spec_plan_lookup. rewrite Z2Nat.id by lia.
    split; [reflexivity|lia].
  - intros k Hk. apply lookup_ge_None. rewrite spec_plan_length. lia.
  - by intros -> ->.
Qed.

Lemma Split_block_formula_witness :
  0 <= contentLength (job 10 4) <= GoInt.max_int
  /\ 1 <= numRoutines (job 10 4) <= GoInt.max_int
  /\ Split (job 10 4) = Done [[0; 1]; [2; 3]; [4; 5]; [6; 9]].
Proof.
  assert (H1 : 0 <= contentLength (job 10 4) <= GoInt.max_int)
    by (vm_compute; split; discriminate).
  assert (H2 : 1 <= numRoutines (job 10 4) <= GoInt.max_int)
    by (vm_compute; split; discriminate).
  split; [exact H1|]. split; [exact H2|].
  destruct (Split_block_formula (job 10 4) H1 H2) as (rs & -> & _ & _ & Hex).
  f_equal. by apply Hex.
Defined.

(** C3: [Split] returns exactly workerCount ranges, also when workerCount
    exceeds totalLength; in that case some returned range is degenerate
    (start > end).  The worker count is never reduced. *)
Theorem Split_keeps_worker_count (h : HttpDownloader) :
  0 <= contentLength h <= GoInt.max_int ->
  1 <= numRoutines h <= GoInt.max_int ->
  exists ranges,
    Split h = Done ranges
    /\ Z.of_nat (length ranges) = numRoutines h
    /\ (numRoutines h > contentLength h ->
          exists r, r ∈ ranges /\ degenerate r).
Proof.
  intros HL Hn. eexists. split; [by apply Split_spec|]. split.
  - rewrite spec_plan_length. lia.
  - apply spec_plan_degenerate; lia.
Qed.

Lemma Split_keeps_worker_count_witness :
  0 <= contentLength (job 2 5) <= GoInt.max_int
  /\ 1 <= numRoutines (job 2 5) <= GoInt.max_int
  /\ exists ranges,
       Split (job 2 5) = Done ranges
       /\ Z.of_nat (length ranges) = numRoutines (job 2 5)
       /\ (numRoutines (job 2 5) > contentLength (job 2 5) ->
             exists r, r ∈ ranges /\ degenerate r).
Proof.
  assert (H1 : 0 <= contentLength (job 2 5) <= GoInt.max_int)
    by (vm_compute; split; discriminate).
  assert (H2 : 1 <= numRoutines (job 2 5) <= GoInt.max_int)
    by (vm_compute; split; discriminate).
  split; [exact H1|]. split; [exact H2|].
  exact (Split_keeps_worker_count (job 2 5) H1 H2).
Defined.

(** C4: when workerCount divides totalLength evenly, every range [Split]
    returns has the same length, totalLength / workerCount. *)
Theorem Split_even_blocks (h : HttpDownloader) :
  0 <= contentLength h <= GoInt.max_int ->
  1 <= numRoutines h <= GoInt.max_int ->
  (numRoutines h | contentLength h) ->
  exists ranges,
    Split h = Done ranges
    /\ forall r, r ∈ ranges ->
         range_len r = Z.quot (contentLength h) (numRoutines h).
Proof.
  intros HL Hn Hdiv. eexists. split; [by apply Split_spec|].
  intros r Hr. apply spec_plan_even_len; first [lia | assumption].
Qed.

Lemma Split_even_blocks_witness :
  0 <= contentLength (job 900 3) <= GoInt.max_int
  /\ 1 <= numRoutines (job 900 3) <= GoInt.max_int
  /\ (numRoutines (job 900 3) | contentLength (job 900 3))
  /\ exists ranges,
       Split (job 900 3) = Done ranges
       /\ forall r, r ∈ ranges ->
            range_len r = Z.quot (contentLength (job 900 3)) (numRoutines (job 900 3)).
Proof.
  assert (H1 : 0 <= contentLength (job 900 3) <= GoInt.max_int)
    by (vm_compute; split; discriminate).
  assert (H2 : 1 <= numRoutines (job 900 3) <= GoInt.max_int)
    by (vm_compute; split; discriminate).
  assert (H3 : (numRoutines (job 900 3) | contentLength (job 900 3)))
    by (exists 300; reflexivity).
  split; [exact H1|]. split; [exact H2|]. split; [exact H3|].
  exact (Split_even_blocks (job 900 3) H1 H2 H3).
Defined.

(** C5: [Split] is a function of totalLength and workerCount alone: two
    downloaders that agree on these two fields get the identical result,
    whatever their other fields hold, and a result is always produced
    (the loop is never cut short). *)
Theorem Split_deterministic (h1 h2 : HttpDownloader) :
  contentLength h1 = contentLength h2 ->
  numRoutines h1 = numRoutines h2 ->
  numRoutines h1 <= GoInt.max_int ->
  Split h1 = Split h2 /\ Split h1 <> OutOfFuel.
Proof.
  intros HL Hn Hmax. split; [|by apply Split_total].
  unfold Split. rewrite HL, Hn.
  destruct (numRoutines h2 =? 0); [done|].
  by rewrite (Split_loop_fields h1 h2 HL Hn).
Qed.

Lemma Split_deterministic_witness :
  Split (mkHttpDownloader "http://a.example/x" "x" 1000 true 3)
  = Split (mkHttpDownloader "http://b.example/y" "y" 1000 false 3)
  /\ Split (mkHttpDownloader "http://a.example/x" "x" 1000 true 3) <> OutOfFuel.
Proof.
  apply (Split_deterministic
           (mkHttpDownloader "http://a.example/x" "x" 1000 true 3)
           (mkHttpDownloader "http://b.example/y" "y" 1000 false 3)).
  - reflexivity.
  - reflexivity.
  - vm_compute. discriminate.
Defined.

(** * Floating-point arithmetic of the progress loop *)

Lemma rec_code_of_loc m l : rec_code (shr_record_of_loc m l) = 4 * m + loc_code l.
Proof.
  unfold rec_code. destruct l as [|[]]; cbn [shr_record_of_loc shr_m shr_r shr_s loc_code]; lia.
Qed.

Lemma code_div_mod (m c : Z) :
  0 <= c < 4 -> (4 * m + c) / 4 = m /\ (4 * m + c) mod 4 = c.
Proof.
  intros Hc. split.
  - symmetry. apply (Z.div_unique _ 4 m c); lia.
  - symmetry. apply (Z.mod_unique _ 4 m c); lia.
Qed.

Lemma sticky_half_code (m c : Z) :
  0 <= c < 4 -> sticky_half (4 * m + c) = 2 * m + (if c =? 0 then 0 else 1).
Proof.
  intros Hc. unfold sticky_half. by destruct (code_div_mod m c Hc) as [-> ->].
Qed.

(** One step of [shr_1] acts on the code as [sticky_half]. *)
Lemma rec_code_shr_1 r : 0 <= shr_m r -> rec_code (shr_1 r) = sticky_half (rec_code r).
Proof.
  destruct r as [m rb sb]. cbn [shr_m]. intros Hm.
  unfold rec_code at 2. cbn [shr_m shr_r shr_s].
  rewrite <- Z.add_assoc.
  rewrite sticky_half_code by (destruct rb, sb; lia).
  unfold rec_code.
  destruct m as [|[p|p|]|]; [| | | |lia];
    destruct rb, sb; cbn [shr_1 shr_m shr_r shr_s orb]; cbv beta iota;
    match goal with |- context [?a =? 0] => destruct (Z.eqb_spec a 0) end; lia.
Qed.

Lemma shr_1_m_nonneg r : 0 <= shr_m r -> 0 <= shr_m (shr_1 r).
Proof. destruct r as [[|[p|p|]|] rb sb]; cbn; lia. Qed.

(** [round_nearest_even] reads the code as [nearest_even]. *)
Lemma rec_round r :
  0 <= shr_m r ->
  round_nearest_even (shr_m r) (loc_of_shr_record r) = nearest_even (rec_code r).
Proof.
  destruct r as [m rb sb]. cbn [shr_m]. intros Hm. unfold nearest_even, rec_code.
  cbn [shr_m shr_r shr_s].
  pose proof (code_div_mod m) as E.
  destruct rb, sb; cbn [loc_of_shr_record round_nearest_even].
  - destruct (E 3 ltac:(lia)) as [E1 E2].
    replace (4 * m + 2 + 1) with (4 * m + 3) by lia. rewrite E1, E2. reflexivity.
  - destruct (E 2 ltac:(lia)) as [E1 E2].
    replace (4 * m + 2 + 0) with (4 * m + 2) by lia. rewrite E1, E2. reflexivity.
  - destruct (E 1 ltac:(lia)) as [E1 E2].
    replace (4 * m + 0 + 1) with (4 * m + 1) by lia. rewrite E1, E2. reflexivity.
  - destruct (E 0 ltac:(lia)) as [E1 E2].
    replace (4 * m + 0 + 0) with (4 * m + 0) by lia. rewrite E1, E2. reflexivity.
Qed.

(** ** Binary digits *)
Lemma digits2_pos_size p : digits2_pos p = Pos.size p.
Proof. induction p; cbn; congruence. Qed.

Lemma Zdigits2_bounds m : 0 < m -> 2 ^ (Zdigits2 m - 1) <= m < 2 ^ Zdigits2 m.
Proof.
  destruct m as [|p|p]; [lia| |lia]. intros _. cbn [Zdigits2].
  rewrite digits2_pos_size.
  pose proof (Pos.size_gt p) as Hgt. pose proof (Pos.size_le p) as Hle.
  assert (E : Z.pos (2 ^ Pos.size p) = 2 ^ Z.pos (Pos.size p)) by apply Pos2Z.inj_pow.
  assert (2 ^ Z.pos (Pos.size p) = 2 * 2 ^ (Z.pos (Pos.size p) - 1)).
  { rewrite <- Z.pow_succ_r by lia. f_equal. lia. }
  lia.
Qed.

Lemma Zdigits2_pos m : 0 < m -> 0 < Zdigits2 m.
Proof. destruct m; cbn; lia. Qed.

Lemma Zdigits2_unique m d : 2 ^ (d - 1) <= m < 2 ^ d -> 0 < d -> Zdigits2 m = d.
Proof.
  intros Hm Hd.
  assert (0 < m) by (pose proof (Z.pow_pos_nonneg 2 (d - 1)); lia).
  pose proof (Zdigits2_bounds m ltac:(lia)) as Hb.
  pose proof (Zdigits2_pos m ltac:(lia)).
  destruct (Z.lt_trichotomy (Zdigits2 m) d) as [Hlt|[?|Hgt]]; [|done|].
  - pose proof (Z.pow_le_mono_r 2 (Zdigits2 m) (d - 1) ltac:(lia) ltac:(lia)). lia.
  - pose proof (Z.pow_le_mono_r 2 d (Zdigits2 m - 1) ltac:(lia) ltac:(lia)). lia.
Qed.

Lemma Zdigits2_mono m1 m2 : 0 < m1 <= m2 -> Zdigits2 m1 <= Zdigits2 m2.
Proof.
  intros Hm.
  pose proof (Zdigits2_bounds m1 ltac:(lia)) as H1.
  pose proof (Zdigits2_bounds m2 ltac:(lia)) as H2.
  pose proof (Zdigits2_pos m1 ltac:(lia)).
  destruct (Z.le_gt_cases (Zdigits2 m1) (Zdigits2 m2)) as [|Hgt]; [done|].
  pose proof (Z.pow_le_mono_r 2 (Zdigits2 m2) (Zdigits2 m1 - 1) ltac:(lia) ltac:(lia)). lia.
Qed.

Lemma Zdigits2_shift m k :
  0 <= k -> k < Zdigits2 m -> 0 < m -> Zdigits2 (m / 2 ^ k) = Zdigits2 m - k.
Proof.
  intros Hk Hd Hm. pose proof (Zdigits2_bounds m Hm) as [Hlo Hhi].
  assert (Hp : 0 < 2 ^ k) by (apply Z.pow_pos_nonneg; lia).
  apply Zdigits2_unique; [|lia]. split.
  - apply Z.div_le_lower_bound; [lia|].
    rewrite <- Z.pow_add_r by lia. replace (k + (Zdigits2 m - k - 1)) with (Zdigits2 m - 1) by lia.
    done.
  - apply Z.div_lt_upper_bound; [lia|].
    rewrite <- Z.pow_add_r by lia. replace (k + (Zdigits2 m - k)) with (Zdigits2 m) by lia.
    done.
Qed.

Lemma times_succ_r {A} k (f : A -> A) x : times (S k) f x = times k f (f x).
Proof. induction k as [|k IH]; [done|]. cbn [times] in *. by rewrite IH. Qed.

Lemma times_add {A} j k (f : A -> A) x : times (j + k) f x = times j f (times k f x).
Proof. induction j as [|j IH]; [done|]. cbn [times Nat.add]. by rewrite IH. Qed.

(** [iter_pos] is iteration a number of times. *)
Lemma iter_pos_times {A} (f : A -> A) p x : SpecFloat.iter_pos f p x = times (Pos.to_nat p) f x.
Proof.
  revert x. induction p as [p IH|p IH|]; intros x; cbn [SpecFloat.iter_pos].
  - rewrite !IH, Pos2Nat.inj_xI.
    replace (S (2 * Pos.to_nat p))%nat with (Pos.to_nat p + (Pos.to_nat p + 1))%nat by lia.
    rewrite !times_add. done.
  - rewrite !IH, Pos2Nat.inj_xO.
    replace (2 * Pos.to_nat p)%nat with (Pos.to_nat p + Pos.to_nat p)%nat by lia.
    by rewrite times_add.
  - done.
Qed.

Lemma shr_nat mrs e n :
  0 <= n -> shr mrs e n = (times (Z.to_nat n) shr_1 mrs, e + n).
Proof.
  intros Hn. destruct n as [|p|p]; [|  |lia]; cbn [shr].
  - by rewrite Z.add_0_r.
  - by rewrite iter_pos_times.
Qed.

Lemma iter_shr_1 k r :
  0 <= shr_m r ->
  0 <= shr_m (times k shr_1 r)
  /\ rec_code (times k shr_1 r) = times k sticky_half (rec_code r).
Proof.
  intros Hr. induction k as [|k [IH1 IH2]]; [done|]. cbn [times]. split.
  - by apply shr_1_m_nonneg.
  - by rewrite rec_code_shr_1, IH2.
Qed.

(** ** Arithmetic of the codes *)
Lemma sticky_half_nonneg z : 0 <= z -> 0 <= sticky_half z.
Proof.
  intros Hz. unfold sticky_half. pose proof (Z.div_pos z 4 Hz ltac:(lia)).
  destruct (z mod 4 =? 0); lia.
Qed.

Lemma sticky_half_div4 z : sticky_half z / 4 = z / 4 / 2.
Proof.
  unfold sticky_half. destruct (z mod 4 =? 0); Z.div_mod_to_equations; lia.
Qed.

Lemma sticky_half_mono z1 z2 : z1 <= z2 -> sticky_half z1 <= sticky_half z2.
Proof.
  intros Hz. unfold sticky_half.
  destruct (Z.eqb_spec (z1 mod 4) 0), (Z.eqb_spec (z2 mod 4) 0);
    Z.div_mod_to_equations; lia.
Qed.

Lemma iter_sticky_nonneg k z : 0 <= z -> 0 <= times k sticky_half z.
Proof. intros Hz. induction k; [done|]. cbn. by apply sticky_half_nonneg. Qed.

Lemma iter_sticky_mono k z1 z2 :
  z1 <= z2 -> times k sticky_half z1 <= times k sticky_half z2.
Proof. intros Hz. induction k; [done|]. cbn. by apply sticky_half_mono. Qed.

Lemma iter_sticky_div4 k z :
  times k sticky_half z / 4 = z / 4 / 2 ^ Z.of_nat k.
Proof.
  induction k as [|k IH].
  - cbn [times]. by rewrite Z.pow_0_r, Z.div_1_r.
  - cbn [times]. rewrite sticky_half_div4, IH.
    rewrite Nat2Z.inj_succ, Z.pow_succ_r by lia.
    rewrite Z.div_div by lia. f_equal. lia.
Qed.

Lemma nearest_even_bounds z : z / 4 <= nearest_even z <= z / 4 + 1.
Proof.
  unfold nearest_even.
  destruct (z mod 4 <? 2), (z mod 4 =? 2), (Z.even (z / 4)); lia.
Qed.

Lemma nearest_even_mono z1 z2 : z1 <= z2 -> nearest_even z1 <= nearest_even z2.
Proof.
  intros Hz.
  destruct (Z.eq_dec (z1 / 4) (z2 / 4)) as [Heq|Hne].
  - unfold nearest_even. rewrite Heq.
    destruct (Z.ltb_spec (z1 mod 4) 2), (Z.ltb_spec (z2 mod 4) 2),
      (Z.eqb_spec (z1 mod 4) 2), (Z.eqb_spec (z2 mod 4) 2),
      (Z.even (z2 / 4)); Z.div_mod_to_equations; lia.
  - pose proof (nearest_even_bounds z1). pose proof (nearest_even_bounds z2).
    Z.div_mod_to_equations; lia.
Qed.

Lemma fexp_normal e : -1021 <= e -> fexp 53 1024 e = e - 53.
Proof. intros He. unfold fexp, emin. lia. Qed.

Lemma round_code_mantissa z :
  0 <= z -> 53 <= Zdigits2 (z / 4) ->
  let k := Zdigits2 (z / 4) - 53 in
  2 ^ 52 <= times (Z.to_nat k) sticky_half z / 4 < 2 ^ 53.
Proof.
  intros Hz Hd k. rewrite iter_sticky_div4, Z2Nat.id by lia.
  assert (0 < z / 4) as Hm.
  { pose proof (Z.div_pos z 4 Hz ltac:(lia)).
    destruct (Z.eq_dec (z / 4) 0) as [E|]; [|lia].
    rewrite E in Hd. cbn in Hd. lia. }
  pose proof (Zdigits2_shift (z / 4) k ltac:(lia) ltac:(lia) Hm) as Hs.
  assert (0 < z / 4 / 2 ^ k).
  { pose proof (Z.div_pos (z / 4) (2 ^ k) ltac:(lia) ltac:(apply Z.pow_pos_nonneg; lia)).
    destruct (Z.eq_dec (z / 4 / 2 ^ k) 0) as [E|]; [|lia].
    rewrite E in Hs. cbn in Hs. lia. }
  pose proof (Zdigits2_bounds (z / 4 / 2 ^ k) ltac:(lia)) as Hb.
  rewrite Hs in Hb. replace (Zdigits2 (z / 4) - k) with 53 in Hb by lia.
  exact Hb.
Qed.

(** On a mantissa of at least 53 digits, away from the subnormal range and
    from overflow, [binary_round_aux] is [round_code] of the code. *)
Lemma binary_round_aux_code mx ex lx :
  0 < mx -> 53 <= Zdigits2 mx -> -1021 <= Zdigits2 mx + ex <= 1023 ->
  binary_round_aux 53 1024 false mx ex lx = round_code (4 * mx + loc_code lx) ex.
Proof.
  intros Hmx Hd He.
  assert (Hc : 0 <= loc_code lx < 4) by (destruct lx as [|[]]; cbn; lia).
  destruct (code_div_mod mx _ Hc) as [Hdiv _].
  pose proof (round_code_mantissa (4 * mx + loc_code lx) ltac:(lia)) as Hman.
  unfold round_code. rewrite Hdiv in *. specialize (Hman Hd). cbn zeta in Hman.
  set (k := Zdigits2 mx - 53) in *.
  unfold binary_round_aux, shr_fexp.
  rewrite fexp_normal by lia.
  replace (Zdigits2 mx + ex - 53 - ex) with k by lia.
  rewrite shr_nat by lia.
  destruct (iter_shr_1 (Z.to_nat k) (shr_record_of_loc mx lx)) as [Hnn Hcode].
  { destruct lx as [|[]]; cbn; lia. }
  rewrite rec_code_of_loc in Hcode.
  rewrite rec_round by done. rewrite Hcode.
  set (w := times (Z.to_nat k) sticky_half (4 * mx + loc_code lx)) in *.
  pose proof (nearest_even_bounds w) as Hne.
  set (m := nearest_even w) in *.
  destruct (Z.eqb_spec m (2 ^ 53)) as [Hm|Hm].
  - rewrite Hm. 
    replace (Zdigits2 (2 ^ 53)) with 54 by (vm_compute; reflexivity).
    rewrite fexp_normal by lia.
    replace (54 + (ex + k) - 53 - (ex + k)) with 1 by lia.
    cbn [shr shr_record_of_loc SpecFloat.iter_pos].
    change (shr_m (shr_1 {| shr_m := 2 ^ 53; shr_r := false; shr_s := false |}))
      with (Z.pos (2 ^ 52)).
    cbv iota beta.
    destruct (Z.leb_spec (ex + k + 1) (1024 - 53)); [done|lia].
  - assert (Hm53 : Zdigits2 m = 53) by (apply Zdigits2_unique; lia).
    rewrite Hm53, fexp_normal by lia.
    replace (53 + (ex + k) - 53 - (ex + k)) with 0 by lia.
    cbn [shr shr_record_of_loc shr_m].
    destruct m as [|p|p] eqn:Em; [lia| |lia].
    cbn [Z.to_pos].
    destruct (Z.leb_spec (ex + k) (1024 - 53)); [done|lia].
Qed.

(** ** Order on positive finite floats *)
Lemma SFleb_finite m1 e1 m2 e2 :
  SFleb (S754_finite false m1 e1) (S754_finite false m2 e2) = true <->
  e1 < e2 \/ (e1 = e2 /\ Z.pos m1 <= Z.pos m2).
Proof.
  unfold SFleb, SFcompare.
  destruct (Z.compare_spec e1 e2) as [He|He|He].
  - change (Pos.compare_cont Eq m1 m2) with (Pos.compare m1 m2).
    destruct (Pos.compare_spec m1 m2) as [Hm|Hm|Hm]; split; intros H;
      first [done | lia | (right; split; [done|lia])].
  - split; [intros _; by left|done].
  - split; [done|lia].
Qed.

Lemma round_code_cases z e :
  0 <= z -> 53 <= Zdigits2 (z / 4) ->
  let k := Zdigits2 (z / 4) - 53 in
  let m := nearest_even (times (Z.to_nat k) sticky_half z) in
  2 ^ 52 <= m <= 2 ^ 53
  /\ ((m = 2 ^ 53 /\ round_code z e = S754_finite false (2 ^ 52)%positive (e + k + 1))
      \/ (m < 2 ^ 53 /\ round_code z e = S754_finite false (Z.to_pos m) (e + k))).
Proof.
  intros Hz Hd k m.
  pose proof (round_code_mantissa z Hz Hd) as Hman. cbn zeta in Hman. fold k in Hman.
  pose proof (nearest_even_bounds (times (Z.to_nat k) sticky_half z)) as Hne.
  fold m in Hne. split; [lia|].
  unfold round_code. fold k. fold m.
  destruct (Z.eqb_spec m (2 ^ 53)); [left|right]; split; try done; lia.
Qed.

(** At one exponent, rounding is monotone in the code. *)
Lemma round_code_mono z1 z2 e :
  0 <= z1 <= z2 -> 53 <= Zdigits2 (z1 / 4) ->
  SFleb (round_code z1 e) (round_code z2 e) = true.
Proof.
  intros Hz Hd1.
  assert (0 < z1 / 4) as Hm1.
  { pose proof (Z.div_pos z1 4 ltac:(lia) ltac:(lia)).
    destruct (Z.eq_dec (z1 / 4) 0) as [E|]; [|lia]. rewrite E in Hd1. cbn in Hd1. lia. }
  assert (z1 / 4 <= z2 / 4) as Hm12 by (apply Z.div_le_mono; lia).
  pose proof (Zdigits2_mono (z1 / 4) (z2 / 4) ltac:(lia)) as Hd12.
  destruct (round_code_cases z1 e ltac:(lia) Hd1) as (Hb1 & Hc1).
  destruct (round_code_cases z2 e ltac:(lia) ltac:(lia)) as (Hb2 & Hc2).
  cbn zeta in *.
  set (k1 := Zdigits2 (z1 / 4) - 53) in *.
  set (k2 := Zdigits2 (z2 / 4) - 53) in *.
  set (m1 := nearest_even (times (Z.to_nat k1) sticky_half z1)) in *.
  set (m2 := nearest_even (times (Z.to_nat k2) sticky_half z2)) in *.
  assert (Hpos : forall m, 2 ^ 52 <= m -> Z.pos (Z.to_pos m) = m).
  { intros m Hm. apply Z2Pos.id. lia. }
  assert (k1 = k2 -> m1 <= m2) as Hsame.
  { intros Hk. subst m1 m2. rewrite <- Hk.
    apply nearest_even_mono, iter_sticky_mono. lia. }
  destruct Hc1 as [[Hm1eq ->]|[Hm1lt ->]], Hc2 as [[Hm2eq ->]|[Hm2lt ->]];
    apply SFleb_finite; rewrite ?Hpos by lia.
  - destruct (Z.eq_dec k1 k2); [right|left]; lia.
  - destruct (Z.eq_dec k1 k2) as [Hk|Hk]; [specialize (Hsame Hk); lia|].
    destruct (Z.eq_dec (k1 + 1) k2); [right|left]; [|lia].
    split; [lia|]. change (Z.pos (2 ^ 52)) with (2 ^ 52). lia.
  - left. lia.
  - destruct (Z.eq_dec k1 k2) as [Hk|Hk]; [right|left]; [|lia].
    split; [lia|]. by apply Hsame.
Qed.

(** Rounding does not depend on how finely the value is located: one
    more digit at an exponent one lower gives the same float. *)
Lemma round_code_refine z e :
  0 <= z -> 54 <= Zdigits2 (z / 4) ->
  round_code z e = round_code (sticky_half z) (e + 1).
Proof.
  intros Hz Hd.
  assert (0 < z / 4) as Hm.
  { pose proof (Z.div_pos z 4 ltac:(lia) ltac:(lia)).
    destruct (Z.eq_dec (z / 4) 0) as [E|]; [|lia]. rewrite E in Hd. cbn in Hd. lia. }
  unfold round_code. rewrite sticky_half_div4.
  pose proof (Zdigits2_shift (z / 4) 1 ltac:(lia) ltac:(lia) Hm) as Hs.
  change (2 ^ 1) with 2 in Hs. rewrite Hs.
  replace (Z.to_nat (Zdigits2 (z / 4) - 53))
    with (S (Z.to_nat (Zdigits2 (z / 4) - 1 - 53))) by lia.
  rewrite times_succ_r.
  replace (e + 1 + (Zdigits2 (z / 4) - 1 - 53)) with (e + (Zdigits2 (z / 4) - 53)) by lia.
  reflexivity.
Qed.

Lemma round_code_refine_times j z e :
  0 <= z -> 53 + Z.of_nat j <= Zdigits2 (z / 4) ->
  round_code z e = round_code (times j sticky_half z) (e + Z.of_nat j).
Proof.
  revert z e. induction j as [|j IH]; intros z e Hz Hd.
  - cbn [times]. by rewrite Z.add_0_r.
  - rewrite times_succ_r, round_code_refine by lia.
    assert (0 < z / 4) as Hm.
    { pose proof (Z.div_pos z 4 ltac:(lia) ltac:(lia)).
      destruct (Z.eq_dec (z / 4) 0) as [E|]; [|lia]. rewrite E in Hd. cbn in Hd. lia. }
    rewrite IH.
    + f_equal. lia.
    + by apply sticky_half_nonneg.
    + rewrite sticky_half_div4.
      pose proof (Zdigits2_shift (z / 4) 1 ltac:(lia) ltac:(lia) Hm) as Hs.
      change (2 ^ 1) with 2 in Hs. lia.
Qed.

Lemma rem_code_spec D r :
  0 < D -> 0 <= r ->
  rem_code D r
  = if r =? 0 then 0
    else match 2 * r ?= D with Lt => 1 | Eq => 2 | Gt => 3 end.
Proof.
  intros HD Hr. unfold rem_code, new_location, new_location_even, new_location_odd.
  destruct (Z.even D) eqn:Ev; destruct (Z.eqb_spec r 0); try done.
  destruct (Z.compare_spec (2 * r + 1) D), (Z.compare_spec (2 * r) D);
    try done; try lia.
  subst D. rewrite Z.even_mul in Ev. done.
Qed.

Lemma rem_code_range D r : 0 < D -> 0 <= r -> 0 <= rem_code D r < 4.
Proof.
  intros HD Hr. rewrite rem_code_spec by done.
  destruct (r =? 0), (2 * r ?= D); lia.
Qed.

Lemma rem_code_mono D r1 r2 :
  0 < D -> 0 <= r1 <= r2 -> rem_code D r1 <= rem_code D r2.
Proof.
  intros HD Hr. rewrite !rem_code_spec by lia.
  destruct (Z.eqb_spec r1 0), (Z.eqb_spec r2 0),
    (Z.compare_spec (2 * r1) D), (Z.compare_spec (2 * r2) D); lia.
Qed.

Lemma quot_code_nonneg M D : 0 <= M -> 0 < D -> 0 <= quot_code M D.
Proof.
  intros HM HD. unfold quot_code.
  pose proof (Z.div_pos M D HM HD).
  pose proof (rem_code_range D (M mod D) HD ltac:(apply Z.mod_pos_bound; lia)). lia.
Qed.

Lemma quot_code_div4 M D : 0 <= M -> 0 < D -> quot_code M D / 4 = M / D.
Proof.
  intros HM HD. unfold quot_code.
  apply (code_div_mod (M / D)), rem_code_range; [done|].
  apply Z.mod_pos_bound; lia.
Qed.

Lemma quot_code_mono M1 M2 D :
  0 <= M1 <= M2 -> 0 < D -> quot_code M1 D <= quot_code M2 D.
Proof.
  intros HM HD. unfold quot_code.
  pose proof (Z.div_le_mono M1 M2 D HD ltac:(lia)) as Hq.
  pose proof (Z.mod_pos_bound M1 D HD) as Hr1.
  pose proof (Z.mod_pos_bound M2 D HD) as Hr2.
  pose proof (rem_code_range D (M1 mod D) HD ltac:(lia)).
  pose proof (rem_code_range D (M2 mod D) HD ltac:(lia)).
  destruct (Z.eq_dec (M1 / D) (M2 / D)) as [Heq|Hne]; [|lia].
  pose proof (Z.div_mod M1 D ltac:(lia)) as E1.
  pose proof (Z.div_mod M2 D ltac:(lia)) as E2.
  rewrite Heq in *.
  pose proof (rem_code_mono D (M1 mod D) (M2 mod D) HD ltac:(lia)). lia.
Qed.

(** Halving the scale of a ratio is one [sticky_half] on its code. *)
Lemma quot_code_double M D :
  0 <= M -> 0 < D -> sticky_half (quot_code (2 * M) D) = quot_code M D.
Proof.
  intros HM HD.
  pose proof (Z.mod_pos_bound M D HD) as Hr.
  pose proof (Z.div_mod M D ltac:(lia)) as E.
  pose proof (Z.div_pos M D HM HD) as Hq.
  unfold quot_code at 1.
  rewrite sticky_half_code
    by (apply rem_code_range; [done|apply Z.mod_pos_bound; lia]).
  unfold quot_code. rewrite !rem_code_spec by (try apply Z.mod_pos_bound; lia).
  destruct (Z.compare_spec (2 * (M mod D)) D) as [Hc|Hc|Hc].
  - assert (2 * M / D = 2 * (M / D) + 1) as ->.
    { symmetry. apply (Z.div_unique _ D _ 0); lia. }
    assert ((2 * M) mod D = 0) as ->.
    { symmetry. apply (Z.mod_unique _ D (2 * (M / D) + 1) 0); lia. }
    destruct (Z.eqb_spec (M mod D) 0); [lia|]. cbn. lia.
  - assert (2 * M / D = 2 * (M / D)) as ->.
    { symmetry. apply (Z.div_unique _ D _ (2 * (M mod D))); lia. }
    assert ((2 * M) mod D = 2 * (M mod D)) as ->.
    { symmetry. apply (Z.mod_unique _ D (2 * (M / D)) (2 * (M mod D))); lia. }
    destruct (Z.eqb_spec (M mod D) 0) as [E0|E0].
    + rewrite E0, !Z.mul_0_r. cbn. lia.
    + destruct (Z.eqb_spec (2 * (M mod D)) 0); [lia|].
      destruct (2 * (2 * (M mod D)) ?= D); cbn; lia.
  - assert (2 * M / D = 2 * (M / D) + 1) as ->.
    { symmetry. apply (Z.div_unique _ D _ (2 * (M mod D) - D)); lia. }
    assert ((2 * M) mod D = 2 * (M mod D) - D) as ->.
    { symmetry. apply (Z.mod_unique _ D (2 * (M / D) + 1) (2 * (M mod D) - D)); lia. }
    destruct (Z.eqb_spec (M mod D) 0); [lia|].
    destruct (Z.eqb_spec (2 * (M mod D) - D) 0); [lia|].
    destruct (2 * (2 * (M mod D) - D) ?= D); cbn; lia.
Qed.

Lemma quot_code_scale j M D :
  0 <= M -> 0 < D ->
  times j sticky_half (quot_code (M * 2 ^ Z.of_nat j) D) = quot_code M D.
Proof.
  intros HM HD. revert M HM. induction j as [|j IH]; intros M HM.
  - cbn [times]. by rewrite Z.pow_0_r, Z.mul_1_r.
  - rewrite times_succ_r.
    rewrite Nat2Z.inj_succ, Z.pow_succ_r by lia.
    replace (M * (2 * 2 ^ Z.of_nat j)) with (2 * (M * 2 ^ Z.of_nat j)) by lia.
    rewrite quot_code_double; [by apply IH|nia|done].
Qed.

Lemma Zdigits2_ge m d : 0 < d -> 2 ^ (d - 1) <= m -> d <= Zdigits2 m.
Proof.
  intros Hd Hm.
  assert (0 < m) by (pose proof (Z.pow_pos_nonneg 2 (d - 1)); lia).
  pose proof (Zdigits2_bounds m ltac:(lia)) as [_ Hhi].
  pose proof (Zdigits2_pos m ltac:(lia)).
  destruct (Z.le_gt_cases d (Zdigits2 m)) as [|Hgt]; [done|].
  pose proof (Z.pow_le_mono_r 2 (Zdigits2 m) (d - 1) ltac:(lia) ltac:(lia)). lia.
Qed.

Lemma Zdigits2_lt m d : 0 < m < 2 ^ d -> Zdigits2 m <= d.
Proof.
  intros Hm.
  pose proof (Zdigits2_bounds m ltac:(lia)) as [Hlo _].
  pose proof (Zdigits2_pos m ltac:(lia)).
  destruct (Z.le_gt_cases (Zdigits2 m) d) as [|Hgt]; [done|].
  assert (0 <= d).
  { destruct (Z.le_gt_cases 0 d); [done|]. rewrite Z.pow_neg_r in Hm; lia. }
  pose proof (Z.pow_le_mono_r 2 d (Zdigits2 m - 1) ltac:(lia) ltac:(lia)). lia.
Qed.

Lemma scaled_quotient_ge M D j :
  0 < D -> 0 <= j -> 2 ^ 52 <= M / D -> 2 ^ (52 + j) <= M * 2 ^ j / D.
Proof.
  intros HD Hj HM.
  assert (0 < 2 ^ j) by (apply Z.pow_pos_nonneg; lia).
  apply Z.div_le_lower_bound; [done|].
  rewrite Z.pow_add_r by lia.
  pose proof (Z.mul_div_le M D HD). nia.
Qed.

Lemma round_ratio_scale (j : nat) M D e :
  0 < D -> 0 <= M -> 2 ^ 52 <= M / D ->
  round_ratio (M * 2 ^ Z.of_nat j) D (e - Z.of_nat j) = round_ratio M D e.
Proof.
  intros HD HM Hq. unfold round_ratio.
  assert (0 <= M * 2 ^ Z.of_nat j) by (pose proof (Z.pow_pos_nonneg 2 (Z.of_nat j)); nia).
  rewrite (round_code_refine_times j).
  - rewrite quot_code_scale by done. f_equal. lia.
  - by apply quot_code_nonneg.
  - rewrite quot_code_div4 by done.
    apply Zdigits2_ge; [lia|].
    replace (53 + Z.of_nat j - 1) with (52 + Z.of_nat j) by lia.
    apply scaled_quotient_ge; lia.
Qed.

(** Rounding of ratios is monotone, also across exponents. *)
Lemma round_ratio_le M1 M2 D e1 e2 :
  0 < D -> 0 <= M1 -> 0 <= M2 -> e1 <= e2 ->
  2 ^ 52 <= M1 / D -> 2 ^ 52 <= M2 / D ->
  M1 <= M2 * 2 ^ (e2 - e1) ->
  SFleb (round_ratio M1 D e1) (round_ratio M2 D e2) = true.
Proof.
  intros HD HM1 HM2 He Hq1 Hq2 Hle.
  rewrite <- (round_ratio_scale (Z.to_nat (e2 - e1)) M2 D e2) by done.
  rewrite Z2Nat.id by lia. replace (e2 - (e2 - e1)) with e1 by lia.
  unfold round_ratio. apply round_code_mono.
  - split; [by apply quot_code_nonneg|]. by apply quot_code_mono.
  - rewrite quot_code_div4 by done. apply Zdigits2_ge; [lia|]. done.
Qed.

Lemma round_ratio_normal M D e :
  0 < D -> 0 <= M -> 2 ^ 52 <= M / D ->
  normal (e + Zdigits2 (M / D) - 53) (e + Zdigits2 (M / D) - 52) (round_ratio M D e).
Proof.
  intros HD HM Hq. unfold round_ratio.
  assert (53 <= Zdigits2 (quot_code M D / 4)) as Hd.
  { rewrite quot_code_div4 by done. apply Zdigits2_ge; [lia|done]. }
  destruct (round_code_cases (quot_code M D) e (quot_code_nonneg M D HM HD) Hd)
    as (Hb & Hc).
  cbn zeta in *. rewrite quot_code_div4 in * by done.
  destruct Hc as [[_ ->]|[Hlt ->]].
  - exists (2 ^ 52)%positive, (e + (Zdigits2 (M / D) - 53) + 1).
    split; [done|]. split; [by vm_compute|lia].
  - eexists _, _. split; [done|]. split; [|lia].
    rewrite Z2Pos.id by lia. apply Zdigits2_unique; lia.
Qed.

(** ** The operations as roundings of ratios *)
Lemma quot_code_one M : 0 <= M -> quot_code M 1 = 4 * M.
Proof.
  intros HM. unfold quot_code. rewrite Z.div_1_r, Z.mod_1_r.
  rewrite rem_code_spec by lia. cbn. lia.
Qed.

Lemma div_eucl_div_mod a b : Z.div_eucl a b = (a / b, a mod b).
Proof. unfold Z.div, Z.modulo. by destruct (Z.div_eucl a b). Qed.

Lemma iter_xO p q : Z.pos (Pos.iter xO p q) = Z.pos p * 2 ^ Z.pos q.
Proof.
  induction q as [|q IH] using Pos.peano_ind.
  - cbn [Pos.iter]. lia.
  - rewrite Pos.iter_succ, Pos2Z.inj_xO, IH, Pos2Z.inj_succ, Z.pow_succ_r by lia. lia.
Qed.

Lemma binary_round_aux_ratio M D e :
  0 < D -> 0 <= M -> 2 ^ 52 <= M / D ->
  -1021 <= Zdigits2 (M / D) + e <= 1023 ->
  binary_round_aux 53 1024 false (M / D) e (new_location D (M mod D))
  = round_ratio M D e.
Proof.
  intros HD HM Hq He. rewrite binary_round_aux_code; [done|lia| |done].
  apply Zdigits2_ge; [lia|done].
Qed.

(** [float64(c)] is the rounding of [c]. *)
Lemma of_int_ratio c :
  1 <= c < 2 ^ 1000 -> Float64.of_int c = round_ratio (c * 2 ^ 52) 1 (-52).
Proof.
  intros Hc. destruct c as [|p|p]; [lia| |lia].
  unfold Float64.of_int, Float64.prec, Float64.emax, binary_normalize, binary_round.
  change (Z.pos (digits2_pos p)) with (Zdigits2 (Z.pos p)).
  pose proof (Zdigits2_pos (Z.pos p) ltac:(lia)) as Hd.
  pose proof (Zdigits2_bounds (Z.pos p) ltac:(lia)) as Hb.
  pose proof (Zdigits2_lt (Z.pos p) 1000 ltac:(lia)) as Hd'.
  rewrite fexp_normal by lia. unfold shl_align.
  destruct (Z.le_gt_cases 53 (Zdigits2 (Z.pos p))) as [Hbig|Hsmall].
  - assert (Hcase : match Zdigits2 (Z.pos p) + 0 - 53 - 0 with
                    | Z.neg d => (Pos.iter xO p d, Zdigits2 (Z.pos p) + 0 - 53)
                    | _ => (p, 0)
                    end = (p, 0)).
    { destruct (Zdigits2 (Z.pos p) + 0 - 53 - 0) eqn:E; try done. lia. }
    rewrite Hcase.
    assert (2 ^ 52 <= Z.pos p).
    { pose proof (Z.pow_le_mono_r 2 52 (Zdigits2 (Z.pos p) - 1) ltac:(lia) ltac:(lia)). lia. }
    change (round_ratio (Z.pos p * 2 ^ 52) 1 (-52))
      with (round_ratio (Z.pos p * 2 ^ Z.of_nat 52) 1 (0 - Z.of_nat 52)).
    rewrite round_ratio_scale by (rewrite ?Z.div_1_r; lia).
    rewrite <- (binary_round_aux_ratio (Z.pos p) 1 0) by (rewrite ?Z.div_1_r; lia).
    rewrite Z.div_1_r, Z.mod_1_r. reflexivity.
  - destruct (Zdigits2 (Z.pos p) + 0 - 53 - 0) as [|q|q] eqn:E; [lia|lia|].
    set (d := Zdigits2 (Z.pos p)) in *.
    assert (Z.pos q = 53 - d) as Hq by lia.
    assert (HM : Z.pos (Pos.iter xO p q) = Z.pos p * 2 ^ (53 - d))
      by (rewrite iter_xO; f_equal; f_equal; lia).
    assert (2 ^ 52 <= Z.pos p * 2 ^ (53 - d) < 2 ^ 53) as Hrange.
    { assert (E52 : 2 ^ 52 = 2 ^ (d - 1) * 2 ^ (53 - d))
        by (rewrite <- Z.pow_add_r by lia; f_equal; lia).
      assert (E53 : 2 ^ 53 = 2 ^ d * 2 ^ (53 - d))
        by (rewrite <- Z.pow_add_r by lia; f_equal; lia).
      rewrite E52, E53.
      assert (0 < 2 ^ (53 - d)) by (apply Z.pow_pos_nonneg; lia).
      split.
      - apply Z.mul_le_mono_nonneg_r; lia.
      - apply Z.mul_lt_mono_pos_r; lia. }
    assert (Zdigits2 (Z.pos p * 2 ^ (53 - d)) = 53) as Hd53
      by (apply Zdigits2_unique; [exact Hrange|lia]).
    replace (Z.pos p * 2 ^ 52) with (Z.pos p * 2 ^ (53 - d) * 2 ^ Z.of_nat (Z.to_nat (d - 1))).
    2:{ rewrite Z2Nat.id by lia. rewrite <- Z.mul_assoc, <- Z.pow_add_r by lia.
        f_equal. f_equal. lia. }
    replace (-52) with (d + 0 - 53 - Z.of_nat (Z.to_nat (d - 1))) by lia.
    rewrite round_ratio_scale by (rewrite ?Z.div_1_r; lia).
    rewrite <- binary_round_aux_ratio by (rewrite ?Z.div_1_r, ?Hd53; lia).
    rewrite Z.div_1_r, Z.mod_1_r, HM. reflexivity.
Qed.

Lemma normal_mantissa m : Zdigits2 (Z.pos m) = 53 -> 2 ^ 52 <= Z.pos m < 2 ^ 53.
Proof.
  intros Hd. pose proof (Zdigits2_bounds (Z.pos m) ltac:(lia)) as Hb.
  by rewrite Hd in Hb.
Qed.

Lemma quotient_range mx my :
  2 ^ 52 <= mx < 2 ^ 53 -> 2 ^ 52 <= my < 2 ^ 53 ->
  2 ^ 52 <= mx * 2 ^ 53 / my < 2 ^ 54.
Proof.
  intros Hx Hy. split.
  - apply Z.div_le_lower_bound; lia.
  - apply Z.div_lt_upper_bound; lia.
Qed.

(** The quotient of two normal values is the rounding of their ratio. *)
Lemma div_ratio mx ex my ey :
  Zdigits2 (Z.pos mx) = 53 -> Zdigits2 (Z.pos my) = 53 ->
  -900 <= ex - ey <= 900 ->
  Float64.div (S754_finite false mx ex) (S754_finite false my ey)
  = round_ratio (Z.pos mx * 2 ^ 53) (Z.pos my) (ex - ey - 53).
Proof.
  intros Hdx Hdy He.
  pose proof (normal_mantissa mx Hdx) as Hx.
  pose proof (normal_mantissa my Hdy) as Hy.
  pose proof (quotient_range _ _ Hx Hy) as Hq.
  unfold Float64.div, Float64.prec, Float64.emax, SFdiv, SFdiv_core_binary.
  rewrite Hdx, Hdy, fexp_normal by lia.
  replace (Z.min (53 + ex - (53 + ey) - 53) (ex - ey)) with (ex - ey - 53) by lia.
  replace (ex - ey - (ex - ey - 53)) with 53 by lia.
  rewrite Z.shiftl_mul_pow2 by lia.
  rewrite div_eucl_div_mod. cbn [xorb].
  apply binary_round_aux_ratio; [lia|lia|lia|].
  pose proof (Zdigits2_ge (Z.pos mx * 2 ^ 53 / Z.pos my) 53 ltac:(lia) ltac:(lia)).
  pose proof (Zdigits2_lt (Z.pos mx * 2 ^ 53 / Z.pos my) 54 ltac:(lia)).
  lia.
Qed.

(** The product of two normal values is the rounding of the exact product. *)
Lemma mul_ratio mx ex my ey :
  Zdigits2 (Z.pos mx) = 53 -> Zdigits2 (Z.pos my) = 53 ->
  -900 <= ex + ey <= 900 ->
  Float64.mul (S754_finite false mx ex) (S754_finite false my ey)
  = round_ratio (Z.pos mx * Z.pos my) 1 (ex + ey).
Proof.
  intros Hdx Hdy He.
  pose proof (normal_mantissa mx Hdx) as Hx.
  pose proof (normal_mantissa my Hdy) as Hy.
  assert (2 ^ 104 <= Z.pos mx * Z.pos my < 2 ^ 106) as Hp.
  { change (2 ^ 104) with (2 ^ 52 * 2 ^ 52). change (2 ^ 106) with (2 ^ 53 * 2 ^ 53).
    split; [apply Z.mul_le_mono_nonneg; lia|apply Z.mul_lt_mono_nonneg; lia]. }
  unfold Float64.mul, Float64.prec, Float64.emax, SFmul. cbn [xorb].
  rewrite Pos2Z.inj_mul.
  rewrite <- (binary_round_aux_ratio (Z.pos mx * Z.pos my) 1 (ex + ey)).
  - rewrite Z.div_1_r, Z.mod_1_r. reflexivity.
  - lia.
  - lia.
  - rewrite Z.div_1_r. lia.
  - rewrite Z.div_1_r.
    pose proof (Zdigits2_ge (Z.pos mx * Z.pos my) 105 ltac:(lia) ltac:(lia)).
    pose proof (Zdigits2_lt (Z.pos mx * Z.pos my) 106 ltac:(lia)).
    lia.
Qed.

(** ** Monotonicity of the three operations *)
Lemma of_int_mono c1 c2 :
  1 <= c1 <= c2 -> c2 < 2 ^ 1000 ->
  SFleb (Float64.of_int c1) (Float64.of_int c2) = true.
Proof.
  intros Hc Hc2. rewrite !of_int_ratio by lia.
  apply round_ratio_le; rewrite ?Z.div_1_r, ?Z.sub_diag, ?Z.pow_0_r; lia.
Qed.

Lemma of_int_normal c :
  1 <= c < 2 ^ 63 -> normal (-52) 11 (Float64.of_int c).
Proof.
  intros Hc. rewrite of_int_ratio by lia.
  pose proof (round_ratio_normal (c * 2 ^ 52) 1 (-52) ltac:(lia) ltac:(lia)) as Hn.
  rewrite Z.div_1_r in Hn. specialize (Hn ltac:(lia)).
  pose proof (Zdigits2_ge (c * 2 ^ 52) 53 ltac:(lia) ltac:(lia)).
  pose proof (Zdigits2_lt (c * 2 ^ 52) 115 ltac:(change (2 ^ 115) with (2 ^ 63 * 2 ^ 52); lia)).
  destruct Hn as (m & e & -> & Hd & He). exists m, e. split; [done|]. split; [done|lia].
Qed.

Lemma normal_le_scaled m1 e1 m2 e2 :
  Zdigits2 (Z.pos m1) = 53 -> Zdigits2 (Z.pos m2) = 53 ->
  SFleb (S754_finite false m1 e1) (S754_finite false m2 e2) = true ->
  e1 <= e2 /\ Z.pos m1 <= Z.pos m2 * 2 ^ (e2 - e1).
Proof.
  intros H1 H2 Hle. apply SFleb_finite in Hle.
  pose proof (normal_mantissa m1 H1). pose proof (normal_mantissa m2 H2).
  destruct Hle as [Hlt|[-> Hm]].
  - split; [lia|].
    pose proof (Z.pow_le_mono_r 2 1 (e2 - e1) ltac:(lia) ltac:(lia)) as Hp.
    change (2 ^ 1) with 2 in Hp. nia.
  - split; [lia|]. rewrite Z.sub_diag, Z.pow_0_r. lia.
Qed.

Lemma div_mono x1 x2 y :
  normal (-100) 100 x1 -> normal (-100) 100 x2 -> normal (-100) 100 y ->
  SFleb x1 x2 = true ->
  SFleb (Float64.div x1 y) (Float64.div x2 y) = true.
Proof.
  intros (m1 & e1 & -> & Hd1 & He1) (m2 & e2 & -> & Hd2 & He2)
    (my & ey & -> & Hdy & Hey) Hle.
  rewrite !div_ratio by (done || lia).
  destruct (normal_le_scaled _ _ _ _ Hd1 Hd2 Hle) as [He Hm].
  pose proof (normal_mantissa m1 Hd1). pose proof (normal_mantissa m2 Hd2).
  pose proof (normal_mantissa my Hdy) as Hy.
  apply round_ratio_le; try lia.
  - by apply quotient_range.
  - by apply quotient_range.
  - replace (e2 - ey - 53 - (e1 - ey - 53)) with (e2 - e1) by lia.
    assert (0 < 2 ^ (e2 - e1)) by (apply Z.pow_pos_nonneg; lia). nia.
Qed.

Lemma div_normal x y :
  normal (-100) 100 x -> normal (-100) 100 y ->
  normal (-253) 149 (Float64.div x y).
Proof.
  intros (mx & ex & -> & Hdx & Hex) (my & ey & -> & Hdy & Hey).
  rewrite div_ratio by (done || lia).
  pose proof (normal_mantissa mx Hdx) as Hx. pose proof (normal_mantissa my Hdy) as Hy.
  pose proof (quotient_range _ _ Hx Hy) as Hq.
  destruct (round_ratio_normal (Z.pos mx * 2 ^ 53) (Z.pos my) (ex - ey - 53)
              ltac:(lia) ltac:(lia) ltac:(lia)) as (m & e & -> & Hd & He).
  pose proof (Zdigits2_ge (Z.pos mx * 2 ^ 53 / Z.pos my) 53 ltac:(lia) ltac:(lia)).
  pose proof (Zdigits2_lt (Z.pos mx * 2 ^ 53 / Z.pos my) 54 ltac:(lia)).
  exists m, e. split; [done|]. split; [done|lia].
Qed.

Lemma mul_mono x1 x2 y :
  normal (-300) 300 x1 -> normal (-300) 300 x2 -> normal (-100) 100 y ->
  SFleb x1 x2 = true ->
  SFleb (Float64.mul x1 y) (Float64.mul x2 y) = true.
Proof.
  intros (m1 & e1 & -> & Hd1 & He1) (m2 & e2 & -> & Hd2 & He2)
    (my & ey & -> & Hdy & Hey) Hle.
  rewrite !mul_ratio by (done || lia).
  destruct (normal_le_scaled _ _ _ _ Hd1 Hd2 Hle) as [He Hm].
  pose proof (normal_mantissa m1 Hd1). pose proof (normal_mantissa m2 Hd2).
  pose proof (normal_mantissa my Hdy) as Hy.
  assert (forall m, 2 ^ 52 <= m -> 2 ^ 52 <= m * Z.pos my) as Hprod.
  { intros m Hm'. replace (2 ^ 52) with (2 ^ 52 * 1) at 1 by lia.
    apply Z.mul_le_mono_nonneg; lia. }
  apply round_ratio_le; rewrite ?Z.div_1_r; try lia; try (apply Hprod; lia).
  replace (e2 + ey - (e1 + ey)) with (e2 - e1) by lia.
  replace (Z.pos m2 * Z.pos my * 2 ^ (e2 - e1))
    with (Z.pos m2 * 2 ^ (e2 - e1) * Z.pos my) by ring.
  apply Z.mul_le_mono_nonneg_r; lia.
Qed.

(** ** The percentage *)

Lemma hundred_value :
  Float64.of_int 100 = S754_finite false 7036874417766400 (-46).
Proof. reflexivity. Qed.

Lemma hundred_normal : normal (-100) 100 (Float64.of_int 100).
Proof.
  rewrite hundred_value. eexists _, _. split; [done|]. split; [reflexivity|lia].
Qed.

(** [x / x] is exactly 1. *)
Lemma div_self x : normal (-100) 100 x -> Float64.div x x = Float64.of_int 1.
Proof.
  intros (m & e & -> & Hd & He). rewrite div_ratio by (done || lia).
  unfold round_ratio, quot_code.
  rewrite (Z.mul_comm (Z.pos m) (2 ^ 53)), Z.div_mul, Z.mod_mul by lia.
  rewrite rem_code_spec by lia.
  replace (e - e - 53) with (-53) by lia.
  reflexivity.
Qed.

Lemma mul_normal x y :
  normal (-300) 300 x -> normal (-100) 100 y ->
  normal (-348) 454 (Float64.mul x y).
Proof.
  intros (mx & ex & -> & Hdx & Hex) (my & ey & -> & Hdy & Hey).
  rewrite mul_ratio by (done || lia).
  pose proof (normal_mantissa mx Hdx) as Hx. pose proof (normal_mantissa my Hdy) as Hy.
  assert (2 ^ 104 <= Z.pos mx * Z.pos my < 2 ^ 106) as Hp.
  { change (2 ^ 104) with (2 ^ 52 * 2 ^ 52). change (2 ^ 106) with (2 ^ 53 * 2 ^ 53).
    split; [apply Z.mul_le_mono_nonneg; lia|apply Z.mul_lt_mono_nonneg; lia]. }
  pose proof (round_ratio_normal (Z.pos mx * Z.pos my) 1 (ex + ey)
                ltac:(lia) ltac:(lia)) as Hn.
  rewrite Z.div_1_r in Hn. destruct Hn as (m & e & -> & Hd & He); [lia|].
  pose proof (Zdigits2_ge (Z.pos mx * Z.pos my) 105 ltac:(lia) ltac:(lia)).
  pose proof (Zdigits2_lt (Z.pos mx * Z.pos my) 106 ltac:(lia)).
  exists m, e. split; [done|]. split; [done|lia].
Qed.

Lemma normal_weaken lo hi lo' hi' x :
  lo' <= lo -> hi <= hi' -> normal lo hi x -> normal lo' hi' x.
Proof.
  intros Hlo Hhi (m & e & -> & Hd & He). exists m, e. split; [done|]. split; [done|lia].
Qed.

Section Percentage.

Variables n : Z.
Hypothesis Hn : 1 <= n <= GoInt.max_int.

Lemma count_normal c : 1 <= c <= n -> normal (-100) 100 (Float64.of_int c).
Proof.
  intros Hc. apply (normal_weaken (-52) 11); [lia|lia|].
  apply of_int_normal. unfold GoInt.max_int in Hn. lia.
Qed.

Lemma quotient_normal c :
  1 <= c <= n ->
  normal (-300) 300 (Float64.div (Float64.of_int c) (Float64.of_int n)).
Proof.
  intros Hc. apply (normal_weaken (-253) 149); [lia|lia|].
  apply div_normal; apply count_normal; lia.
Qed.

Lemma currProgress_normal c :
  1 <= c <= n -> normal (-348) 454 (currProgress n c).
Proof.
  intros Hc. apply mul_normal; [by apply quotient_normal|apply hundred_normal].
Qed.

Lemma currProgress_mono c1 c2 :
  1 <= c1 <= c2 -> c2 <= n ->
  Float64.leb (currProgress n c1) (currProgress n c2) = true.
Proof.
  intros Hc1 Hc2. unfold Float64.leb, currProgress.
  apply mul_mono; [apply quotient_normal; lia..|apply hundred_normal|].
  apply div_mono; [apply count_normal; lia..|].
  apply of_int_mono; [lia|]. unfold GoInt.max_int in Hn. lia.
Qed.

Lemma currProgress_full : currProgress n n = Float64.of_int 100.
Proof.
  unfold currProgress. rewrite div_self by (apply count_normal; lia). reflexivity.
Qed.

Lemma currProgress_le_hundred c :
  1 <= c <= n -> Float64.leb (currProgress n c) (Float64.of_int 100) = true.
Proof.
  intros Hc. rewrite <- currProgress_full. apply currProgress_mono; lia.
Qed.

End Percentage.

(** A value between 0 and 100 truncates to a column count in 0..100. *)
Lemma to_int_percent x :
  normal (-348) 454 x ->
  Float64.leb x (Float64.of_int 100) = true ->
  0 <= Float64.to_int x <= 100.
Proof.
  intros (m & e & -> & Hd & He) Hle. rewrite hundred_value in Hle.
  apply SFleb_finite in Hle. pose proof (normal_mantissa m Hd) as Hm.
  assert (e < 0) as Hneg by lia.
  assert (0 <= Z.pos m / 2 ^ (- e) <= 100) as Ha.
  { assert (0 < 2 ^ (- e)) by (apply Z.pow_pos_nonneg; lia).
    split; [apply Z.div_pos; lia|].
    apply Z.div_le_upper_bound; [done|].
    destruct Hle as [Hlt|[-> Hle]].
    - pose proof (Z.pow_le_mono_r 2 47 (- e) ltac:(lia) ltac:(lia)). lia.
    - change (- -46) with 46. lia. }
  unfold Float64.to_int. destruct (Z.leb_spec 0 e); [lia|]. cbv zeta.
  unfold GoInt.min_int, GoInt.max_int.
  destruct (Z.leb_spec (- 2 ^ 63) (Z.pos m / 2 ^ (- e))),
    (Z.leb_spec (Z.pos m / 2 ^ (- e)) (2 ^ 63 - 1)); cbn [andb]; lia.
Qed.

(** ** The progress loop *)

Lemma string_length_app (a b : string) :
  String.length (a +:+ b) = (String.length a + String.length b)%nat.
Proof. induction a as [|c a IH]; [done|]. simpl. by rewrite IH. Qed.

Lemma repeat_string_length (k : nat) (c : ascii) :
  String.length (repeat_string k (String c "")) = k.
Proof.
  induction k as [|k IH]; [done|]. cbn [repeat_string].
  by rewrite string_length_app, IH.
Qed.

Lemma bar_of_length (p : spec_float) :
  0 <= Float64.to_int p <= 100 -> String.length (bar_of p) = 100%nat.
Proof.
  intros Ht. unfold bar_of.
  rewrite string_length_app, !repeat_string_length. lia.
Qed.

Lemma framed_lookup {A} (a z : A) (L : list A) (i : nat) (s : A) :
  (a :: L ++ [z]) !! i = Some s
  <-> (i = 0%nat /\ s = a)
      \/ (exists j, i = S j /\ L !! j = Some s)
      \/ (i = S (length L) /\ s = z).
Proof.
  destruct i as [|i]; simpl.
  - split; [intros [= <-]; by left|].
    intros [[_ ->]|[(j & ? & _)|[? _]]]; done.
  - destruct (decide (i < length L)%nat) as [Hlt|Hge].
    + rewrite lookup_app_l by done. split.
      * intros Hs. right; left. by exists i.
      * intros [[? _]|[(j & [= ->] & Hj)|[? _]]]; [done|done|lia].
    + rewrite lookup_app_r by lia.
      destruct (i - length L)%nat as [|j] eqn:Ej; simpl.
      * split; [intros [= <-]; right; right; split; [f_equal; lia|done]|].
        intros [[? _]|[(j & [= ->] & Hj)|[_ ->]]]; [done| |done].
        apply lookup_lt_Some in Hj. lia.
      * split; [done|].
        intros [[? _]|[(j' & [= ->] & Hj)|[? _]]]; [done| |lia].
        apply lookup_lt_Some in Hj. lia.
Qed.

Section Progress.

Variables n : Z.
Hypothesis Hn : 1 <= n <= GoInt.max_int.

Lemma columns_in_range c :
  1 <= c <= n -> 0 <= Float64.to_int (currProgress n c) <= 100.
Proof.
  intros Hc. apply to_int_percent.
  - by apply currProgress_normal.
  - by apply currProgress_le_hundred.
Qed.

Lemma progress_step_ok c :
  1 <= c <= n -> progress_step n c = Done (snapshot_at n c).
Proof.
  intros Hc. pose proof (columns_in_range c Hc) as Ht.
  unfold progress_step, strings_Repeat, snapshot_at, bar_of.
  destruct (Z.ltb_spec (Float64.to_int (currProgress n c)) 0); [lia|].
  assert (GoInt.sub 100 (Float64.to_int (currProgress n c))
          = 100 - Float64.to_int (currProgress n c)) as ->
    by (unfold GoInt.sub; int_range).
  destruct (Z.ltb_spec (100 - Float64.to_int (currProgress n c)) 0); [lia|].
  reflexivity.
Qed.

End Progress.


(** The percentage is the float64 value: 29 tasks out of 100 give a value
    just below 29, and the bar shows 28 columns. *)
Example twenty_nine_of_hundred :
  currProgress 100 29 = S754_finite false 8162774324609023 (-48)
  /\ Float64.to_int (currProgress 100 29) = 28.
Proof. split; reflexivity. Qed.


(** ** Running the fetch and write path *)

Ltac io_unfold :=
  unfold mbind, IO_bind, io_bind, mret, IO_ret, io_ret, fmt_Println,
    emit, log_Fatal, go_panic in *.

Lemma new_events_app (p p' : Process) (evs : list Event) :
  trace p' = trace p ++ evs -> new_events p p' = evs.
Proof. unfold new_events. intros ->. by rewrite drop_app_length. Qed.

Lemma requests_of_app (e1 e2 : list Event) :
  requests_of (e1 ++ e2) = requests_of e1 ++ requests_of e2.
Proof. unfold requests_of. apply omap_app. Qed.

Lemma writes_of_app (e1 e2 : list Event) :
  writes_of (e1 ++ e2) = writes_of e1 ++ writes_of e2.
Proof. unfold writes_of. apply omap_app. Qed.

Lemma signals_of_app (e1 e2 : list Event) :
  signals_of (e1 ++ e2) = (signals_of e1 + signals_of e2)%nat.
Proof. unfold signals_of. by rewrite omap_app, length_app. Qed.

(** What a run that did not fail leaves behind, and what a failed one
    does. *)
Lemma save2file_ok (w : World) (name : string) (off : Z) (resp : Response)
    (p : Process) (data : list Byte.byte) :
  files p !! name = Some data ->
  save_fails w name off resp = false ->
  exists content,
    respBody resp = Some content
    /\ save2file w name off resp p
       = (Returned tt,
          mkProcess (<[name := write_at data (Z.to_nat off) content]> (files p))
                    (trace p ++ [EvOpen name; EvSeek name off;
                                 EvWrite name off content])).
Proof.
  intros Hf Hs. unfold save_fails in Hs.
  apply orb_false_iff in Hs as [Hs Hwrite].
  apply orb_false_iff in Hs as [Hs Hseek].
  apply orb_false_iff in Hs as [Hopen Hneg].
  destruct (respBody resp) as [content|] eqn:Hb; [|done].
  exists content. split; [done|].
  unfold save2file. rewrite Hf, Hopen. io_unfold. cbn.
  rewrite Hneg, Hseek. cbn. rewrite Hb, Hwrite. cbn.
  by rewrite <- !app_assoc.
Qed.

Lemma save2file_fail (w : World) (name : string) (off : Z) (resp : Response)
    (p : Process) :
  files p !! name = None \/ save_fails w name off resp = true ->
  exists evs,
    save2file w name off resp p
    = (Exited 1, mkProcess (files p) (trace p ++ evs))
    /\ requests_of evs = [] /\ writes_of evs = [] /\ signals_of evs = 0%nat.
Proof.
  intros Hfail. unfold save2file, save_fails in *. io_unfold.
  destruct (files p !! name) as [data|] eqn:Hf; [|by eexists].
  destruct Hfail as [?|Hs]; [done|].
  destruct (os_OpenFile_fails w name); [by eexists|]. cbn in *.
  destruct (off <? 0); cbn in *.
  { eexists. cbn. rewrite <- ?app_assoc. by split. }
  destruct (file_Seek_fails w name off); cbn in *.
  { eexists. cbn. rewrite <- ?app_assoc. by split. }
  destruct (respBody resp) as [content|].
  - rewrite Hs. eexists. cbn. rewrite <- ?app_assoc. by split.
  - eexists. cbn. rewrite <- ?app_assoc. by split.
Qed.

Lemma download_ok (w : World) (h : HttpDownloader) (start end_ : Z)
    (p : Process) (data : list Byte.byte) :
  files p !! filename h = Some data ->
  fetch_fails w h start end_ = false ->
  exists resp content,
    http_RoundTrip w (range_request h start end_) = Some resp
    /\ respBody resp = Some content
    /\ download w h start end_ p
       = (Returned tt,
          mkProcess (<[filename h := write_at data (Z.to_nat start) content]> (files p))
                    (trace p ++ [EvRequest (range_request h start end_);
                                 EvOpen (filename h); EvSeek (filename h) start;
                                 EvWrite (filename h) start content])).
Proof.
  intros Hf Hok. unfold fetch_fails in Hok.
  apply orb_false_iff in Hok as [Hreq Hok].
  destruct (http_RoundTrip w (range_request h start end_)) as [resp|] eqn:Hrt;
    [|done].
  destruct (save2file_ok w (filename h) start resp
              (mkProcess (files p) (trace p ++ [EvRequest (range_request h start end_)]))
              data Hf Hok) as (content & Hb & Hsave).
  exists resp, content. split; [done|]. split; [done|].
  unfold download. rewrite Hreq, Hrt. io_unfold. cbn in *.
  rewrite Hsave. by rewrite <- app_assoc.
Qed.

Lemma download_fail (w : World) (h : HttpDownloader) (start end_ : Z)
    (p : Process) :
  files p !! filename h = None \/ fetch_fails w h start end_ = true ->
  exists evs,
    download w h start end_ p
    = (Exited 1, mkProcess (files p) (trace p ++ evs))
    /\ (length (requests_of evs) <= 1)%nat
    /\ writes_of evs = [] /\ signals_of evs = 0%nat.
Proof.
  intros Hfail. unfold download, fetch_fails in *. io_unfold.
  destruct (http_NewRequest_fails w (url h)).
  { eexists. split; [done|]. cbn. auto. }
  cbn in *.
  destruct (http_RoundTrip w (range_request h start end_)) as [resp|].
  - destruct (save2file_fail w (filename h) start resp
                (mkProcess (files p) (trace p ++ [EvRequest (range_request h start end_)])))
      as (evs & -> & Hr & Hw & Hs); [done|].
    cbn. exists (EvRequest (range_request h start end_) :: evs).
    rewrite <- app_assoc. split; [done|].
    change (EvRequest (range_request h start end_) :: evs)
      with ([EvRequest (range_request h start end_)] ++ evs).
    rewrite requests_of_app, writes_of_app, signals_of_app, Hr, Hw, Hs. cbn. auto.
  - exists [EvRequest (range_request h start end_); 
            EvFatal "Failed to execute download request"].
    cbn. rewrite <- ?app_assoc. split; [done|]. cbn. auto.
Qed.

Lemma fetch_task_ok (w : World) (h : HttpDownloader) (start end_ : Z)
    (p : Process) (data : list Byte.byte) :
  files p !! filename h = Some data ->
  fetch_fails w h start end_ = false ->
  exists content,
    fetch_task w h start end_ p
    = (Returned tt,
       mkProcess (<[filename h := write_at data (Z.to_nat start) content]> (files p))
                 (trace p ++ [EvRequest (range_request h start end_);
                              EvOpen (filename h); EvSeek (filename h) start;
                              EvWrite (filename h) start content; EvSignal])).
Proof.
  intros Hf Hok.
  destruct (download_ok w h start end_ p data Hf Hok) as (resp & content & _ & _ & Hd).
  exists content. unfold fetch_task, with_defer. io_unfold. rewrite Hd. cbn.
  by rewrite <- app_assoc.
Qed.

Lemma fetch_task_fail (w : World) (h : HttpDownloader) (start end_ : Z)
    (p : Process) :
  files p !! filename h = None \/ fetch_fails w h start end_ = true ->
  exists evs,
    fetch_task w h start end_ p
    = (Exited 1, mkProcess (files p) (trace p ++ evs))
    /\ (length (requests_of evs) <= 1)%nat
    /\ writes_of evs = [] /\ signals_of evs = 0%nat.
Proof.
  intros Hfail.
  destruct (download_fail w h start end_ p Hfail) as (evs & Hd & ?).
  exists evs. unfold fetch_task, with_defer. io_unfold. by rewrite Hd.
Qed.

(** ** The single-stream path *)

Lemma write_at_empty (content : list Byte.byte) : write_at [] 0 content = content.
Proof.
  unfold write_at. destruct content as [|c content]; [done|].
  rewrite drop_nil, app_nil_r. reflexivity.
Qed.

Lemma Download_single_run (w : World) (order : list nat) (h : HttpDownloader)
    (p : Process) :
  acceptRanges h = false ->
  Download w order h p
  = if os_Create_fails w (filename h)
    then (Exited 1, mkProcess (files p) (trace p ++ [EvFatal "Failed to create file"]))
    else
      let p1 :=
        mkProcess (<[filename h := []]> (files p))
          (trace p ++ [EvCreate (filename h);
                       EvPrint "This file does not support multi-coroutine download, now download with common way...";
                       EvRequest (plain_request h)]) in
      match http_RoundTrip w (plain_request h) with
      | None => (Exited 1, mkProcess (files p1)
                             (trace p1 ++ [EvFatal "Failed to request the url"]))
      | Some resp => save2file w (filename h) 0 resp p1
      end.
Proof.
  intros Hacc. unfold Download, os_Create. rewrite Hacc. io_unfold. cbn.
  destruct (os_Create_fails w (filename h)); [done|]. cbn.
  rewrite <- !app_assoc. cbn.
  destruct (http_RoundTrip w (plain_request h)); [done|].
  cbn. by rewrite <- app_assoc.
Qed.

Lemma Download_single_stream (w : World) (order : list nat) (h : HttpDownloader)
    (p : Process) :
  acceptRanges h = false ->
  single_stream_run w h p (Download w order h p).2
  /\ ((Download w order h p).1 = Returned tt \/ (Download w order h p).1 = Exited 1)
  /\ ((Download w order h p).1 = Returned tt ->
      exists resp content,
        http_RoundTrip w (plain_request h) = Some resp
        /\ respBody resp = Some content
        /\ requests_of (new_events p (Download w order h p).2) = [plain_request h]
        /\ writes_of (new_events p (Download w order h p).2)
           = [(filename h, 0, content)]
        /\ files (Download w order h p).2 !! filename h = Some content).
Proof.
  intros Hacc. rewrite (Download_single_run w order h p Hacc).
  unfold single_stream_run.
  destruct (os_Create_fails w (filename h)).
  { cbn. rewrite (new_events_app p _ [EvFatal "Failed to create file"]) by done.
    cbn. split; [auto|]. split; [auto|]. done. }
  cbn zeta.
  set (p1 := mkProcess _ _).
  destruct (http_RoundTrip w (plain_request h)) as [resp|] eqn:Hrt.
  - destruct (save_fails w (filename h) 0 resp) eqn:Hsf.
    + destruct (save2file_fail w (filename h) 0 resp p1) as (evs & -> & Hr & Hw & _);
        [by right|].
      cbn. erewrite new_events_app; [|subst p1; cbn; by rewrite <- app_assoc].
      rewrite !requests_of_app, !writes_of_app, Hr, Hw. cbn.
      split; [auto|]. split; [auto|]. done.
    + destruct (save2file_ok w (filename h) 0 resp p1 []) as (content & Hb & ->);
        [subst p1; cbn; by rewrite lookup_insert_eq|done|].
      cbn. erewrite new_events_app; [|subst p1; cbn; by rewrite <- app_assoc].
      cbn. rewrite write_at_empty, lookup_insert_eq.
      split; [|split; [auto|]].
      * split; [auto|]. split; [done|]. right. by exists resp, content.
      * intros _. by exists resp, content.
  - cbn. erewrite new_events_app; [|subst p1; cbn; by rewrite <- app_assoc].
    cbn. split; [auto|]. split; [auto|]. done.
Qed.

Lemma Download_single_any_workers (w : World) (order order' : list nat)
    (h : HttpDownloader) (n' : Z) (p : Process) :
  acceptRanges h = false ->
  Download w order' (with_workers h n') p = Download w order h p.
Proof.
  intros Hacc.
  rewrite (Download_single_run w order h p Hacc).
  by rewrite (Download_single_run w order' (with_workers h n') p Hacc).
Qed.

Lemma Download_single_succeeds (w : World) (order : list nat)
    (h : HttpDownloader) (p : Process) (resp : Response) :
  acceptRanges h = false ->
  os_Create_fails w (filename h) = false ->
  http_RoundTrip w (plain_request h) = Some resp ->
  save_fails w (filename h) 0 resp = false ->
  (Download w order h p).1 = Returned tt.
Proof.
  intros Hacc Hc Hrt Hsf. rewrite (Download_single_run w order h p Hacc), Hc, Hrt.
  cbn zeta.
  edestruct (save2file_ok w (filename h) 0 resp) as (content & _ & ->); [|done|done].
  cbn. by rewrite lookup_insert_eq.
Qed.


(** * The goroutines of the multi-range path *)

(** ** One step of a goroutine *)

Lemma task_step_cases (w : World) (h : HttpDownloader) (start end_ : Z)
    (st : Stage) (p : Process) :
  (exists st' evs fs',
      task_step w h start end_ st p
      = (Returned st', mkProcess fs' (trace p ++ evs))
      /\ task_moves w h start end_ (files p) st st' evs fs')
  \/ (exists evs,
        task_step w h start end_ st p
        = (Exited 1, mkProcess (files p) (trace p ++ evs))
        /\ task_dies w h start end_ (files p) st evs).
Proof.
  destruct p as [fs tr]. cbn [files trace].
  destruct st as [|resp|resp|resp|content| |]; cbn [task_step]; io_unfold.
  - destruct (http_NewRequest_fails w (url h)) eqn:Hnew.
    { right. eexists. split; [reflexivity|]. by constructor. }
    cbn [trace files].
    destruct (http_RoundTrip w (range_request h start end_)) as [resp|] eqn:Hrt.
    + left. eexists _, _, _. split; [reflexivity|]. by constructor.
    + right. eexists. cbn [trace files]. rewrite <- app_assoc.
      split; [reflexivity|]. by constructor.
  - cbn [files trace].
    destruct (fs !! filename h) as [data|] eqn:Hf.
    + destruct (os_OpenFile_fails w (filename h)) eqn:Hopen.
      * right. eexists. split; [reflexivity|]. constructor. by right.
      * left. eexists _, _, _. cbn [files trace]. split; [reflexivity|].
        constructor; [by rewrite Hf|done].
    + right. eexists. split; [reflexivity|]. constructor. by left.
  - destruct (Z.ltb_spec start 0) as [Hneg|Hnn]; cbn [orb].
    { right. eexists. split; [reflexivity|]. constructor. by left. }
    destruct (file_Seek_fails w (filename h) start) eqn:Hseek.
    + right. eexists. split; [reflexivity|]. constructor. by right.
    + left. eexists _, _, _. cbn [files trace]. split; [reflexivity|].
      by constructor.
  - destruct (respBody resp) as [content|] eqn:Hb.
    + left. exists (Fetched content), [], fs. rewrite app_nil_r.
      split; [reflexivity|]. by constructor.
    + right. eexists. split; [reflexivity|]. by constructor.
  - destruct (file_Write_fails w (filename h) start content) eqn:Hwr.
    + right. eexists. split; [reflexivity|]. by constructor.
    + left. eexists _, _, _. cbn [files trace]. split; [reflexivity|].
      by constructor.
  - left. eexists _, _, _. cbn [files trace]. split; [reflexivity|].
    constructor.
  - left. exists Signalled, [], fs. rewrite app_nil_r.
    split; [reflexivity|]. constructor.
Qed.

Lemma progress_step_cases (n c : Z) :
  (exists snap, progress_step n c = Done snap)
  \/ (exists msg, progress_step n c = Panic msg).
Proof.
  unfold progress_step, strings_Repeat.
  destruct (_ <? 0); [right; by eexists|].
  destruct (_ <? 0); [right; by eexists|left; by eexists].
Qed.

Lemma tracker_step_cases (n : Z) (sent : nat) (closed : bool) (t : Tracker)
    (p : Process) :
  (exists t' evs,
      tracker_step n sent closed t p
      = (Returned t', mkProcess (files p) (trace p ++ evs))
      /\ tracker_moves n sent closed t t' evs)
  \/ (exists c msg,
        t = Counting c /\ c < Z.of_nat sent
        /\ progress_step n (GoInt.add c 1) = Panic msg
        /\ tracker_step n sent closed t p
           = (Exited 2, mkProcess (files p) (trace p ++ [EvPanic msg]))).
Proof.
  destruct p as [fs tr]. cbn [files trace].
  destruct t as [|c|]; cbn [tracker_step]; io_unfold.
  - left. eexists _, _. cbn [files trace]. split; [reflexivity|]. constructor.
  - destruct (Z.ltb_spec c (Z.of_nat sent)) as [Hlt|Hge].
    + destruct (progress_step_cases n (GoInt.add c 1)) as [[snap Hs]|[msg Hs]];
        rewrite Hs.
      * left. eexists _, _. cbn [files trace]. split; [reflexivity|].
        by constructor.
      * right. by exists c, msg.
    + destruct closed eqn:Hcl.
      * left. eexists _, _. cbn [files trace]. split; [reflexivity|].
        by constructor.
      * left. exists (Counting c), []. rewrite app_nil_r.
        split; [reflexivity|]. by constructor.
  - left. exists Ended, []. rewrite app_nil_r. split; [reflexivity|].
    constructor.
Qed.

(** ** Invariants of a run *)

Section Runs.

Variable w : World.
Variable h : HttpDownloader.
Variable ranges : list (list Z).
Variable order0 : list nat.
Variable Inv :
  list Stage -> Tracker -> gmap string (list Byte.byte) -> list Event -> Prop.
Variable Post :
  Outcome unit -> gmap string (list Byte.byte) -> list Event -> Prop.

Hypothesis Hmove :
  forall stages t fs evs k r st st' evs1 fs',
    Inv stages t fs evs -> k ∈ order0 ->
    ranges !! k = Some r -> stages !! k = Some st ->
    task_moves w h (range_start r) (range_end r) fs st st' evs1 fs' ->
    Inv (<[k := st']> stages) t fs' (evs ++ evs1).
Hypothesis Hdie :
  forall stages t fs evs k r st evs1,
    Inv stages t fs evs -> k ∈ order0 ->
    ranges !! k = Some r -> stages !! k = Some st ->
    task_dies w h (range_start r) (range_end r) fs st evs1 ->
    Post (Exited 1) fs (evs ++ evs1).
Hypothesis Htrack :
  forall stages t fs evs t' evs1,
    Inv stages t fs evs ->
    tracker_moves (numRoutines h) (signalled stages) (all_done stages) t t' evs1 ->
    Inv stages t' fs (evs ++ evs1).
Hypothesis Hpanic :
  forall stages c fs evs msg,
    Inv stages (Counting c) fs evs ->
    c < Z.of_nat (signalled stages) ->
    progress_step (numRoutines h) (GoInt.add c 1) = Panic msg ->
    Post (Exited 2) fs (evs ++ [EvPanic msg]).
Hypothesis Hend :
  forall stages t fs evs,
    Inv stages t fs evs ->
    Post (if all_done stages then Returned tt else Diverged) fs evs.

Lemma run_tasks_sound (order : list nat) :
  (forall k, k ∈ order -> k ∈ order0) ->
  forall stages t p evs,
    Inv stages t (files p) evs ->
    exists evs',
      trace (run_tasks w h ranges stages t order p).2 = trace p ++ evs'
      /\ Post (run_tasks w h ranges stages t order p).1
           (files (run_tasks w h ranges stages t order p).2) (evs ++ evs').
Proof.
  induction order as [|k order IH]; intros Hsub stages t p evs HI.
  - exists []. cbn [run_tasks]. rewrite !app_nil_r.
    pose proof (Hend _ _ _ _ HI) as HP.
    destruct (all_done stages); by split.
  - assert (Hk : k ∈ order0) by (apply Hsub; left).
    assert (Hsub' : forall k', k' ∈ order -> k' ∈ order0)
      by (intros k' Hk'; apply Hsub; by right).
    assert (Hskip : exists evs',
      trace (run_tasks w h ranges stages t order p).2 = trace p ++ evs'
      /\ Post (run_tasks w h ranges stages t order p).1
           (files (run_tasks w h ranges stages t order p).2) (evs ++ evs'))
      by (by apply IH).
    assert (Htr : exists evs',
      trace ((if (k =? length ranges)%nat
              then t' ← tracker_step (numRoutines h) (signalled stages)
                          (all_done stages) t;
                   run_tasks w h ranges stages t' order
              else run_tasks w h ranges stages t order) p).2 = trace p ++ evs'
      /\ Post ((if (k =? length ranges)%nat
                then t' ← tracker_step (numRoutines h) (signalled stages)
                            (all_done stages) t;
                     run_tasks w h ranges stages t' order
                else run_tasks w h ranges stages t order) p).1
           (files ((if (k =? length ranges)%nat
                    then t' ← tracker_step (numRoutines h) (signalled stages)
                                (all_done stages) t;
                         run_tasks w h ranges stages t' order
                    else run_tasks w h ranges stages t order) p).2)
           (evs ++ evs')).
    { destruct (k =? length ranges)%nat; [|done].
      unfold mbind, IO_bind, io_bind.
      destruct (tracker_step_cases (numRoutines h) (signalled stages)
                  (all_done stages) t p)
        as [(t' & evs1 & -> & Hm)|(c & msg & -> & Hc & Hs & ->)].
      - destruct (IH Hsub' stages t' (mkProcess (files p) (trace p ++ evs1))
                    (evs ++ evs1)) as (evs' & Htr' & HP).
        { cbn [files]. by eapply Htrack. }
        exists (evs1 ++ evs'). cbn [trace] in Htr'.
        rewrite Htr', <- !app_assoc. split; [done|].
        by rewrite <- app_assoc in HP.
      - exists [EvPanic msg]. cbn [fst snd trace files]. split; [done|].
        by eapply Hpanic. }
    cbn [run_tasks].
    destruct (ranges !! k) as [r|] eqn:Hr; [|exact Htr].
    destruct (stages !! k) as [st|] eqn:Hst; [|exact Htr].
    unfold mbind, IO_bind, io_bind.
    destruct (task_step_cases w h (range_start r) (range_end r) st p)
      as [(st' & evs1 & fs' & -> & Hm)|(evs1 & -> & Hd)].
    + destruct (IH Hsub' (<[k := st']> stages) t
                  (mkProcess fs' (trace p ++ evs1)) (evs ++ evs1))
        as (evs' & Htr' & HP).
      { cbn [files]. by eapply Hmove. }
      exists (evs1 ++ evs'). cbn [trace] in Htr'.
      rewrite Htr', <- !app_assoc. split; [done|].
      by rewrite <- app_assoc in HP.
    + exists evs1. cbn [fst snd trace files]. split; [done|].
      by eapply Hdie.
Qed.

End Runs.

(** ** Counting stages *)

Lemma count_stage_insert (f : Stage -> bool) (stages : list Stage) (k : nat)
    (st st' : Stage) :
  stages !! k = Some st ->
  (count_stage f (<[k := st']> stages) + (if f st then 1 else 0)
   = count_stage f stages + (if f st' then 1 else 0))%nat.
Proof.
  revert k. induction stages as [|s stages IH]; intros [|k] Hk; try done.
  - injection Hk as ->. simpl. destruct (f st), (f st'); lia.
  - simpl in Hk |- *. specialize (IH k Hk).
    destruct (f s), (f st), (f st'); lia.
Qed.

Lemma count_stage_replicate (f : Stage -> bool) (n : nat) (st : Stage) :
  count_stage f (replicate n st) = if f st then n else 0%nat.
Proof.
  induction n as [|n IH]; cbn; [by destruct (f st)|].
  rewrite IH. by destruct (f st).
Qed.

Lemma count_stage_mono (f g : Stage -> bool) (stages : list Stage) :
  (forall st, f st = true -> g st = true) ->
  (count_stage f stages <= count_stage g stages)%nat.
Proof.
  intros Hfg. induction stages as [|s stages IH]; cbn; [done|].
  specialize (Hfg s).
  destruct (f s), (g s); first [lia | by specialize (Hfg eq_refl)].
Qed.

Lemma count_stage_excl (f g : Stage -> bool) (stages : list Stage) :
  (forall st, f st = true -> g st = false) ->
  (count_stage f stages + count_stage g stages <= length stages)%nat.
Proof.
  intros Hfg. induction stages as [|s stages IH]; cbn; [done|].
  specialize (Hfg s).
  destruct (f s), (g s); first [lia | by specialize (Hfg eq_refl)].
Qed.

Lemma count_stage_pos (f : Stage -> bool) (stages : list Stage) (k : nat)
    (st : Stage) :
  stages !! k = Some st -> f st = true -> (1 <= count_stage f stages)%nat.
Proof.
  revert k. induction stages as [|s stages IH]; intros [|k] Hk Hf; try done.
  - injection Hk as ->. cbn. rewrite Hf. lia.
  - cbn in Hk |- *. specialize (IH k Hk Hf). lia.
Qed.

Lemma all_done_signalled (stages : list Stage) :
  all_done stages = true <-> signalled stages = length stages.
Proof.
  unfold all_done, signalled.
  induction stages as [|s stages IH]; cbn; [done|].
  pose proof (count_stage_excl is_Signalled (fun _ => false) stages
                ltac:(done)) as Hle.
  destruct (is_Signalled s); cbn; [rewrite IH; lia|].
  split; [done|lia].
Qed.

Lemma all_done_lookup (stages : list Stage) (k : nat) (st : Stage) :
  all_done stages = true -> stages !! k = Some st -> st = Signalled.
Proof.
  unfold all_done. rewrite forallb_forall. intros Hall Hk.
  apply list_elem_of_lookup_2, list_elem_of_In, Hall in Hk. by destruct st.
Qed.

Lemma signalled_lt (stages : list Stage) (k : nat) (st : Stage) :
  stages !! k = Some st -> is_Signalled st = false ->
  (signalled stages < length stages)%nat.
Proof.
  intros Hk Hst. unfold signalled.
  pose proof (count_stage_excl is_Signalled (fun s => negb (is_Signalled s))
                stages ltac:(by intros []) ) as Hle.
  pose proof (count_stage_pos (fun s => negb (is_Signalled s)) stages k st Hk
                ltac:(cbn beta; by rewrite Hst)) as Hpos.
  lia.
Qed.

Lemma snapshots_of_app (e1 e2 : list Event) :
  snapshots_of (e1 ++ e2) = snapshots_of e1 ++ snapshots_of e2.
Proof. unfold snapshots_of. apply omap_app. Qed.

(** ** What every run keeps true *)

Lemma task_moves_events (w : World) (h : HttpDownloader) (start end_ : Z)
    (fs fs' : gmap string (list Byte.byte)) (st st' : Stage) (evs : list Event) :
  task_moves w h start end_ fs st st' evs fs' ->
  snapshots_of evs = []
  /\ length (requests_of evs) = (if at_launch st then 1 else 0)%nat
  /\ requests_of evs
     = (if at_launch st then [range_request h start end_] else [])
  /\ length (writes_of evs)
     = (if before_write st && negb (before_write st') then 1 else 0)%nat
  /\ signals_of evs
     = (if negb (is_Signalled st) && is_Signalled st' then 1 else 0)%nat
  /\ (writes_of evs = [] -> fs' = fs)
  /\ (forall other, other <> filename h -> fs' !! other = fs !! other)
  /\ (is_Some (fs !! filename h) -> is_Some (fs' !! filename h))
  /\ (at_launch st' = true -> at_launch st = true)
  /\ (before_write st' = true -> before_write st = true)
  /\ (is_Signalled st = true -> is_Signalled st' = true)
  /\ steps_left st' = Nat.pred (steps_left st).
Proof.
  intros Hm. destruct Hm; cbn; repeat split; try done.
  - intros other Hne. by rewrite lookup_insert_ne.
  - intros _. rewrite lookup_insert_eq. by eexists.
Qed.

Lemma task_dies_events (w : World) (h : HttpDownloader) (start end_ : Z)
    (fs : gmap string (list Byte.byte)) (st : Stage) (evs : list Event) :
  task_dies w h start end_ fs st evs ->
  snapshots_of evs = [] /\ writes_of evs = [] /\ signals_of evs = 0%nat
  /\ before_write st = true /\ is_Signalled st = false
  /\ (requests_of evs = []
      \/ (at_launch st = true /\ requests_of evs = [range_request h start end_])).
Proof.
  intros Hd. destruct Hd; cbn; repeat split; auto.
Qed.

Lemma tracker_moves_events (n : Z) (sent : nat) (closed : bool)
    (t t' : Tracker) (evs : list Event) :
  tracker_moves n sent closed t t' evs ->
  requests_of evs = [] /\ writes_of evs = [] /\ signals_of evs = 0%nat.
Proof. intros Hm. by destruct Hm. Qed.

Section Frame.

Variable w : World.
Variable h : HttpDownloader.
Variable ranges : list (list Z).
Variable order0 : list nat.
Variable fs0 : gmap string (list Byte.byte).

Lemma run_tasks_frame (order : list nat) (stages : list Stage) (t : Tracker)
    (p : Process) :
  (forall k, k ∈ order -> k ∈ order0) ->
  files p = fs0 ->
  exists evs,
    trace (run_tasks w h ranges stages t order p).2 = trace p ++ evs
    /\ frame_inv h ranges order0 fs0 (files (run_tasks w h ranges stages t order p).2) evs.
Proof.
  intros Hsub Hfs.
  destruct (run_tasks_sound w h ranges order0
              (fun _ _ fs evs => frame_inv h ranges order0 fs0 fs evs)
              (fun _ fs evs => frame_inv h ranges order0 fs0 fs evs)) with (order := order)
              (stages := stages) (t := t) (p := p) (evs := @nil Event)
    as (evs & Htr & HP).
  - intros stages' t' fs evs k r st st' evs1 fs' (Hfr & Hnw & Hreq) Hk Hr Hst Hm.
    destruct (task_moves_events _ _ _ _ _ _ _ _ _ Hm)
      as (_ & _ & Hrq & _ & _ & Hw1 & Hfr1 & _).
    split; [|split].
    + intros other Hne. by rewrite Hfr1, Hfr.
    + rewrite writes_of_app. intros [Hw Hw']%app_eq_nil.
      by rewrite Hw1, Hnw.
    + intros req. rewrite requests_of_app, elem_of_app, Hrq.
      intros [Hin|Hin]; [by apply Hreq|].
      destruct (at_launch st); [|by apply elem_of_nil in Hin].
      apply list_elem_of_singleton in Hin as ->. by exists k, r.
  - intros stages' t' fs evs k r st evs1 (Hfr & Hnw & Hreq) Hk Hr Hst Hd.
    destruct (task_dies_events _ _ _ _ _ _ _ Hd)
      as (_ & Hw1 & _ & _ & _ & Hrq).
    split; [done|split].
    + rewrite writes_of_app. intros [Hw _]%app_eq_nil. by apply Hnw.
    + intros req. rewrite requests_of_app, elem_of_app.
      intros [Hin|Hin]; [by apply Hreq|].
      destruct Hrq as [Hrq|[_ Hrq]]; rewrite Hrq in Hin;
        [by apply elem_of_nil in Hin|].
      apply list_elem_of_singleton in Hin as ->. by exists k, r.
  - intros stages' t' fs evs t'' evs1 (Hfr & Hnw & Hreq) Hm.
    destruct (tracker_moves_events _ _ _ _ _ _ Hm) as (Hrq & Hw1 & _).
    split; [done|split].
    + rewrite writes_of_app. intros [Hw _]%app_eq_nil. by apply Hnw.
    + intros req. rewrite requests_of_app, Hrq, app_nil_r. apply Hreq.
  - intros stages' c fs evs msg (Hfr & Hnw & Hreq) _ _.
    split; [done|split].
    + rewrite writes_of_app. intros [Hw _]%app_eq_nil. by apply Hnw.
    + intros req. rewrite requests_of_app. cbn. rewrite app_nil_r. apply Hreq.
  - done.
  - done.
  - split; [by rewrite Hfs|]. split; [by rewrite Hfs|].
    by intros req ?%elem_of_nil.
  - by exists evs.
Qed.

End Frame.

(** ** Counting requests, writes and signals *)

Section Counts.

Variable w : World.
Variable h : HttpDownloader.
Variable ranges : list (list Z).

Lemma counts_inv_chain (stages : list Stage) (evs : list Event) :
  counts_inv ranges stages evs ->
  (signals_of evs <= length (writes_of evs))%nat
  /\ (length (writes_of evs) <= length (requests_of evs))%nat
  /\ (length (requests_of evs) <= length ranges)%nat.
Proof.
  intros (Hlen & Hrq & Hwr & Hsig).
  pose proof (count_stage_excl is_Signalled before_write stages
                ltac:(by intros [])) as H1.
  pose proof (count_stage_mono at_launch before_write stages
                ltac:(by intros [])) as H2.
  unfold signalled in Hsig. lia.
Qed.

Lemma run_tasks_counts (order : list nat) (p : Process) :
  exists evs,
    trace (run_tasks w h ranges (replicate (length ranges) Launched)
             Unstarted order p).2 = trace p ++ evs
    /\ counts_post ranges
         (run_tasks w h ranges (replicate (length ranges) Launched)
            Unstarted order p).1 evs.
Proof.
  destruct (run_tasks_sound w h ranges order
              (fun stages _ _ evs => counts_inv ranges stages evs)
              (fun o _ evs => counts_post ranges o evs)) with (order := order)
              (stages := replicate (length ranges) Launched) (t := Unstarted)
              (p := p) (evs := @nil Event)
    as (evs & Htr & HP).
  - intros stages t fs evs k r st st' evs1 fs' (Hlen & Hrq & Hwr & Hsig) _ Hr Hst Hm.
    destruct (task_moves_events _ _ _ _ _ _ _ _ _ Hm)
      as (_ & Hrq1 & _ & Hw1 & Hs1 & _ & _ & _ & Hal & Hbw & Hsg & _).
    pose proof (count_stage_insert at_launch stages k st st' Hst) as C1.
    pose proof (count_stage_insert before_write stages k st st' Hst) as C2.
    pose proof (count_stage_insert is_Signalled stages k st st' Hst) as C3.
    unfold counts_inv, signalled in *.
    rewrite length_insert, requests_of_app, writes_of_app, signals_of_app,
      !length_app, Hrq1, Hw1, Hs1.
    assert (at_launch st' = false) as Hal'.
    { inversion Hm; subst; done. }
    rewrite Hal' in C1.
    destruct (at_launch st), (before_write st), (before_write st'),
      (is_Signalled st), (is_Signalled st');
      cbn [andb negb] in *;
      try (specialize (Hbw eq_refl)); try (specialize (Hsg eq_refl));
      try done; lia.
  - intros stages t fs evs k r st evs1 (Hlen & Hrq & Hwr & Hsig) _ Hr Hst Hd.
    destruct (counts_inv_chain stages evs ltac:(done)) as (H1 & H2 & H3).
    destruct (task_dies_events _ _ _ _ _ _ _ Hd)
      as (_ & Hw1 & Hs1 & Hbw & Hsg & Hrq1).
    pose proof (signalled_lt stages k st Hst Hsg) as Hlt.
    unfold counts_post.
    rewrite requests_of_app, writes_of_app, signals_of_app, !length_app,
      Hw1, Hs1. cbn [length].
    destruct Hrq1 as [->|[Hal ->]]; cbn [length].
    + repeat split; try lia. done.
    + pose proof (count_stage_pos at_launch stages k st Hst Hal).
      repeat split; try lia. done.
  - intros stages t fs evs t' evs1 (Hlen & Hrq & Hwr & Hsig) Hm.
    destruct (tracker_moves_events _ _ _ _ _ _ Hm) as (Hrq1 & Hw1 & Hs1).
    unfold counts_inv.
    by rewrite requests_of_app, writes_of_app, signals_of_app, Hrq1, Hw1, Hs1,
      !app_nil_r, Nat.add_0_r.
  - intros stages c fs evs msg HI _ _.
    destruct (counts_inv_chain stages evs HI) as (H1 & H2 & H3).
    unfold counts_post.
    rewrite requests_of_app, writes_of_app, signals_of_app, !app_nil_r.
    cbn. rewrite Nat.add_0_r. repeat split; try done.
  - intros stages t fs evs HI.
    destruct (counts_inv_chain stages evs HI) as (H1 & H2 & H3).
    destruct HI as (Hlen & Hrq & Hwr & Hsig).
    repeat split; try done.
    + destruct (all_done stages) eqn:Hall; [|done]. intros _.
      apply all_done_signalled in Hall. lia.
    + by destruct (all_done stages).
  - done.
  - unfold counts_inv, signalled. rewrite length_replicate.
    rewrite !count_stage_replicate. cbn. split; [done|]. split; [lia|]. 
    split; [lia|done].
  - exists evs. by rewrite app_nil_l in HP.
Qed.

End Counts.

(** ** Tasks and the environment's answers *)

Lemma on_track_moves (w : World) (h : HttpDownloader) (start end_ : Z)
    (fs fs' : gmap string (list Byte.byte)) (st st' : Stage) (evs : list Event) :
  on_track w h start end_ st ->
  task_moves w h start end_ fs st st' evs fs' ->
  on_track w h start end_ st'.
Proof.
  intros Hon Hm. destruct Hm; cbn [on_track] in *; try done.
  - destruct Hon as (? & ?). done.
  - destruct Hon as (? & ? & ?). done.
  - destruct Hon as (? & ? & ? & ? & ?). by exists resp.
  - destruct Hon as (resp & Hnew & Hrt & Hopen & Hs & Hseek & Hb).
    unfold fetch_fails, save_fails. rewrite Hnew, Hrt, Hopen, Hseek, Hb.
    destruct (Z.ltb_spec start 0); [lia|]. done.
Qed.

Lemma on_track_dies (w : World) (h : HttpDownloader) (start end_ : Z)
    (fs : gmap string (list Byte.byte)) (st : Stage) (evs : list Event) :
  is_Some (fs !! filename h) ->
  on_track w h start end_ st ->
  task_dies w h start end_ fs st evs ->
  fetch_fails w h start end_ = true.
Proof.
  intros [data Hf] Hon Hd. unfold fetch_fails, save_fails.
  destruct Hd as [msg Hnew|msg Hnew Hrt|resp msg Hopen|resp msg Hseek
                  |resp msg Hb|content msg Hwr]; cbn [on_track] in Hon.
  - by rewrite Hnew.
  - by rewrite Hnew, Hrt.
  - destruct Hon as (-> & ->). destruct Hopen as [?| ->]; [congruence|done].
  - destruct Hon as (-> & -> & ->). cbn [orb].
    destruct Hseek as [Hneg| ->].
    + by destruct (Z.ltb_spec start 0); [|lia].
    + by rewrite orb_true_r.
  - destruct Hon as (-> & -> & -> & Hs & ->). rewrite Hb.
    by rewrite !orb_true_r.
  - destruct Hon as (resp & -> & -> & -> & Hs & -> & ->). rewrite Hwr.
    by rewrite !orb_true_r.
Qed.

Lemma tasks_on_track_start (w : World) (h : HttpDownloader)
    (ranges : list (list Z)) :
  tasks_on_track w h ranges (replicate (length ranges) Launched).
Proof.
  intros k r st _ [-> _]%lookup_replicate. done.
Qed.

Lemma tasks_on_track_insert (w : World) (h : HttpDownloader)
    (ranges : list (list Z)) (stages : list Stage) (k : nat) (r : list Z)
    (st' : Stage) :
  tasks_on_track w h ranges stages ->
  ranges !! k = Some r ->
  on_track w h (range_start r) (range_end r) st' ->
  tasks_on_track w h ranges (<[k := st']> stages).
Proof.
  intros Hall Hr Hon k' r' st'' Hr' Hst.
  apply list_lookup_insert_Some in Hst as [(-> & -> & _)|(Hne & Hst)].
  - rewrite Hr in Hr'. by injection Hr' as <-.
  - by apply (Hall k').
Qed.

(** A run that returns has met no failure, and a run that a task ended
    has met one. *)
Lemma run_tasks_outcome (w : World) (h : HttpDownloader)
    (ranges : list (list Z)) (order : list nat) (p : Process) :
  is_Some (files p !! filename h) ->
  ((run_tasks w h ranges (replicate (length ranges) Launched) Unstarted
      order p).1 = Returned tt ->
   forall k, (k < length ranges)%nat -> task_fails w h ranges k = false)
  /\ ((run_tasks w h ranges (replicate (length ranges) Launched) Unstarted
         order p).1 = Exited 1 ->
      exists k, (k < length ranges)%nat /\ task_fails w h ranges k = true).
Proof.
  intros Hfile.
  destruct (run_tasks_sound w h ranges order
              (fun stages _ fs _ =>
                 is_Some (fs !! filename h)
                 /\ length stages = length ranges
                 /\ tasks_on_track w h ranges stages)
              (fun o _ _ =>
                 (o = Returned tt ->
                  forall k, (k < length ranges)%nat ->
                            task_fails w h ranges k = false)
                 /\ (o = Exited 1 ->
                     exists k, (k < length ranges)%nat
                               /\ task_fails w h ranges k = true)))
    with (order := order) (stages := replicate (length ranges) Launched)
         (t := Unstarted) (p := p) (evs := @nil Event)
    as (evs & _ & HP).
  - intros stages t fs evs k r st st' evs1 fs' (Hf & Hlen & Hon) _ Hr Hst Hm.
    destruct (task_moves_events _ _ _ _ _ _ _ _ _ Hm)
      as (_ & _ & _ & _ & _ & _ & _ & Hf' & _).
    split; [by apply Hf'|]. split; [by rewrite length_insert|].
    eapply tasks_on_track_insert; [done|done|].
    eapply on_track_moves; [|done]. by apply (Hon k).
  - intros stages t fs evs k r st evs1 (Hf & Hlen & Hon) _ Hr Hst Hd.
    split; [done|]. intros _. exists k.
    split; [by eapply lookup_lt_Some|].
    unfold task_fails. rewrite Hr.
    eapply on_track_dies; [done| |done]. by apply (Hon k).
  - intros stages t fs evs t' evs1 HI _. exact HI.
  - intros stages c fs evs msg _ _ _. by split.
  - intros stages t fs evs (Hf & Hlen & Hon).
    destruct (all_done stages) eqn:Hall; [|by split].
    split; [|done]. intros _ k Hk.
    destruct (lookup_lt_is_Some_2 ranges k Hk) as [r Hr].
    destruct (lookup_lt_is_Some_2 stages k ltac:(lia)) as [st Hst].
    pose proof (all_done_lookup stages k st Hall Hst) as ->.
    unfold task_fails. rewrite Hr. by apply (Hon k r Signalled).
  - done.
  - split; [done|]. split; [by rewrite length_replicate|].
    apply tasks_on_track_start.
  - done.
Qed.

(** ** A schedule that gives every task its steps *)

Lemma complete_spec (order : list nat) (ranges : list (list Z)) :
  complete order ranges = true ->
  forall k, (k < length ranges)%nat ->
            (6 <= count_occ Nat.eq_dec order k)%nat.
Proof.
  unfold complete. rewrite forallb_forall. intros Hall k Hk.
  apply Nat.leb_le, Hall, in_seq. lia.
Qed.

Lemma run_tasks_ends (w : World) (h : HttpDownloader) (ranges : list (list Z))
    (order : list nat) :
  forall stages t p,
    length stages = length ranges ->
    (forall k st, stages !! k = Some st ->
                  (steps_left st <= count_occ Nat.eq_dec order k)%nat) ->
    (run_tasks w h ranges stages t order p).1 <> Diverged.
Proof.
  induction order as [|k order IH]; intros stages t p Hlen Hbudget.
  - cbn [run_tasks].
    assert (all_done stages = true) as ->; [|done].
    unfold all_done. apply forallb_forall. intros st Hin.
    apply list_elem_of_In, list_elem_of_lookup in Hin as [k Hk].
    specialize (Hbudget k st Hk). destruct st; cbn in *; first [done|lia].
  - assert (Hrest : forall k' st, k' <> k -> stages !! k' = Some st ->
              (steps_left st <= count_occ Nat.eq_dec order k')%nat).
    { intros k' st Hne Hst. specialize (Hbudget k' st Hst).
      by rewrite count_occ_cons_neq in Hbudget. }
    assert (Hidle : stages !! k = None ->
      forall t' p', (run_tasks w h ranges stages t' order p').1 <> Diverged).
    { intros Hnone t' p'. apply IH; [done|]. intros k' st Hst.
      apply Hrest; [|done]. intros ->. congruence. }
    assert (Htr : stages !! k = None ->
      ((if (k =? length ranges)%nat
        then t' ← tracker_step (numRoutines h) (signalled stages)
                    (all_done stages) t;
             run_tasks w h ranges stages t' order
        else run_tasks w h ranges stages t order) p).1 <> Diverged).
    { intros Hnone. destruct (k =? length ranges)%nat; [|by apply Hidle].
      unfold mbind, IO_bind, io_bind.
      destruct (tracker_step_cases (numRoutines h) (signalled stages)
                  (all_done stages) t p)
        as [(t' & evs1 & -> & _)|(c & msg & _ & _ & _ & ->)]; [|done].
      by apply Hidle. }
    cbn [run_tasks].
    destruct (ranges !! k) as [r|] eqn:Hr.
    2:{ apply Htr. apply lookup_ge_None. apply lookup_ge_None in Hr. lia. }
    destruct (stages !! k) as [st|] eqn:Hst; [|by apply Htr].
    unfold mbind, IO_bind, io_bind.
    destruct (task_step_cases w h (range_start r) (range_end r) st p)
      as [(st' & evs1 & fs' & -> & Hm)|(evs1 & -> & _)]; [|done].
    destruct (task_moves_events _ _ _ _ _ _ _ _ _ Hm)
      as (_ & _ & _ & _ & _ & _ & _ & _ & _ & _ & _ & Hleft).
    apply IH; [by rewrite length_insert|].
    intros k' st'' Hst'.
    apply list_lookup_insert_Some in Hst' as [(<- & <- & _)|(Hne & Hst')].
    + specialize (Hbudget k st Hst).
      rewrite count_occ_cons_eq in Hbudget by done. lia.
    + by apply Hrest.
Qed.

Lemma run_tasks_complete (w : World) (h : HttpDownloader)
    (ranges : list (list Z)) (order : list nat) (p : Process) :
  complete order ranges = true ->
  (run_tasks w h ranges (replicate (length ranges) Launched) Unstarted
     order p).1 <> Diverged.
Proof.
  intros Hc. apply run_tasks_ends; [by rewrite length_replicate|].
  intros k st [-> Hk]%lookup_replicate. cbn.
  by apply (complete_spec order ranges).
Qed.

(** ** The progress goroutine within a run *)

Section Tracking.

Variable w : World.
Variable h : HttpDownloader.
Variable ranges : list (list Z).
Local Abbreviation n := (numRoutines h).
Hypothesis Hn : 1 <= n <= GoInt.max_int.
Hypothesis Hlen : length ranges = Z.to_nat n.

Lemma tracker_count_step (stages : list Stage) (c : Z) :
  length stages = length ranges ->
  0 <= c < Z.of_nat (signalled stages) ->
  GoInt.add c 1 = c + 1
  /\ progress_step n (c + 1) = Done (snapshot_at n (c + 1)).
Proof.
  intros Hst Hc.
  pose proof (count_stage_excl is_Signalled (fun _ => false) stages
                ltac:(done)) as Hle.
  unfold signalled in Hc.
  assert (c + 1 <= n) by lia.
  split; [unfold GoInt.add; int_range|].
  apply (progress_step_ok n Hn). lia.
Qed.

Lemma tracker_inv_task (stages : list Stage) (t : Tracker) (evs evs1 : list Event)
    (k : nat) (st st' : Stage) (start end_ : Z)
    (fs fs' : gmap string (list Byte.byte)) :
  tracker_inv n stages t evs ->
  stages !! k = Some st ->
  task_moves w h start end_ fs st st' evs1 fs' ->
  tracker_inv n (<[k := st']> stages) t (evs ++ evs1).
Proof.
  intros (Hsig & Ht) Hk Hm.
  destruct (task_moves_events _ _ _ _ _ _ _ _ _ Hm)
    as (Hsn & _ & _ & _ & Hs1 & _ & _ & _ & _ & _ & Hsg & _).
  pose proof (count_stage_insert is_Signalled stages k st st' Hk) as C.
  assert (signalled (<[k := st']> stages)
          = (signalled stages + signals_of evs1)%nat) as Hnew.
  { unfold signalled. rewrite Hs1.
    destruct (is_Signalled st), (is_Signalled st'); cbn [andb negb];
      try (specialize (Hsg eq_refl)); try done; lia. }
  split.
  - rewrite signals_of_app, Hnew. lia.
  - rewrite snapshots_of_app, Hsn, app_nil_r.
    destruct t as [|c|]; [done| |].
    + destruct Ht as [Hc ->]. split; [lia|done].
    + destruct Ht as [Hall ->]. split; [|done].
      pose proof (all_done_lookup stages k st Hall Hk) as ->.
      inversion Hm; subst.
      apply all_done_signalled. rewrite length_insert.
      apply all_done_signalled in Hall. unfold signalled in *.
      cbn in C. lia.
Qed.

Lemma tracker_inv_track (stages : list Stage) (t t' : Tracker)
    (evs evs1 : list Event) :
  length stages = length ranges ->
  tracker_inv n stages t evs ->
  tracker_moves n (signalled stages) (all_done stages) t t' evs1 ->
  tracker_inv n stages t' (evs ++ evs1).
Proof.
  intros Hst (Hsig & Ht) Hm.
  destruct (tracker_moves_events _ _ _ _ _ _ Hm) as (_ & _ & Hs1).
  split; [by rewrite signals_of_app, Hs1, Nat.add_0_r|].
  rewrite snapshots_of_app.
  inversion Hm as [|c snap Hc Hstep|c Hc Hcl|c Hc Hcl|]; subst; cbn.
  - rewrite Ht. split; [lia|done].
  - destruct Ht as [Hc0 ->].
    destruct (tracker_count_step stages c Hst ltac:(lia)) as [Hadd Hok].
    rewrite Hadd in *. rewrite Hok in Hstep. injection Hstep as <-.
    split; [lia|].
    rewrite (seqZ_app 1 c 1) by lia. rewrite fmap_app.
    cbn. by rewrite (Z.add_comm 1 c).
  - destruct Ht as [Hc0 ->]. split; [done|].
    apply all_done_signalled in Hcl as Hall.
    assert (c = n) as -> by lia.
    unfold all_snapshots. by rewrite <- app_comm_cons.
  - by rewrite app_nil_r.
  - by rewrite app_nil_r.
Qed.

Lemma tracker_no_panic (stages : list Stage) (c : Z) (evs : list Event)
    (msg : string) :
  length stages = length ranges ->
  tracker_inv n stages (Counting c) evs ->
  c < Z.of_nat (signalled stages) ->
  progress_step n (GoInt.add c 1) = Panic msg ->
  False.
Proof.
  intros Hst (Hsig & Hc0 & _) Hc Hstep.
  destruct (tracker_count_step stages c Hst ltac:(lia)) as [Hadd Hok].
  rewrite Hadd in Hstep. congruence.
Qed.

Lemma tracker_inv_printed (stages : list Stage) (t : Tracker)
    (evs : list Event) :
  length stages = length ranges ->
  tracker_inv n stages t evs ->
  printed n (length ranges) evs.
Proof.
  intros Hst (Hsig & Ht). unfold printed.
  destruct t as [|c|]; [by left| |].
  - destruct Ht as [Hc ->]. right; left. exists c. split; [lia|done].
  - destruct Ht as [Hall ->]. right; right. split; [|done].
    apply all_done_signalled in Hall. lia.
Qed.

(** The progress goroutine never panics, and what it has printed when the
    run ends is an initial part of its whole output that the signals sent
    account for. *)
Lemma run_tasks_printed (order : list nat) (p : Process) :
  exists evs,
    trace (run_tasks w h ranges (replicate (length ranges) Launched)
             Unstarted order p).2 = trace p ++ evs
    /\ ((run_tasks w h ranges (replicate (length ranges) Launched)
           Unstarted order p).1 = Returned tt
        \/ (run_tasks w h ranges (replicate (length ranges) Launched)
              Unstarted order p).1 = Exited 1
        \/ (run_tasks w h ranges (replicate (length ranges) Launched)
              Unstarted order p).1 = Diverged)
    /\ printed n (length ranges) evs
    /\ (forall msg, EvPanic msg ∉ evs).
Proof.
  destruct (run_tasks_sound w h ranges order
              (fun stages t _ evs =>
                 length stages = length ranges
                 /\ tracker_inv n stages t evs
                 /\ (forall msg, EvPanic msg ∉ evs))
              (fun o _ evs =>
                 (o = Returned tt \/ o = Exited 1 \/ o = Diverged)
                 /\ printed n (length ranges) evs
                 /\ (forall msg, EvPanic msg ∉ evs)))
    with (order := order) (stages := replicate (length ranges) Launched)
         (t := Unstarted) (p := p) (evs := @nil Event)
    as (evs & Htr & HP).
  - intros stages t fs evs k r st st' evs1 fs' (Hst & Hinv & Hnp) _ Hr Hk Hm.
    split; [by rewrite length_insert|].
    split; [by eapply tracker_inv_task|].
    intros msg. rewrite elem_of_app. intros [Hin|Hin]; [by apply (Hnp msg)|].
    inversion Hm; subst; repeat (apply elem_of_cons in Hin as [Hin|Hin];
      [done|]); by apply elem_of_nil in Hin.
  - intros stages t fs evs k r st evs1 (Hst & Hinv & Hnp) _ Hr Hk Hd.
    destruct (task_dies_events _ _ _ _ _ _ _ Hd) as (Hsn & _ & Hs1 & _).
    split; [by right; left|]. split.
    + pose proof (tracker_inv_printed stages t evs Hst Hinv) as Hpr.
      unfold printed in *.
      by rewrite snapshots_of_app, signals_of_app, Hsn, Hs1, app_nil_r,
        Nat.add_0_r.
    + intros msg. rewrite elem_of_app. intros [Hin|Hin]; [by apply (Hnp msg)|].
      inversion Hd; subst; repeat (apply elem_of_cons in Hin as [Hin|Hin];
        [done|]); by apply elem_of_nil in Hin.
  - intros stages t fs evs t' evs1 (Hst & Hinv & Hnp) Hm.
    split; [done|]. split; [by apply (tracker_inv_track stages t)|].
    intros msg. rewrite elem_of_app. intros [Hin|Hin]; [by apply (Hnp msg)|].
    inversion Hm; subst; repeat (apply elem_of_cons in Hin as [Hin|Hin];
      [done|]); by apply elem_of_nil in Hin.
  - intros stages c fs evs msg (Hst & Hinv & _) Hc Hstep.
    exfalso. by eapply tracker_no_panic.
  - intros stages t fs evs (Hst & Hinv & Hnp).
    split; [destruct (all_done stages); [by left|by right; right]|].
    split; [by eapply tracker_inv_printed|done].
  - done.
  - split; [by rewrite length_replicate|]. split.
    + split; [|done]. unfold signalled.
      by rewrite count_stage_replicate.
    + by intros msg ?%elem_of_nil.
  - exists evs. by rewrite app_nil_l in HP.
Qed.


Section NoFailure.

Hypothesis Hok :
  forall k, (k < length ranges)%nat -> task_fails w h ranges k = false.



End NoFailure.

End Tracking.

(** * [Download] as a whole *)

Lemma Split_loop_length (h : HttpDownloader) (b : Z) (fuel : nat) :
  numRoutines h <= GoInt.max_int ->
  forall i acc ranges,
    0 <= i <= numRoutines h ->
    Split_loop fuel h b i acc = Some ranges ->
    length ranges = (length acc + Z.to_nat (numRoutines h - i))%nat.
Proof.
  intros Hn. induction fuel as [|fuel IH]; intros i acc ranges Hi Hrun; [done|].
  cbn [Split_loop] in Hrun.
  destruct (Z.ltb_spec i (numRoutines h)) as [Hlt|Hge].
  - assert (GoInt.add i 1 = i + 1) as E by (unfold GoInt.add; int_range).
    rewrite E in Hrun. apply IH in Hrun; [|lia].
    rewrite length_app in Hrun. cbn in Hrun. lia.
  - injection Hrun as <-. lia.
Qed.

(** [Split] returns one range for each worker, whatever the content
    length. *)
Lemma Split_length (h : HttpDownloader) (ranges : list (list Z)) :
  0 <= numRoutines h <= GoInt.max_int ->
  Split h = Done ranges ->
  1 <= numRoutines h /\ length ranges = Z.to_nat (numRoutines h).
Proof.
  intros Hn. unfold Split.
  destruct (Z.eqb_spec (numRoutines h) 0) as [|Hne]; [done|].
  destruct (Split_loop _ _ _ _ _) as [rs|] eqn:Hrun; [|done].
  intros [= <-]. split; [lia|].
  apply Split_loop_length in Hrun; [|lia|lia]. cbn in Hrun.
  by rewrite Z.sub_0_r in Hrun.
Qed.

Lemma Download_multi_run (w : World) (order : list nat) (h : HttpDownloader)
    (ranges : list (list Z)) (p : Process) :
  acceptRanges h = true ->
  0 <= numRoutines h <= max_chan_size ->
  runtime_makechan_fails w (numRoutines h) = false ->
  Split h = Done ranges ->
  os_Create_fails w (filename h) = false ->
  Download w order h p
  = run_tasks w h ranges (replicate (length ranges) Launched) Unstarted order
      (mkProcess (<[filename h := []]> (files p))
         (trace p ++ [EvCreate (filename h);
                      EvPrint "Downloading with multi goroutine..."])).
Proof.
  intros Hacc Hnn Hmk Hsplit Hc. unfold Download, os_Create, make_chan.
  rewrite Hacc, Hsplit, Hc, Hmk. io_unfold. cbn.
  destruct (Z.ltb_spec (numRoutines h) 0); [lia|].
  destruct (Z.ltb_spec max_chan_size (numRoutines h)); [lia|]. cbn.
  by rewrite <- app_assoc.
Qed.

Lemma save2file_cases (w : World) (name : string) (off : Z) (resp : Response)
    (p : Process) :
  (exists data body,
      files p !! name = Some data
      /\ respBody resp = Some body
      /\ save_fails w name off resp = false
      /\ save2file w name off resp p
         = (Returned tt,
            mkProcess (<[name := write_at data (Z.to_nat off) body]> (files p))
                      (trace p ++ [EvOpen name; EvSeek name off;
                                   EvWrite name off body])))
  \/ (exists evs,
        save2file w name off resp p
        = (Exited 1, mkProcess (files p) (trace p ++ evs))
        /\ requests_of evs = [] /\ writes_of evs = []
        /\ signals_of evs = 0%nat).
Proof.
  destruct (files p !! name) as [data|] eqn:Hf;
    [|right; apply save2file_fail; by left].
  destruct (save_fails w name off resp) eqn:Hs;
    [right; apply save2file_fail; by right|].
  left. destruct (save2file_ok w name off resp p data Hf Hs) as (body & Hb & Hrun).
  by exists data, body.
Qed.

Lemma only_touches_refl (name : string) (p : Process) : only_touches name p p.
Proof. by intros other _. Qed.

Lemma only_touches_trans (name : string) (p1 p2 p3 : Process) :
  only_touches name p1 p2 -> only_touches name p2 p3 -> only_touches name p1 p3.
Proof. intros H12 H23 other Hne. by rewrite H23, H12. Qed.

Lemma only_touches_insert (name : string) (p : Process)
    (data : list Byte.byte) (tr : list Event) :
  only_touches name p (mkProcess (<[name := data]> (files p)) tr).
Proof. intros other Hne. cbn. by rewrite lookup_insert_ne. Qed.


Lemma Download_facts (w : World) (order : list nat) (h : HttpDownloader)
    (p : Process) :
  exists evs,
    trace (Download w order h p).2 = trace p ++ evs
    /\ only_touches (filename h) p (Download w order h p).2
    /\ (os_Create_fails w (filename h) = false -> writes_of evs = [] ->
        files (Download w order h p).2 !! filename h = Some [])
    /\ (forall ranges req,
          acceptRanges h = true -> Split h = Done ranges ->
          req ∈ requests_of evs -> planned_request h ranges order req)
    /\ (acceptRanges h = true -> numRoutines h <= 0 ->
        os_Create_fails w (filename h) = false ->
        (Download w order h p).1 = Exited 2
        /\ requests_of evs = [] /\ writes_of evs = []).
Proof.
  unfold Download, os_Create, make_chan. io_unfold.
  destruct (os_Create_fails w (filename h)) eqn:Hc.
  { eexists. cbn. split; [done|]. split; [by intros other _|].
    split; [done|]. split; [|done]. by intros ranges req _ _ ?%elem_of_nil. }
  cbn. destruct (acceptRanges h) eqn:Hacc; cbn.
  - assert (Hstop : forall (code : Z) (tail : list Event),
      requests_of tail = [] -> writes_of tail = [] ->
      (numRoutines h <= 0 -> code = 2) ->
      let r := (Exited code : Outcome unit,
                mkProcess (<[filename h := []]> (files p))
                  (((trace p ++ [EvCreate (filename h)])
                    ++ [EvPrint "Downloading with multi goroutine..."]) ++ tail)) in
      exists evs,
        trace r.2 = trace p ++ evs
        /\ only_touches (filename h) p r.2
        /\ (false = false -> writes_of evs = [] ->
            files r.2 !! filename h = Some [])
        /\ (forall ranges req,
              true = true -> Split h = Done ranges ->
              req ∈ requests_of evs -> planned_request h ranges order req)
        /\ (true = true -> numRoutines h <= 0 -> false = false ->
            r.1 = Exited 2 /\ requests_of evs = [] /\ writes_of evs = [])).
    { intros code tail Htail Hwtail Hcode r. subst r. cbn [fst snd trace files].
      exists ([EvCreate (filename h);
               EvPrint "Downloading with multi goroutine..."] ++ tail).
      split; [by rewrite <- !app_assoc|].
      split; [apply only_touches_insert|].
      split; [intros _ _; apply lookup_insert_eq|].
      rewrite requests_of_app, writes_of_app, Htail, Hwtail. cbn.
      split; [by intros ranges req _ _ ?%elem_of_nil|].
      intros _ Hle _. by rewrite Hcode. }
    destruct ((numRoutines h <? 0) || (max_chan_size <? numRoutines h)
              || runtime_makechan_fails w (numRoutines h)) eqn:Hmk.
    { by apply (Hstop 2 [EvPanic "makechan: size out of range"]). }
    apply orb_false_iff in Hmk as [Hmk _].
    apply orb_false_iff in Hmk as [Hneg _]. apply Z.ltb_ge in Hneg.
    cbn.
    destruct (Split h) as [ranges|msg|] eqn:Hsplit.
    + set (p1 := mkProcess (<[filename h := []]> (files p))
                   ((trace p ++ [EvCreate (filename h)])
                    ++ [EvPrint "Downloading with multi goroutine..."])).
      destruct (run_tasks_frame w h ranges order (files p1) order
                  (replicate (length ranges) Launched) Unstarted p1
                  ltac:(done) eq_refl)
        as (evs & Htr & Hfr & Hnw & Hreq).
      exists ([EvCreate (filename h);
               EvPrint "Downloading with multi goroutine..."] ++ evs).
      split; [rewrite Htr; subst p1; cbn; by rewrite <- !app_assoc|].
      split.
      { intros other Hne. rewrite Hfr by done. subst p1. cbn.
        by rewrite lookup_insert_ne. }
      split.
      { intros _ Hw. rewrite writes_of_app in Hw. cbn in Hw.
        rewrite Hnw by done. subst p1. cbn. apply lookup_insert_eq. }
      split.
      { intros ranges' req _ [= <-] Hin. rewrite requests_of_app in Hin.
        cbn in Hin. by apply Hreq. }
      intros _ Hle _. exfalso. unfold Split in Hsplit.
      destruct (Z.eqb_spec (numRoutines h) 0); [done|lia].
    + by apply (Hstop 2 [EvPanic msg]).
    + exists [EvCreate (filename h);
              EvPrint "Downloading with multi goroutine..."].
      cbn [fst snd trace files].
      split; [by rewrite <- !app_assoc|].
      split; [apply only_touches_insert|].
      split; [intros _ _; apply lookup_insert_eq|].
      split; [intros ranges req _ _ Hin; cbn in Hin; by apply elem_of_nil in Hin|].
      intros _ Hle _. exfalso. unfold Split in Hsplit.
      destruct (Z.eqb_spec (numRoutines h) 0); [done|].
      cbn [Split_loop] in Hsplit.
      destruct (Z.ltb_spec 0 (numRoutines h)); [lia|done].
  - set (p1 := mkProcess (<[filename h := []]> (files p))
                 (((trace p ++ [EvCreate (filename h)])
                   ++ [EvPrint "This file does not support multi-coroutine download, now download with common way..."])
                  ++ [EvRequest (plain_request h)])).
    assert (Hp1 : trace p1 = trace p ++ [EvCreate (filename h);
        EvPrint "This file does not support multi-coroutine download, now download with common way...";
        EvRequest (plain_request h)])
      by (subst p1; cbn; by rewrite <- !app_assoc).
    destruct (http_RoundTrip w (plain_request h)) as [resp|].
    + destruct (save2file_cases w (filename h) 0 resp p1)
        as [(data & body & Hf & Hb & Hs & ->)|(evs & -> & Hr & Hw & _)].
      * eexists. cbn [snd fst trace files]. rewrite Hp1, <- app_assoc.
        split; [done|]. split.
        { eapply only_touches_trans; [apply (only_touches_insert _ p [] (trace p1))|].
          apply (only_touches_insert (filename h) p1). }
        split; [|done]. intros _ Hw. rewrite !writes_of_app in Hw. by cbn in Hw.
      * eexists. cbn [snd fst trace files]. rewrite Hp1, <- app_assoc.
        split; [done|].
        split; [apply (only_touches_insert _ p [])|]. split; [|done].
        intros _ _. subst p1. cbn. apply lookup_insert_eq.
    + eexists. cbn [snd fst trace files]. rewrite Hp1, <- app_assoc.
      split; [done|].
      split; [apply (only_touches_insert _ p [])|]. split; [|done].
      intros _ _. subst p1. cbn. apply lookup_insert_eq.
Qed.

Lemma range_request_headers (h : HttpDownloader) (start end_ : Z) :
  reqMethod (range_request h start end_) = "GET"
  /\ reqURL (range_request h start end_) = url h
  /\ reqHeader (range_request h start end_) !! "Range"
     = Some ["bytes=" +:+ pretty start +:+ "-" +:+ pretty end_]
  /\ reqHeader (range_request h start end_) !! "User-Agent" = Some [kUserAgent].
Proof.
  unfold range_request, header_set. cbn [reqMethod reqURL reqHeader].
  split; [done|]. split; [done|]. split.
  - rewrite lookup_insert_ne by done. apply lookup_insert_eq.
  - apply lookup_insert_eq.
Qed.

(** X1: whatever the environment does and however the tasks are scheduled,
    a download changes no file of the file system but its destination,
    and a whole run of [main] none but the file named after the last
    element of the URL's path. *)
Theorem Download_touches_one_file :
  (forall (w : World) (order : list nat) (h : HttpDownloader) (p : Process),
      only_touches (filename h) p (Download w order h p).2)
  /\ (forall (w : World) (order : list nat) (downloadUrl : string)
        (numRoutines : Z) (p : Process),
        only_touches (path_Base downloadUrl) p
          (main w order downloadUrl numRoutines p).2).
Proof.
  split.
  - intros w order h p. by destruct (Download_facts w order h p) as (evs & _ & H & _).
  - intros w order downloadUrl numRoutines p.
    unfold main, NewDownloader. io_unfold.
    destruct (url_ParseRequestURI_fails w downloadUrl); [by intros other _|].
    cbn. destruct (http_Head w downloadUrl) as [resp|]; [|by intros other _].
    cbn.
    set (h := mkHttpDownloader _ _ _ _ _).
    set (p1 := mkProcess _ _).
    destruct (Download_facts w order h p1) as (evs & _ & H & _).
    intros other Hne. by rewrite (H other Hne).
Qed.



(** X3: on the multi-range path every request the program issues is a GET
    of the downloader's URL for one of the planned ranges, carrying the
    header [Range: bytes=<start>-<end>] of that range and the fixed
    [User-Agent]; no other request is ever sent. *)
Theorem multi_range_requests (w : World) (order : list nat)
    (h : HttpDownloader) (ranges : list (list Z)) (p : Process) (req : Request) :
  acceptRanges h = true ->
  Split h = Done ranges ->
  req ∈ requests_of (new_events p (Download w order h p).2) ->
  exists (k : nat) (r : list Z),
    k ∈ order /\ ranges !! k = Some r
    /\ reqMethod req = "GET"
    /\ reqURL req = url h
    /\ reqHeader req !! "Range"
       = Some ["bytes=" +:+ pretty (range_start r) +:+ "-" +:+ pretty (range_end r)]
    /\ reqHeader req !! "User-Agent" = Some [kUserAgent].
Proof.
  intros Hacc Hsplit Hin.
  destruct (Download_facts w order h p) as (evs & Htr & _ & _ & H & _).
  rewrite (new_events_app p _ evs Htr) in Hin.
  destruct (H ranges req Hacc Hsplit Hin) as (k & r & Hk & Hr & ->).
  exists k, r. split; [done|]. split; [done|]. apply range_request_headers.
Qed.

Lemma multi_range_requests_witness :
  exists (k : nat) (r : list Z),
    k ∈ [1; 0]%nat /\ [[0; 4]; [5; 9]] !! k = Some r
    /\ reqMethod (range_request (job 10 2) 5 9) = "GET"
    /\ reqURL (range_request (job 10 2) 5 9) = url (job 10 2)
    /\ reqHeader (range_request (job 10 2) 5 9) !! "Range"
       = Some ["bytes=" +:+ pretty (range_start r) +:+ "-" +:+ pretty (range_end r)]
    /\ reqHeader (range_request (job 10 2) 5 9) !! "User-Agent" = Some [kUserAgent].
Proof.
  apply (multi_range_requests (sample_world ["bytes"]) [1; 0]%nat (job 10 2)
           [[0; 4]; [5; 9]] fresh (range_request (job 10 2) 5 9)).
  - reflexivity.
  - vm_compute. reflexivity.
  - vm_compute. left.
Defined.

(** X4: a download of a range-capable resource with a worker count of zero
    or less ends in a panic (exit status 2) right after creating the
    destination: division by zero in [Split] for zero, the channel's
    negative size below it.  No request is sent and the destination is
    left empty. *)
Theorem nonpositive_workers_panic (w : World) (order : list nat)
    (h : HttpDownloader) (p : Process) :
  acceptRanges h = true ->
  numRoutines h <= 0 ->
  os_Create_fails w (filename h) = false ->
  (Download w order h p).1 = Exited 2
  /\ requests_of (new_events p (Download w order h p).2) = []
  /\ files (Download w order h p).2 !! filename h = Some [].
Proof.
  intros Hacc Hn Hc.
  destruct (Download_facts w order h p) as (evs & Htr & _ & Hw & _ & H).
  destruct (H Hacc Hn Hc) as (Hout & Hreq & Hwr).
  rewrite (new_events_app p _ evs Htr). split; [done|]. split; [done|].
  by apply Hw.
Qed.

Lemma nonpositive_workers_panic_witness :
  (Download (sample_world ["bytes"]) [] (job 10 0) fresh).1 = Exited 2
  /\ requests_of (new_events fresh
       (Download (sample_world ["bytes"]) [] (job 10 0) fresh).2) = []
  /\ files (Download (sample_world ["bytes"]) [] (job 10 0) fresh).2
     !! filename (job 10 0) = Some [].
Proof.
  apply (nonpositive_workers_panic (sample_world ["bytes"]) [] (job 10 0) fresh).
  - reflexivity.
  - vm_compute. discriminate.
  - reflexivity.
Defined.


(** ** The whole output of the progress goroutine *)

Lemma to_int_fraction (m : positive) (e : Z) :
  e < 0 -> Z.pos m < 2 ^ 53 ->
  Float64.to_int (S754_finite false m e) = Z.pos m / 2 ^ (- e).
Proof.
  intros He Hm. unfold Float64.to_int.
  destruct (Z.leb_spec 0 e); [lia|]. cbv zeta.
  assert (0 < 2 ^ (- e)) as Hp by (apply Z.pow_pos_nonneg; lia).
  assert (0 <= Z.pos m / 2 ^ (- e) <= Z.pos m) as Ha.
  { split; [apply Z.div_pos; lia|]. apply Z.div_le_upper_bound; [done|]. nia. }
  unfold GoInt.min_int, GoInt.max_int.
  destruct (Z.leb_spec (- 2 ^ 63) (Z.pos m / 2 ^ (- e))),
    (Z.leb_spec (Z.pos m / 2 ^ (- e)) (2 ^ 63 - 1)); cbn [andb]; lia.
Qed.

(** Truncation keeps the order of percentages up to 100. *)
Lemma to_int_mono (lo hi : Z) (x y : spec_float) :
  normal lo hi x -> normal lo hi y ->
  Float64.leb x y = true ->
  Float64.leb y (Float64.of_int 100) = true ->
  Float64.to_int x <= Float64.to_int y.
Proof.
  intros (m1 & e1 & -> & Hd1 & _) (m2 & e2 & -> & Hd2 & _) Hxy Hy.
  rewrite hundred_value in Hy.
  apply SFleb_finite in Hxy. apply SFleb_finite in Hy.
  pose proof (normal_mantissa m1 Hd1) as Hm1.
  pose proof (normal_mantissa m2 Hd2) as Hm2.
  rewrite !to_int_fraction by lia.
  assert (0 < 2 ^ (- e2)) as Hp2 by (apply Z.pow_pos_nonneg; lia).
  destruct Hxy as [Hlt|[-> Hle]]; [|apply Z.div_le_mono; lia].
  replace (- e1) with ((e2 - e1) + (- e2)) by lia.
  rewrite Z.pow_add_r by lia.
  assert (2 <= 2 ^ (e2 - e1)) as Hk
    by (apply (Z.pow_le_mono_r 2 1 (e2 - e1)); lia).
  rewrite <- Z.div_div by lia.
  apply Z.div_le_mono; [done|].
  transitivity (Z.pos m1 / 2).
  - apply Z.div_le_compat_l; lia.
  - apply Z.div_le_upper_bound; lia.
Qed.

Section Snapshots.

Variable n : Z.
Hypothesis Hn : 1 <= n <= GoInt.max_int.

Lemma all_snapshots_lookup (i : nat) (s : Snapshot) :
  all_snapshots n !! i = Some s
  <-> (i = 0%nat /\ s = empty_bar)
      \/ (1 <= Z.of_nat i <= n /\ s = snapshot_at n (Z.of_nat i))
      \/ (Z.of_nat i = n + 1 /\ s = full_bar).
Proof.
  unfold all_snapshots. rewrite framed_lookup, length_fmap, length_seqZ.
  split.
  - intros [?|[(j & -> & Hj)|[-> ->]]]; [by left| |right; right; split; [lia|done]].
    right; left. rewrite list_lookup_fmap in Hj.
    destruct (seqZ 1 n !! j) as [k|] eqn:Hk; [|done].
    apply lookup_seqZ in Hk as [-> Hlt]. injection Hj as <-.
    split; [lia|]. f_equal. lia.
  - intros [?|[[Hi ->]|[Hi ->]]]; [by left| |].
    + right; left. exists (Nat.pred i). split; [lia|].
      rewrite list_lookup_fmap, lookup_seqZ_lt by lia. cbn. do 2 f_equal. lia.
    + right; right. split; [lia|done].
Qed.

Lemma all_snapshots_length : length (all_snapshots n) = S (S (Z.to_nat n)).
Proof.
  unfold all_snapshots. cbn [length].
  rewrite length_app, length_fmap, length_seqZ. cbn. lia.
Qed.


Lemma all_snapshots_bar (s : Snapshot) :
  s ∈ all_snapshots n ->
  String.length (bar s) = 100%nat
  /\ 0 <= Float64.to_int (percentage s) <= 100
  /\ bar s
     = repeat_string (Z.to_nat (Float64.to_int (percentage s))) "="
       +:+ repeat_string (Z.to_nat (100 - Float64.to_int (percentage s))) " ".
Proof.
  intros Hs. apply list_elem_of_lookup in Hs as [i Hs].
  apply all_snapshots_lookup in Hs.
  destruct Hs as [[_ ->]|[[Hi ->]|[_ ->]]].
  - split; [reflexivity|]. split; [done|reflexivity].
  - pose proof (columns_in_range n Hn (Z.of_nat i) Hi) as Ht.
    cbn [bar percentage snapshot_at].
    split; [by apply bar_of_length|]. split; [done|reflexivity].
  - split; [reflexivity|]. split; [done|reflexivity].
Qed.

Lemma all_snapshots_columns_mono (i : nat) (s t : Snapshot) :
  all_snapshots n !! i = Some s -> all_snapshots n !! S i = Some t ->
  Float64.to_int (percentage s) <= Float64.to_int (percentage t).
Proof.
  intros Hs Ht.
  pose proof (all_snapshots_bar t ltac:(by eapply list_elem_of_lookup_2))
    as (_ & Hct & _).
  pose proof (all_snapshots_bar s ltac:(by eapply list_elem_of_lookup_2))
    as (_ & Hcs & _).
  apply all_snapshots_lookup in Hs, Ht.
  destruct Hs as [[-> ->]|[[Hi ->]|[Hi ->]]].
  - change (Float64.to_int (percentage empty_bar)) with 0. lia.
  - destruct Ht as [[? _]|[[Hj ->]|[Hj ->]]]; [done| |].
    + cbn [percentage snapshot_at].
      apply (to_int_mono (-348) 454).
      * apply (currProgress_normal n Hn). lia.
      * apply (currProgress_normal n Hn). lia.
      * apply (currProgress_mono n Hn); lia.
      * apply (currProgress_le_hundred n Hn). lia.
    + change (Float64.to_int (percentage full_bar)) with 100. lia.
  - destruct Ht as [[? _]|[[Hj _]|[Hj _]]]; [done|lia|lia].
Qed.

Lemma printed_prefix (total : nat) (evs : list Event) :
  total = Z.to_nat n ->
  (signals_of evs <= total)%nat ->
  printed n total evs ->
  snapshots_of evs `prefix_of` all_snapshots n
  /\ (length (snapshots_of evs) <= signals_of evs + 2)%nat
  /\ ((signals_of evs < total)%nat ->
      (length (snapshots_of evs) <= signals_of evs + 1)%nat).
Proof.
  intros Htot Hle [->|[(c & Hc & ->)|[Hsig ->]]].
  - split; [apply prefix_nil|]. cbn. split; lia.
  - split.
    + unfold all_snapshots.
      assert (seqZ 1 n = seqZ 1 c ++ seqZ (1 + c) (n - c)) as ->.
      { rewrite <- seqZ_app by lia. f_equal. lia. }
      rewrite fmap_app, <- app_assoc, app_comm_cons. by eexists.
    + cbn [length]. rewrite length_fmap, length_seqZ. split; lia.
  - split; [done|]. rewrite all_snapshots_length. split; lia.
Qed.

End Snapshots.

(** ** The multi-range path as a whole *)

Lemma Split_done (h : HttpDownloader) :
  1 <= numRoutines h <= GoInt.max_int ->
  exists ranges,
    Split h = Done ranges /\ length ranges = Z.to_nat (numRoutines h).
Proof.
  intros Hn. destruct (Split h) as [ranges|msg|] eqn:Hsplit.
  - exists ranges. split; [done|]. by apply Split_length; [lia|].
  - unfold Split in Hsplit.
    destruct (Z.eqb_spec (numRoutines h) 0); [lia|].
    by destruct (Split_loop _ _ _ _ _).
  - by apply Split_total in Hsplit; [|lia].
Qed.

Lemma max_chan_size_int : max_chan_size < GoInt.max_int.
Proof. reflexivity. Qed.

(** A run of the multi-range path past the creation of the file and of
    the channel. *)
Lemma Download_multi_outcome (w : World) (order : list nat)
    (h : HttpDownloader) (ranges : list (list Z)) (p : Process) :
  acceptRanges h = true ->
  0 <= numRoutines h <= max_chan_size ->
  runtime_makechan_fails w (numRoutines h) = false ->
  Split h = Done ranges ->
  os_Create_fails w (filename h) = false ->
  ((Download w order h p).1 = Returned tt
   \/ (Download w order h p).1 = Exited 1
   \/ (Download w order h p).1 = Diverged)
  /\ ((Download w order h p).1 = Returned tt ->
      forall k, (k < length ranges)%nat -> task_fails w h ranges k = false)
  /\ ((Download w order h p).1 = Exited 1 ->
      exists k, (k < length ranges)%nat /\ task_fails w h ranges k = true)
  /\ (complete order ranges = true -> (Download w order h p).1 <> Diverged)
  /\ counts_post ranges (Download w order h p).1
       (new_events p (Download w order h p).2).
Proof.
  intros Hacc Hn Hmk Hsplit Hc.
  pose proof max_chan_size_int as Hint.
  destruct (Split_length h ranges ltac:(lia) Hsplit) as [Hn1 Hlen].
  rewrite (Download_multi_run w order h ranges p Hacc Hn Hmk Hsplit Hc).
  set (p1 := mkProcess _ _).
  destruct (run_tasks_printed w h ranges ltac:(lia) Hlen order p1)
    as (evs1 & _ & Hno2 & _).
  destruct (run_tasks_outcome w h ranges order p1) as [Hret Hex].
  { subst p1. cbn. rewrite lookup_insert_eq. by eexists. }
  destruct (run_tasks_counts w h ranges order p1) as (evs & Htr & Hcnt).
  split; [done|]. split; [done|]. split; [done|].
  split; [intros Hcomp; by apply run_tasks_complete|].
  erewrite new_events_app; [|rewrite Htr; subst p1; cbn; by rewrite <- app_assoc].
  unfold counts_post in *.
  by rewrite requests_of_app, writes_of_app, signals_of_app.
Qed.


(** What the progress goroutine has printed in any run of [Download], and
    the only panic such a run can meet. *)
Lemma Download_printed (w : World) (order : list nat) (h : HttpDownloader)
    (p : Process) :
  acceptRanges h = true ->
  1 <= numRoutines h <= GoInt.max_int ->
  exists evs,
    trace (Download w order h p).2 = trace p ++ evs
    /\ printed (numRoutines h) (Z.to_nat (numRoutines h)) evs
    /\ (signals_of evs <= Z.to_nat (numRoutines h))%nat
    /\ ((Download w order h p).1 = Exited 2 ->
        (max_chan_size < numRoutines h
         \/ runtime_makechan_fails w (numRoutines h) = true)
        /\ snapshots_of evs = [])
    /\ (forall msg, EvPanic msg ∈ evs ->
          msg = "makechan: size out of range").
Proof.
  intros Hacc Hn.
  destruct (Split_done h Hn) as (ranges & Hsplit & Hlen).
  destruct (os_Create_fails w (filename h)) eqn:Hc.
  { unfold Download, os_Create. rewrite Hc. io_unfold. cbn.
    exists [EvFatal "Failed to create file"]. split; [done|].
    split; [by left|]. split; [cbn; lia|]. split; [done|].
    intros msg Hin. apply list_elem_of_singleton in Hin. done. }
  destruct ((max_chan_size <? numRoutines h)
            || runtime_makechan_fails w (numRoutines h)) eqn:Hmk.
  { unfold Download, os_Create, make_chan. rewrite Hc, Hacc. io_unfold.
    rewrite <- orb_assoc, Hmk, orb_true_r. cbn.
    exists [EvCreate (filename h); EvPrint "Downloading with multi goroutine...";
            EvPanic "makechan: size out of range"].
    split; [by rewrite <- !app_assoc|].
    split; [by left|]. split; [cbn; lia|]. split.
    { intros _. split; [|done].
      apply orb_true_iff in Hmk as [Hmk|Hmk]; [left|by right].
      by apply Z.ltb_lt. }
    intros msg Hin.
    repeat (apply elem_of_cons in Hin as [Hin|Hin]; [by try injection Hin as ->|]).
    by apply elem_of_nil in Hin. }
  apply orb_false_iff in Hmk as [Hlim Hmk]. apply Z.ltb_ge in Hlim.
  rewrite (Download_multi_run w order h ranges p Hacc ltac:(lia) Hmk Hsplit Hc).
  set (p1 := mkProcess _ _).
  destruct (run_tasks_printed w h ranges Hn Hlen order p1)
    as (evs & Htr & Hno2 & Hpr & Hnp).
  destruct (run_tasks_counts w h ranges order p1) as (evs' & Htr' & Hcnt).
  assert (evs' = evs) as -> by (rewrite Htr in Htr'; by apply app_inv_head in Htr').
  destruct Hcnt as (H1 & H2 & H3 & _).
  exists ([EvCreate (filename h);
           EvPrint "Downloading with multi goroutine..."] ++ evs).
  split; [rewrite Htr; subst p1; cbn; by rewrite <- app_assoc|].
  split.
  { unfold printed in *. rewrite snapshots_of_app, signals_of_app, <- Hlen.
    exact Hpr. }
  split; [rewrite signals_of_app; cbn; lia|].
  split; [intros E; destruct Hno2 as [?|[?|?]]; congruence|].
  intros msg Hin. apply elem_of_app in Hin as [Hin|Hin].
  - repeat (apply elem_of_cons in Hin as [Hin|Hin]; [done|]).
    by apply elem_of_nil in Hin.
  - by apply Hnp in Hin.
Qed.

(** ** A task on its own *)

(** The six steps of a task, run with nothing in between, are
    [fetch_task]. *)
Lemma task_steps_fetch_task (w : World) (h : HttpDownloader) (start end_ : Z)
    (p : Process) :
  (task_steps 6 w h start end_ Launched p).2 = (fetch_task w h start end_ p).2
  /\ match (task_steps 6 w h start end_ Launched p).1 with
     | Returned st =>
         st = Signalled /\ (fetch_task w h start end_ p).1 = Returned tt
     | Exited code => (fetch_task w h start end_ p).1 = Exited code
     | Diverged => False
     end.
Proof.
  destruct p as [fs tr].
  unfold fetch_task, with_defer, download, save2file.
  cbn [task_steps task_step]. io_unfold.
  destruct (http_NewRequest_fails w (url h));
    [cbn; split; reflexivity|]. cbn.
  destruct (http_RoundTrip w (range_request h start end_)) as [resp|];
    [|cbn; split; reflexivity].
  cbn. io_unfold. cbn. destruct (fs !! filename h) as [data|] eqn:Hf;
    [|cbn; split; reflexivity].
  destruct (os_OpenFile_fails w (filename h));
    [cbn; split; reflexivity|]. cbn. io_unfold. cbn.
  destruct ((start <? 0) || file_Seek_fails w (filename h) start);
    [cbn; split; reflexivity|].
  cbn. io_unfold. cbn.
  destruct (respBody resp) as [content|]; [|cbn; split; reflexivity].
  cbn. io_unfold. cbn.
  destruct (file_Write_fails w (filename h) start content);
    [cbn; split; reflexivity|]. cbn. io_unfold. cbn.
  rewrite Hf. cbn. split; [reflexivity|]. split; reflexivity.
Qed.

(** ** The claims on the fetch path *)

(** C7 (as amended): in the multi-range path a fetch task sends its
    completion signal only after its request, body read and file open,
    seek and write have all succeeded, whatever the status code of the
    response, and it sends at most one: in every run the signals number at
    most the completed writes, and these at most the tasks.  A run in which
    no task fails and every task gets its steps returns with exactly one
    signal per task.  A task that meets one of these failures ends the
    whole process through [log.Fatalf] before its deferred signal runs; it
    sends none, nor does any task that had not yet sent its own, so the
    count of signals stays below the number of tasks. *)
Theorem fetch_task_signals (w : World) (h : HttpDownloader) (order : list nat)
    (ranges : list (list Z)) (p : Process) :
  acceptRanges h = true ->
  0 <= numRoutines h <= max_chan_size ->
  runtime_makechan_fails w (numRoutines h) = false ->
  Split h = Done ranges ->
  os_Create_fails w (filename h) = false ->
  (forall (start end_ : Z) (q : Process),
      is_Some (files q !! filename h) ->
      if fetch_fails w h start end_
      then (fetch_task w h start end_ q).1 = Exited 1
           /\ signals_of (new_events q (fetch_task w h start end_ q).2) = 0%nat
      else (fetch_task w h start end_ q).1 = Returned tt
           /\ signals_of (new_events q (fetch_task w h start end_ q).2) = 1%nat)
  /\ (signals_of (run_events w order h p)
      <= length (writes_of (run_events w order h p)))%nat
  /\ (length (writes_of (run_events w order h p)) <= length ranges)%nat
  /\ ((Download w order h p).1 = Returned tt ->
      signals_of (run_events w order h p) = length ranges
      /\ forall k, (k < length ranges)%nat -> task_fails w h ranges k = false)
  /\ ((Download w order h p).1 = Exited 1 ->
      (signals_of (run_events w order h p) < length ranges)%nat
      /\ exists k, (k < length ranges)%nat /\ task_fails w h ranges k = true)
  /\ (complete order ranges = true ->
      (forall k, (k < length ranges)%nat -> task_fails w h ranges k = false) ->
      (Download w order h p).1 = Returned tt
      /\ signals_of (run_events w order h p) = length ranges)
  /\ (complete order ranges = true ->
      (exists k, (k < length ranges)%nat /\ task_fails w h ranges k = true) ->
      (Download w order h p).1 = Exited 1
      /\ (signals_of (run_events w order h p) < length ranges)%nat).
Proof.
  intros Hacc Hn Hmk Hsplit Hc.
  destruct (Download_multi_outcome w order h ranges p Hacc Hn Hmk Hsplit Hc)
    as (Hno2 & Hret & Hex & Hlive & Hsw & Hwr & Hrq & Hall & Hless).
  fold (run_events w order h p) in Hsw, Hwr, Hrq, Hall, Hless.
  split; [|split; [|split; [|split; [|split; [|split]]]]].
  - intros start end_ q Hfile.
    destruct (fetch_fails w h start end_) eqn:Hf.
    + destruct (fetch_task_fail w h start end_ q) as (evs & -> & _ & _ & Hs);
        [by right|].
      cbn. rewrite (new_events_app q _ evs) by done. by split.
    + destruct Hfile as [data Hdata].
      destruct (fetch_task_ok w h start end_ q data Hdata Hf) as (content & ->).
      cbn. erewrite new_events_app by done. by split.
  - done.
  - lia.
  - intros Hdone. split; [by apply Hall|by apply Hret].
  - intros Hdone. split; [by apply Hless|by apply Hex].
  - intros Hcomp Hok.
    assert ((Download w order h p).1 = Returned tt) as Hdone.
    { destruct (Download w order h p).1 as [[]|code|] eqn:Ho; [done| |].
      - destruct (decide (code = 1)) as [->|Hne].
        + destruct (Hex eq_refl) as (k & Hk & Hbad).
          rewrite (Hok k Hk) in Hbad. done.
        + destruct Hno2 as [E|[E|E]]; congruence.
      - by destruct (Hlive Hcomp). }
    split; [done|by apply Hall].
  - intros Hcomp (k & Hk & Hbad).
    assert ((Download w order h p).1 = Exited 1) as Hdone.
    { destruct (Download w order h p).1 as [[]|code|] eqn:Ho.
      - rewrite (Hret eq_refl k Hk) in Hbad. done.
      - destruct Hno2 as [E|[E|E]]; congruence.
      - by destruct (Hlive Hcomp). }
    split; [done|by apply Hless].
Qed.

Lemma fetch_task_signals_witness :
  (Download (sample_world ["bytes"]) [1; 0; 1; 0; 1; 0; 1; 0; 1; 0; 1; 0]%nat
     (job 10 2) fresh).1 = Returned tt
  /\ signals_of (run_events (sample_world ["bytes"])
                   [1; 0; 1; 0; 1; 0; 1; 0; 1; 0; 1; 0]%nat (job 10 2) fresh)
     = 2%nat.
Proof.
  refine (proj1 (proj2 (proj2 (proj2 (proj2 (proj2
            (fetch_task_signals (sample_world ["bytes"]) (job 10 2)
               [1; 0; 1; 0; 1; 0; 1; 0; 1; 0; 1; 0]%nat
               [[0; 4]; [5; 9]] fresh _ _ _ _ _)))))) _ _).
  - reflexivity.
  - vm_compute. split; discriminate.
  - reflexivity.
  - vm_compute. reflexivity.
  - reflexivity.
  - reflexivity.
  - intros [|[|k]] Hk; [vm_compute; reflexivity..|cbn in Hk; lia].
Defined.

(** C7, the claim as stated fails.  With the network down, the first task
    to run ends the process and no completion signal is ever sent.  With
    only the second half of the file out of reach, the task of the first
    half makes its request and writes its bytes, every call of its own
    succeeding; the other task then fails and ends the process before the
    first has sent its signal. *)
Lemma fetch_task_signals_counterexample :
  fetch_fails offline_world (job 10 2) 0 4 = true
  /\ (fetch_task offline_world (job 10 2) 0 4 (created "f.bin")).1 = Exited 1
  /\ signals_of (trace (fetch_task offline_world (job 10 2) 0 4 (created "f.bin")).2)
     = 0%nat
  /\ (Download offline_world [0; 1]%nat (job 10 2) fresh).1 = Exited 1
  /\ signals_of (trace (Download offline_world [0; 1]%nat (job 10 2) fresh).2)
     = 0%nat
  /\ fetch_fails half_down_world (job 10 2) 0 4 = false
  /\ (Download half_down_world [0; 0; 0; 0; 0; 1]%nat (job 10 2) fresh).1
     = Exited 1
  /\ writes_of (trace (Download half_down_world [0; 0; 0; 0; 0; 1]%nat
                         (job 10 2) fresh).2)
     = [("f.bin", 0, take 5 sample_content)]
  /\ signals_of (trace (Download half_down_world [0; 0; 0; 0; 0; 1]%nat
                          (job 10 2) fresh).2)
     = 0%nat.
Proof. vm_compute. repeat split. Qed.

(** C8: a downloader whose probe found no byte-range support takes the
    single-stream path whatever the requested worker count: it issues no
    request but one GET without a [Range] header, writes nothing but the
    whole body of that response at offset 0 of the destination file, and a
    run that completes leaves exactly that body in the file. *)
Theorem no_ranges_single_stream (w : World) (order : list nat)
    (h : HttpDownloader) (p : Process) :
  acceptRanges h = false ->
  single_stream_run w h p (Download w order h p).2
  /\ ((Download w order h p).1 = Returned tt ->
      exists resp content,
        http_RoundTrip w (plain_request h) = Some resp
        /\ respBody resp = Some content
        /\ requests_of (new_events p (Download w order h p).2) = [plain_request h]
        /\ writes_of (new_events p (Download w order h p).2)
           = [(filename h, 0, content)]
        /\ files (Download w order h p).2 !! filename h = Some content)
  /\ (forall resp,
        os_Create_fails w (filename h) = false ->
        http_RoundTrip w (plain_request h) = Some resp ->
        save_fails w (filename h) 0 resp = false ->
        (Download w order h p).1 = Returned tt)
  /\ (forall (workerCount : Z) (order' : list nat),
        Download w order' (with_workers h workerCount) p = Download w order h p).
Proof.
  intros Hacc.
  destruct (Download_single_stream w order h p Hacc) as (Hrun & _ & Hdone).
  split; [done|]. split; [done|]. split.
  - intros resp. by apply Download_single_succeeds.
  - intros n' order'. by apply Download_single_any_workers.
Qed.

Lemma no_ranges_single_stream_witness :
  acceptRanges (legacy_job 6) = false
  /\ single_stream_run (sample_world ["none"]) (legacy_job 6) fresh
       (Download (sample_world ["none"]) [] (legacy_job 6) fresh).2
  /\ (Download (sample_world ["none"]) [] (legacy_job 6) fresh).1 = Returned tt.
Proof.
  split; [reflexivity|].
  destruct (no_ranges_single_stream (sample_world ["none"]) [] (legacy_job 6)
              fresh eq_refl) as (Hrun & _ & Hok & _).
  split; [exact Hrun|].
  apply (Hok (mkResponse 200 10 {[ "Accept-Ranges" := ["none"] ]}
                (Some sample_content))); reflexivity.
Defined.

(** C9 (as amended): every per-range transport failure or body read
    failure, and every failure to build the request or to open, seek or
    write the local file, ends the whole process through [log.Fatalf]
    with status 1: a run with such a failure never returns, and once every
    task has had its steps it has ended with status 1.  Nothing is
    retried: a fetch issues at most one request and a run at most one
    request per task.  The status code of a response is never examined: a
    run in which no task meets such a failure returns normally whatever the
    status codes, and status 1 is only ever the answer to such a
    failure. *)
Theorem failures_are_fatal (w : World) (h : HttpDownloader) (order : list nat)
    (ranges : list (list Z)) (p : Process) :
  acceptRanges h = true ->
  0 <= numRoutines h <= max_chan_size ->
  runtime_makechan_fails w (numRoutines h) = false ->
  Split h = Done ranges ->
  os_Create_fails w (filename h) = false ->
  (forall (start end_ : Z) (q : Process),
      is_Some (files q !! filename h) ->
      (download w h start end_ q).1
      = (if fetch_fails w h start end_ then Exited 1 else Returned tt)
      /\ (length (requests_of (new_events q (download w h start end_ q).2)) <= 1)%nat)
  /\ ((exists k, (k < length ranges)%nat /\ task_fails w h ranges k = true) ->
      (Download w order h p).1 <> Returned tt)
  /\ (complete order ranges = true ->
      (exists k, (k < length ranges)%nat /\ task_fails w h ranges k = true) ->
      (Download w order h p).1 = Exited 1)
  /\ (complete order ranges = true ->
      (forall k, (k < length ranges)%nat -> task_fails w h ranges k = false) ->
      (Download w order h p).1 = Returned tt)
  /\ ((Download w order h p).1 = Exited 1 ->
      exists k, (k < length ranges)%nat /\ task_fails w h ranges k = true)
  /\ (length (requests_of (run_events w order h p)) <= length ranges)%nat.
Proof.
  intros Hacc Hn Hmk Hsplit Hc.
  destruct (Download_multi_outcome w order h ranges p Hacc Hn Hmk Hsplit Hc)
    as (Hno2 & Hret & Hex & Hlive & Hsw & Hwr & Hrq & Hall & Hless).
  fold (run_events w order h p) in Hsw, Hwr, Hrq, Hall, Hless.
  split; [|split; [|split; [|split; [|split]]]].
  - intros start end_ q Hfile.
    destruct (fetch_fails w h start end_) eqn:Hf.
    + destruct (download_fail w h start end_ q) as (evs & -> & Hreq & _);
        [by right|].
      cbn. by rewrite (new_events_app q _ evs).
    + destruct Hfile as [data Hdata].
      destruct (download_ok w h start end_ q data Hdata Hf)
        as (resp & content & _ & _ & ->).
      cbn. erewrite new_events_app by done. cbn. split; [done|lia].
  - intros (k & Hk & Hbad) Hdone. rewrite (Hret Hdone k Hk) in Hbad. done.
  - intros Hcomp (k & Hk & Hbad).
    destruct Hno2 as [E|[E|E]]; [|done|by destruct (Hlive Hcomp)].
    rewrite (Hret E k Hk) in Hbad. done.
  - intros Hcomp Hok.
    destruct Hno2 as [E|[E|E]]; [done| |by destruct (Hlive Hcomp)].
    destruct (Hex E) as (k & Hk & Hbad). rewrite (Hok k Hk) in Hbad. done.
  - done.
  - done.
Qed.

Lemma failures_are_fatal_witness :
  (Download offline_world [1; 0; 1; 0; 1; 0; 1; 0; 1; 0; 1; 0]%nat
     (job 10 2) fresh).1 = Exited 1.
Proof.
  refine (proj1 (proj2 (proj2
            (failures_are_fatal offline_world (job 10 2)
               [1; 0; 1; 0; 1; 0; 1; 0; 1; 0; 1; 0]%nat
               [[0; 4]; [5; 9]] fresh _ _ _ _ _))) _ _).
  - reflexivity.
  - vm_compute. split; discriminate.
  - reflexivity.
  - vm_compute. reflexivity.
  - reflexivity.
  - reflexivity.
  - exists 0%nat. split; [cbn; lia|vm_compute; reflexivity].
Defined.

(** C9, the claim as stated fails: a server that answers every ranged
    request with status 404 is not an error for the program, which writes
    the bodies of the error responses into the file and returns. *)
Lemma failures_are_fatal_counterexample :
  (StatusCode <$> http_RoundTrip not_found_world (range_request (job 10 2) 0 4))
  = Some 404
  /\ (download not_found_world (job 10 2) 0 4 (created "f.bin")).1 = Returned tt
  /\ (Download not_found_world [0; 0; 0; 0; 0; 0; 1; 1; 1; 1; 1; 1]%nat
        (job 10 2) fresh).1 = Returned tt
  /\ files (Download not_found_world [0; 0; 0; 0; 0; 0; 1; 1; 1; 1; 1; 1]%nat
              (job 10 2) fresh).2 !! "f.bin"
     = Some [Byte.x4e; Byte.x46; Byte.x00; Byte.x00; Byte.x00; Byte.x4e; Byte.x46].
Proof. vm_compute. repeat split. Qed.

(** ** The probe *)

Lemma advertises_ranges_iff (resp : Response) :
  advertises_ranges resp = true <->
  exists rest, respHeader resp !! "Accept-Ranges" = Some ("bytes" :: rest).
Proof.
  unfold advertises_ranges, header_values.
  destruct (respHeader resp !! "Accept-Ranges") as [[|v vs]|]; cbn.
  - split; [done|]. by intros [rest ?].
  - rewrite String.eqb_eq. split.
    + intros ->. by exists vs.
    + intros [rest ?]. congruence.
  - split; [done|]. by intros [rest ?].
Qed.

(** C10: the probe sets the supports-ranges flag exactly when the HEAD
    response carries at least one [Accept-Ranges] value and the first one
    is the string "bytes"; with any other first value, or none, the flag is
    false and the download takes the single-stream path: no request but
    one GET without a [Range] header, no write but the whole body of its
    response at offset 0, which is what the file holds when the download
    returns, as it does when nothing fails. *)
Theorem probe_accept_ranges (w : World) (url : string) (numThreads : Z)
    (p : Process) :
  match NewDownloader w url numThreads p with
  | (Returned h, _) =>
      exists resp,
        http_Head w url = Some resp
        /\ (acceptRanges h = true <->
            exists rest,
              respHeader resp !! "Accept-Ranges" = Some ("bytes" :: rest))
        /\ (acceptRanges h = false ->
            forall (order : list nat) (q : Process),
              single_stream_run w h q (Download w order h q).2
              /\ ((Download w order h q).1 = Returned tt ->
                  exists got content,
                    http_RoundTrip w (plain_request h) = Some got
                    /\ respBody got = Some content
                    /\ requests_of (new_events q (Download w order h q).2)
                       = [plain_request h]
                    /\ writes_of (new_events q (Download w order h q).2)
                       = [(filename h, 0, content)]
                    /\ files (Download w order h q).2 !! filename h
                       = Some content)
              /\ (forall got,
                    os_Create_fails w (filename h) = false ->
                    http_RoundTrip w (plain_request h) = Some got ->
                    save_fails w (filename h) 0 got = false ->
                    (Download w order h q).1 = Returned tt))
  | (Exited code, _) => http_Head w url = None /\ code = 1
  | (Diverged, _) => False
  end.
Proof.
  unfold NewDownloader. destruct (http_Head w url) as [resp|]; cbn; [|done].
  exists resp. split; [done|]. split; [apply advertises_ranges_iff|].
  intros Hacc order q.
  set (h := mkHttpDownloader url (path_Base url)
              (GoInt.wrap (ContentLength resp)) (advertises_ranges resp)
              numThreads) in *.
  destruct (Download_single_stream w order h q Hacc) as (Hrun & _ & Hdone).
  split; [done|]. split; [done|].
  intros got. by apply (Download_single_succeeds w order h q got).
Qed.

(** The values named in the claim. *)
Example probe_bytes :
  acceptRanges <$> (match NewDownloader (sample_world ["bytes"]) "http://example.com/f.bin" 6 fresh
                    with (Returned h, _) => Some h | _ => None end) = Some true.
Proof. reflexivity. Qed.

Example probe_none :
  acceptRanges <$> (match NewDownloader (sample_world ["none"]) "http://example.com/f.bin" 6 fresh
                    with (Returned h, _) => Some h | _ => None end) = Some false.
Proof. reflexivity. Qed.

Example probe_other_case :
  acceptRanges <$> (match NewDownloader (sample_world ["Bytes"]) "http://example.com/f.bin" 6 fresh
                    with (Returned h, _) => Some h | _ => None end) = Some false.
Proof. reflexivity. Qed.

Example probe_absent :
  acceptRanges <$> (match NewDownloader (sample_world []) "http://example.com/f.bin" 6 fresh
                    with (Returned h, _) => Some h | _ => None end) = Some false.
Proof. reflexivity. Qed.

Example probe_second_value :
  acceptRanges <$> (match NewDownloader (sample_world ["none"; "bytes"]) "http://example.com/f.bin" 6 fresh
                    with (Returned h, _) => Some h | _ => None end) = Some false.
Proof. reflexivity. Qed.


(** ** What a run prints of its progress *)

Lemma run_events_app (w : World) (order : list nat) (h : HttpDownloader)
    (p : Process) (evs : list Event) :
  trace (Download w order h p).2 = trace p ++ evs ->
  run_events w order h p = evs.
Proof. apply new_events_app. Qed.



(** A run in which the tracker gets all its steps prints the whole
    sequence, from 0 over 50 to 100. *)
Example progress_printed_in_full :
  snapshots_of
    (run_events (sample_world ["bytes"])
       [2; 0; 0; 0; 0; 0; 0; 2; 1; 1; 1; 1; 1; 1; 2; 2]%nat (job 10 2) fresh)
  = all_snapshots 2
  /\ percentage <$> all_snapshots 2
     = [Float64.zero; Float64.of_int 50; Float64.of_int 100; Float64.of_int 100].
Proof. vm_compute. split; reflexivity. Qed.


(** X11: for workerCount >= 1, in every run of the multi-range path,
    whatever the environment and the schedule: the progress goroutine
    never panics (the only panic such a run can meet is that of [make],
    before anything is printed); the first snapshot printed is the empty
    bar at 0; from one printed snapshot to the next the number of filled
    columns never goes down, and it stays between 0 and 100 on a bar of
    100 columns. *)
Theorem progress_bar_grows (w : World) (order : list nat) (h : HttpDownloader)
    (p : Process) :
  acceptRanges h = true ->
  1 <= numRoutines h <= GoInt.max_int ->
  (forall msg, EvPanic msg ∈ run_events w order h p ->
               msg = "makechan: size out of range")
  /\ ((Download w order h p).1 = Exited 2 ->
      (max_chan_size < numRoutines h
       \/ runtime_makechan_fails w (numRoutines h) = true)
      /\ snapshots_of (run_events w order h p) = [])
  /\ (forall s : Snapshot,
        snapshots_of (run_events w order h p) !! 0%nat = Some s ->
        s = empty_bar)
  /\ (forall (i : nat) (s t : Snapshot),
        snapshots_of (run_events w order h p) !! i = Some s ->
        snapshots_of (run_events w order h p) !! S i = Some t ->
        Float64.to_int (percentage s) <= Float64.to_int (percentage t))
  /\ (forall s : Snapshot,
        s ∈ snapshots_of (run_events w order h p) ->
        0 <= Float64.to_int (percentage s) <= 100
        /\ String.length (bar s) = 100%nat).
Proof.
  intros Hacc Hn.
  destruct (Download_printed w order h p Hacc Hn)
    as (evs & Htr & Hpr & Hsig & Hex2 & Hpanic).
  rewrite (run_events_app w order h p evs Htr).
  destruct (printed_prefix (numRoutines h) Hn _ evs eq_refl Hsig Hpr)
    as (Hpre & _).
  assert (Hlook : forall i s, snapshots_of evs !! i = Some s ->
            all_snapshots (numRoutines h) !! i = Some s).
  { intros i s Hs. by eapply prefix_lookup_Some. }
  split; [done|]. split; [done|]. split; [|split].
  - intros s Hs. apply Hlook in Hs. cbn in Hs. by injection Hs as <-.
  - intros i s t Hs Ht.
    eapply (all_snapshots_columns_mono (numRoutines h) Hn); by apply Hlook.
  - intros s Hs. apply list_elem_of_lookup in Hs as [i Hs].
    destruct (all_snapshots_bar (numRoutines h) Hn s) as (Hw & Hc & _);
      [|done].
    eapply list_elem_of_lookup_2. by apply Hlook.
Qed.

Lemma progress_bar_grows_witness :
  (Download (sample_world ["bytes"])
     [2; 0; 0; 0; 0; 0; 0; 2; 1; 1; 1; 1; 1; 1; 2; 2]%nat (job 10 2) fresh).1
  = Returned tt
  /\ (forall (i : nat) (s t : Snapshot),
        snapshots_of
          (run_events (sample_world ["bytes"])
             [2; 0; 0; 0; 0; 0; 0; 2; 1; 1; 1; 1; 1; 1; 2; 2]%nat
             (job 10 2) fresh) !! i = Some s ->
        snapshots_of
          (run_events (sample_world ["bytes"])
             [2; 0; 0; 0; 0; 0; 0; 2; 1; 1; 1; 1; 1; 1; 2; 2]%nat
             (job 10 2) fresh) !! S i = Some t ->
        Float64.to_int (percentage s) <= Float64.to_int (percentage t)).
Proof.
  split; [vm_compute; reflexivity|].
  apply (progress_bar_grows (sample_world ["bytes"])
           [2; 0; 0; 0; 0; 0; 0; 2; 1; 1; 1; 1; 1; 1; 2; 2]%nat
           (job 10 2) fresh).
  - reflexivity.
  - vm_compute. split; discriminate.
Defined.

(** A worker count beyond the limit of [makechan]: whatever the machine,
    the run panics before any task is launched. *)
Lemma Download_beyond_chan_limit (w : World) (order : list nat)
    (h : HttpDownloader) (p : Process) :
  acceptRanges h = true ->
  max_chan_size < numRoutines h ->
  os_Create_fails w (filename h) = false ->
  (Download w order h p).1 = Exited 2
  /\ run_events w order h p
     = [EvCreate (filename h); EvPrint "Downloading with multi goroutine...";
        EvPanic "makechan: size out of range"].
Proof.
  intros Hacc Hbig Hc. unfold run_events, Download, os_Create, make_chan.
  rewrite Hacc, Hc. io_unfold.
  destruct (Z.ltb_spec max_chan_size (numRoutines h)); [|lia].
  rewrite orb_true_r. cbn. split; [done|].
  unfold new_events. cbn. by rewrite <- !app_assoc, drop_app_length.
Qed.

Example Download_huge_worker_count :
  (Download (sample_world ["bytes"]) [0; 1]%nat (job 10 (2 ^ 48)) fresh).1
  = Exited 2.
Proof. vm_compute. reflexivity. Qed.

(** ** Positional writes *)

Lemma write_at_length (data : list Byte.byte) (off : nat) (c : list Byte.byte) :
  (length (write_at data off c) <= Nat.max (length data) (off + length c))%nat.
Proof.
  unfold write_at. destruct c as [|b c]; [lia|].
  rewrite !length_app, length_take, length_replicate, length_drop. lia.
Qed.

Lemma write_at_lookup_in (data : list Byte.byte) (off : nat)
    (c : list Byte.byte) (i : nat) :
  (off <= i < off + length c)%nat ->
  write_at data off c !! i = c !! (i - off)%nat.
Proof.
  intros Hi. unfold write_at. destruct c as [|b c]; [cbn in Hi; lia|].
  rewrite lookup_app_r by (rewrite length_take; lia).
  rewrite lookup_app_r by (rewrite length_take, length_replicate; lia).
  rewrite length_take, length_replicate.
  rewrite lookup_app_l by lia. f_equal. lia.
Qed.

Lemma write_at_lookup_before (data : list Byte.byte) (off : nat)
    (c : list Byte.byte) (i : nat) :
  (i < off)%nat -> (i < length data)%nat ->
  write_at data off c !! i = data !! i.
Proof.
  intros Hi Hlen. unfold write_at. destruct c as [|b c]; [done|].
  rewrite lookup_app_l by (rewrite length_take; lia).
  by rewrite lookup_take_lt.
Qed.

Lemma write_at_lookup_after (data : list Byte.byte) (off : nat)
    (c : list Byte.byte) (i : nat) :
  (off + length c <= i)%nat ->
  write_at data off c !! i = data !! i.
Proof.
  intros Hi. unfold write_at. destruct c as [|b c]; [done|].
  rewrite lookup_app_r by (rewrite length_take; lia).
  rewrite lookup_app_r by (rewrite length_take, length_replicate; lia).
  rewrite lookup_app_r by (rewrite length_take, length_replicate; lia).
  rewrite length_take, length_replicate, lookup_drop. f_equal. lia.
Qed.

(** A write of no bytes changes nothing, wherever it is made. *)
Lemma write_at_nothing (data : list Byte.byte) (off : nat) :
  write_at data off [] = data.
Proof. reflexivity. Qed.

Lemma byte_slice_length (content : list Byte.byte) (start end_ : Z) :
  0 <= start -> start <= end_ + 1 -> end_ + 1 <= Z.of_nat (length content) ->
  Z.of_nat (length (byte_slice content start end_)) = end_ + 1 - start.
Proof.
  intros Hs He Hl. unfold byte_slice. rewrite length_take, length_drop. lia.
Qed.

Lemma byte_slice_lookup (content : list Byte.byte) (start end_ : Z) (j : nat) :
  0 <= start -> Z.of_nat j < end_ + 1 - start ->
  byte_slice content start end_ !! j = content !! (Z.to_nat start + j)%nat.
Proof.
  intros Hs Hj. unfold byte_slice.
  rewrite lookup_take_lt by lia. by rewrite lookup_drop.
Qed.

(** ** Planned ranges lie within the resource *)

Lemma spec_range_bounds (L n k : Z) :
  0 <= L -> 1 <= n -> 0 <= k < n ->
  0 <= range_start (spec_range L n k)
  /\ range_start (spec_range L n k) <= range_end (spec_range L n k) + 1
  /\ range_end (spec_range L n k) + 1 <= L.
Proof.
  intros HL Hn Hk. rewrite spec_range_start, spec_range_end.
  destruct (block_times_count L n HL Hn) as [Hb Hbn].
  remember (Z.quot L n) as b eqn:Eb. clear Eb.
  pose proof (scaled_block_bounds L n b k Hb Hbn ltac:(lia)).
  pose proof (scaled_block_bounds L n b (k + 1) Hb Hbn ltac:(lia)).
  destruct (Z.eqb_spec k (n - 1)); lia.
Qed.

(** ** The round trip of a multi-range download *)

Lemma fill_inv_keep (h : HttpDownloader) (ranges : list (list Z))
    (content : list Byte.byte) (stages : list Stage)
    (fs : gmap string (list Byte.byte)) (k : nat) (st st' : Stage) :
  fill_inv h ranges content stages fs ->
  stages !! k = Some st ->
  (before_write st' = false -> before_write st = false) ->
  fill_inv h ranges content (<[k := st']> stages) fs.
Proof.
  intros (data & Hf & Hlen & Hinv) Hst Hbw. exists data.
  split; [done|]. split; [done|].
  intros k' r' st'' i Hr' Hst' Hw Hi.
  apply list_lookup_insert_Some in Hst' as [(<- & <- & _)|(Hne & Hst')].
  - apply (Hinv k r' st i); auto.
  - by apply (Hinv k' r' st'' i).
Qed.

Section RoundTrip.

Variable w : World.
Variable h : HttpDownloader.
Variable content : list Byte.byte.
Local Abbreviation L := (contentLength h).
Local Abbreviation n := (numRoutines h).
Local Abbreviation ranges := (spec_plan L n).

Hypothesis HL : L = Z.of_nat (length content).
Hypothesis Hn : 1 <= n.
Hypothesis Hserve : serves_ranges w h ranges content.

Lemma fill_inv_write (stages : list Stage)
    (fs : gmap string (list Byte.byte)) (k : nat) (r : list Z)
    (body : list Byte.byte) :
  fill_inv h ranges content stages fs ->
  ranges !! k = Some r ->
  stages !! k = Some (Fetched body) ->
  on_track w h (range_start r) (range_end r) (Fetched body) ->
  fill_inv h ranges content (<[k := Written]> stages)
    (<[filename h := write_at (default [] (fs !! filename h))
                       (Z.to_nat (range_start r)) body]> fs).
Proof.
  intros (data & Hf & Hlen & Hinv) Hr Hst (resp & _ & Hrt & _ & _ & _ & Hb).
  pose proof (Hserve k r resp body Hr Hrt Hb) as Hbody.
  apply spec_plan_lookup in Hr as Hr'. destruct Hr' as [Er Hkn].
  destruct (spec_range_bounds L n (Z.of_nat k) ltac:(lia) Hn ltac:(lia))
    as (Hs0 & Hse & HeL).
  rewrite <- Er in Hs0, Hse, HeL.
  pose proof (byte_slice_length content (range_start r) (range_end r)
                Hs0 Hse ltac:(lia)) as Hblen.
  rewrite <- Hbody in Hblen.
  assert (Hcov : forall i, covers r i <-> range_start r <= i <= range_end r).
  { intros i. rewrite Er. apply spec_range_covers. }
  rewrite Hf. cbn [default].
  set (data1 := write_at data (Z.to_nat (range_start r)) body).
  exists data1. split; [apply lookup_insert_eq|]. split.
  { subst data1.
    pose proof (write_at_length data (Z.to_nat (range_start r)) body). lia. }
  intros k' r' st'' i Hr'' Hst' Hw Hi.
  destruct (decide (range_start r <= i <= range_end r)) as [Hin|Hout].
  - subst data1. rewrite write_at_lookup_in by lia.
    rewrite Hbody, byte_slice_lookup by lia. f_equal. lia.
  - assert (Hold : data !! Z.to_nat i = content !! Z.to_nat i).
    { apply list_lookup_insert_Some in Hst' as [(<- & <- & _)|(Hne & Hst')].
      - rewrite Hr in Hr''. injection Hr'' as <-. by apply Hcov in Hi.
      - by apply (Hinv k' r' st'' i). }
    rewrite <- Hold.
    apply spec_plan_lookup in Hr'' as [Er' Hk'].
    destruct (spec_range_bounds L n (Z.of_nat k') ltac:(lia) Hn ltac:(lia))
      as (Hs0' & _ & HeL').
    rewrite <- Er' in Hs0', HeL'.
    assert (Hi' : range_start r' <= i <= range_end r')
      by (rewrite Er' in Hi |- *; by apply spec_range_covers in Hi).
    assert (is_Some (data !! Z.to_nat i)) as Hsome.
    { rewrite Hold. apply lookup_lt_is_Some. lia. }
    apply lookup_lt_is_Some in Hsome.
    subst data1.
    destruct (decide (i < range_start r)).
    + apply write_at_lookup_before; lia.
    + apply write_at_lookup_after. lia.
Qed.

(** A run that returns has put every byte of the resource in place. *)
Lemma run_tasks_fills (order : list nat) (p : Process) (L0 : 0 <= L) :
  files p !! filename h = Some [] ->
  (run_tasks w h ranges (replicate (length ranges) Launched) Unstarted
     order p).1 = Returned tt ->
  files (run_tasks w h ranges (replicate (length ranges) Launched) Unstarted
           order p).2 !! filename h = Some content.
Proof.
  intros Hfile.
  destruct (run_tasks_sound w h ranges order
              (fun stages _ fs _ =>
                 fill_inv h ranges content stages fs
                 /\ tasks_on_track w h ranges stages
                 /\ length stages = length ranges)
              (fun o fs _ => o = Returned tt -> fs !! filename h = Some content))
    with (order := order) (stages := replicate (length ranges) Launched)
         (t := Unstarted) (p := p) (evs := @nil Event)
    as (evs & _ & HP).
  - intros stages t fs evs k r st st' evs1 fs' (Hfill & Hon & Hlen) _ Hr Hst Hm.
    pose proof (on_track_moves _ _ _ _ _ _ _ _ _ (Hon k r st Hr Hst) Hm) as Hon'.
    split; [|split; [by eapply tasks_on_track_insert|by rewrite length_insert]].
    destruct Hm; try (eapply fill_inv_keep; [done|done|done]).
    by apply fill_inv_write; [| | |apply (Hon k)].
  - intros stages t fs evs k r st evs1 _ _ _ _ _. done.
  - intros stages t fs evs t' evs1 HI _. exact HI.
  - intros stages c fs evs msg _ _ _. done.
  - intros stages t fs evs ((data & Hf & Hlen & Hinv) & Hon & Hst).
    destruct (all_done stages) eqn:Hall; [|done]. intros _.
    rewrite Hf. f_equal. apply list_eq. intros i.
    destruct (decide (i < length content)%nat) as [Hi|Hi].
    + destruct (proj2 (spec_plan_union L n L0 Hn (Z.of_nat i)) ltac:(lia))
        as (r & Hr & Hcov).
      apply list_elem_of_lookup in Hr as [k Hk].
      destruct (lookup_lt_is_Some_2 stages k) as [st Hst'].
      { rewrite Hst. by eapply lookup_lt_Some. }
      pose proof (all_done_lookup stages k st Hall Hst') as ->.
      rewrite <- (Nat2Z.id i). by apply (Hinv k r Signalled (Z.of_nat i)).
    + rewrite !lookup_ge_None_2 by lia. done.
  - done.
  - split; [|split; [apply tasks_on_track_start|by rewrite length_replicate]].
    exists []. split; [done|]. split; [cbn; lia|].
    intros k r st i _ [-> _]%lookup_replicate. done.
  - done.
Qed.

End RoundTrip.

(** X5: when the server answers each planned range with exactly its
    bytes, a multi-range download that returns leaves the destination byte
    for byte equal to the resource, however the steps of the tasks were
    interleaved; and it does return when every fetch and write succeeds
    and every task gets its steps. *)
Theorem multi_range_round_trip (w : World) (order : list nat)
    (h : HttpDownloader) (ranges : list (list Z)) (content : list Byte.byte)
    (p : Process) :
  acceptRanges h = true ->
  contentLength h = Z.of_nat (length content) ->
  contentLength h <= GoInt.max_int ->
  1 <= numRoutines h <= max_chan_size ->
  runtime_makechan_fails w (numRoutines h) = false ->
  Split h = Done ranges ->
  os_Create_fails w (filename h) = false ->
  serves_ranges w h ranges content ->
  ((Download w order h p).1 = Returned tt ->
   files (Download w order h p).2 !! filename h = Some content)
  /\ (complete order ranges = true ->
      (forall k, (k < length ranges)%nat -> task_fails w h ranges k = false) ->
      (Download w order h p).1 = Returned tt
      /\ files (Download w order h p).2 !! filename h = Some content).
Proof.
  intros Hacc HL Hmax Hn Hmk Hsplit Hc Hserve.
  pose proof max_chan_size_int as Hint.
  destruct (Download_multi_outcome w order h ranges p Hacc ltac:(lia) Hmk
              Hsplit Hc) as (Hno2 & Hret & Hex & Hlive & _).
  assert (Hfill : (Download w order h p).1 = Returned tt ->
            files (Download w order h p).2 !! filename h = Some content).
  { rewrite (Split_spec h ltac:(lia) ltac:(lia)) in Hsplit.
    injection Hsplit as <-.
    rewrite (Download_multi_run w order h _ p Hacc ltac:(lia) Hmk
               (Split_spec h ltac:(lia) ltac:(lia)) Hc).
    apply (run_tasks_fills w h content HL ltac:(lia) Hserve); [lia|].
    apply lookup_insert_eq. }
  split; [done|]. intros Hcomp Hok.
  assert ((Download w order h p).1 = Returned tt) as Hdone.
  { destruct Hno2 as [E|[E|E]]; [done| |by destruct (Hlive Hcomp)].
    destruct (Hex E) as (k & Hk & Hbad). rewrite (Hok k Hk) in Hbad. done. }
  split; [done|by apply Hfill].
Qed.

Lemma multi_range_round_trip_witness :
  (Download (sample_world ["bytes"]) [1; 0; 0; 1; 1; 0; 0; 1; 1; 0; 0; 1]%nat
     (job 10 2) fresh).1 = Returned tt
  /\ files (Download (sample_world ["bytes"])
              [1; 0; 0; 1; 1; 0; 0; 1; 1; 0; 0; 1]%nat (job 10 2) fresh).2
     !! filename (job 10 2) = Some sample_content.
Proof.
  refine (proj2 (multi_range_round_trip (sample_world ["bytes"])
                   [1; 0; 0; 1; 1; 0; 0; 1; 1; 0; 0; 1]%nat (job 10 2)
                   [[0; 4]; [5; 9]] sample_content fresh _ _ _ _ _ _ _ _) _ _).
  - reflexivity.
  - reflexivity.
  - vm_compute. discriminate.
  - vm_compute. split; discriminate.
  - reflexivity.
  - vm_compute. reflexivity.
  - reflexivity.
  - intros [|[|k]] r resp body Hr Hrt Hb; [| |done].
    + injection Hr as <-. vm_compute in Hrt. injection Hrt as <-.
      cbn in Hb. injection Hb as <-. reflexivity.
    + injection Hr as <-. vm_compute in Hrt. injection Hrt as <-.
      cbn in Hb. injection Hb as <-. reflexivity.
  - reflexivity.
  - intros [|[|k]] Hk; [vm_compute; reflexivity..|cbn in Hk; lia].
Defined.

(** ** Sizes of the planned ranges *)

Lemma total_len_app (a b : list (list Z)) :
  total_len (a ++ b) = total_len a + total_len b.
Proof.
  unfold total_len. induction a as [|r a IH]; [done|]. cbn [app foldr].
  rewrite IH. lia.
Qed.

Lemma spec_range_len (L n i : Z) :
  1 <= n ->
  range_len (spec_range L n i)
  = if i =? n - 1 then Z.quot L n + Z.rem L n else Z.quot L n.
Proof.
  intros Hn. unfold range_len. rewrite spec_range_start, spec_range_end.
  pose proof (Z.quot_rem' L n) as E.
  remember (Z.quot L n) as b eqn:Eb. remember (Z.rem L n) as m eqn:Em.
  clear Eb Em.
  destruct (Z.eqb_spec i (n - 1)) as [->|]; nia.
Qed.

Lemma spec_plan_prefix_len (L n : Z) (m : nat) :
  1 <= n -> Z.of_nat m <= n - 1 ->
  total_len (spec_range L n <$> seqZ 0 (Z.of_nat m)) = Z.of_nat m * Z.quot L n.
Proof.
  intros Hn. induction m as [|m IH]; intros Hm; [done|].
  rewrite seqZ_S, fmap_app, total_len_app, IH by lia.
  cbn [fmap list_fmap total_len foldr]. rewrite spec_range_len by lia.
  destruct (Z.eqb_spec (0 + Z.of_nat m) (n - 1)); lia.
Qed.

Lemma spec_plan_total_len (L n : Z) : 1 <= n -> total_len (spec_plan L n) = L.
Proof.
  intros Hn. unfold spec_plan.
  replace n with (Z.of_nat (S (Z.to_nat (n - 1)))) at 2 by lia.
  rewrite seqZ_S, fmap_app, total_len_app, spec_plan_prefix_len by lia.
  cbn [fmap list_fmap total_len foldr]. rewrite spec_range_len by lia.
  pose proof (Z.quot_rem' L n) as E.
  destruct (Z.eqb_spec (0 + Z.of_nat (Z.to_nat (n - 1))) (n - 1)); [|lia].
  rewrite Z2Nat.id by lia.
  remember (Z.quot L n) as b eqn:Eb. remember (Z.rem L n) as m eqn:Em.
  clear Eb Em. nia.
Qed.

(** X6: for totalLength >= 0 and workerCount >= 1 every planned range lies
    inside the resource and has a length of at least zero; the lengths
    add up to totalLength; every range but the last is blockSize long and
    the last one is longer by the remainder totalLength mod workerCount,
    which is less than workerCount. *)
Theorem Split_lengths (h : HttpDownloader) :
  0 <= contentLength h <= GoInt.max_int ->
  1 <= numRoutines h <= GoInt.max_int ->
  exists ranges,
    Split h = Done ranges
    /\ total_len ranges = contentLength h
    /\ 0 <= Z.rem (contentLength h) (numRoutines h) < numRoutines h
    /\ (forall (i : nat) (r : list Z),
          ranges !! i = Some r ->
          0 <= range_start r
          /\ range_end r <= contentLength h - 1
          /\ 0 <= range_len r
          /\ range_len r
             = if Z.of_nat i =? numRoutines h - 1
               then Z.quot (contentLength h) (numRoutines h)
                    + Z.rem (contentLength h) (numRoutines h)
               else Z.quot (contentLength h) (numRoutines h)).
Proof.
  intros HL Hn. eexists. split; [by apply Split_spec|].
  split; [apply spec_plan_total_len; lia|].
  split; [apply Z.rem_bound_pos; lia|].
  intros i r Hr. apply spec_plan_lookup in Hr as [-> Hi].
  destruct (spec_range_bounds (contentLength h) (numRoutines h) (Z.of_nat i)
              ltac:(lia) ltac:(lia) ltac:(lia)) as (Hs & Hse & He).
  split; [done|]. split; [lia|]. split; [unfold range_len; lia|].
  rewrite spec_range_len by lia.
  destruct (Z.of_nat i =? numRoutines h - 1); lia.
Qed.

Lemma Split_lengths_witness :
  exists ranges,
    Split (job 10 4) = Done ranges
    /\ total_len ranges = contentLength (job 10 4)
    /\ 0 <= Z.rem (contentLength (job 10 4)) (numRoutines (job 10 4))
       < numRoutines (job 10 4)
    /\ (forall (i : nat) (r : list Z),
          ranges !! i = Some r ->
          0 <= range_start r
          /\ range_end r <= contentLength (job 10 4) - 1
          /\ 0 <= range_len r
          /\ range_len r
             = if Z.of_nat i =? numRoutines (job 10 4) - 1
               then Z.quot (contentLength (job 10 4)) (numRoutines (job 10 4))
                    + Z.rem (contentLength (job 10 4)) (numRoutines (job 10 4))
               else Z.quot (contentLength (job 10 4)) (numRoutines (job 10 4))).
Proof.
  apply (Split_lengths (job 10 4)); vm_compute; split; discriminate.
Defined.

(** ** A negative content length *)

(** [int(resp.ContentLength)] is [-1] when the probe's answer carries no
    length; the planner then works on a negative total. *)

Lemma neg_block_times_count (L n : Z) :
  L <= 0 -> 1 <= n -> Z.quot L n <= 0 /\ L <= n * Z.quot L n.
Proof.
  intros HL Hn.
  pose proof (block_times_count (- L) n ltac:(lia) ltac:(lia)) as [H0 H1].
  rewrite Z.quot_opp_l in H0, H1 by lia.
  remember (Z.quot L n) as b eqn:Eb. clear Eb. lia.
Qed.

Lemma neg_scaled_block_bounds (L n b j : Z) :
  b <= 0 -> L <= n * b -> 0 <= j <= n -> L <= j * b <= 0.
Proof. intros Hb HnL Hj. nia. Qed.

Section NegativePlanner.

Variable h : HttpDownloader.
Local Abbreviation L := (contentLength h).
Local Abbreviation n := (numRoutines h).
Hypothesis HL : GoInt.min_int < L < 0.
Hypothesis Hn : 1 <= n <= GoInt.max_int.

Lemma Split_loop_spec_neg (fuel : nat) :
  forall (i : Z) (acc : list (list Z)),
    0 <= i <= n ->
    (Z.to_nat (n - i) < fuel)%nat ->
    Split_loop fuel h (GoInt.quo L n) i acc
    = Some (acc ++ (spec_range L n <$> seqZ i (n - i))).
Proof.
  pose proof (neg_block_times_count L n ltac:(lia) ltac:(lia)) as [Hb0 Hbn].
  assert (Hq : GoInt.quo L n = Z.quot L n).
  { pose proof (neg_scaled_block_bounds L n _ 1 Hb0 Hbn ltac:(lia)).
    unfold GoInt.quo. int_range. }
  rewrite Hq. clear Hq.
  assert (Hsr : forall i, spec_range L n i
    = [i * Z.quot L n;
       if i =? n - 1 then L - 1 else (i + 1) * Z.quot L n - 1]) by done.
  remember (Z.quot L n) as b eqn:Eb. clear Eb.
  induction fuel as [|fuel IH]; intros i acc Hi Hfuel; [lia|].
  cbn [Split_loop].
  destruct (Z.ltb_spec i n) as [Hlt|Hge].
  - pose proof (neg_scaled_block_bounds L n _ i Hb0 Hbn ltac:(lia)) as Hlo.
    pose proof (neg_scaled_block_bounds L n _ (i + 1) Hb0 Hbn ltac:(lia))
      as Hhi.
    assert (Hi1 : GoInt.add i 1 = i + 1) by (unfold GoInt.add; int_range).
    assert (Hm0 : GoInt.mul i b = i * b)
      by (unfold GoInt.mul; int_range).
    assert (Hm1 : GoInt.mul (i + 1) b = (i + 1) * b)
      by (unfold GoInt.mul; int_range).
    assert (Hs1 : GoInt.sub ((i + 1) * b) 1 = (i + 1) * b - 1)
      by (unfold GoInt.sub; int_range).
    assert (Hn1 : GoInt.sub n 1 = n - 1) by (unfold GoInt.sub; int_range).
    assert (HL1 : GoInt.sub L 1 = L - 1) by (unfold GoInt.sub; int_range).
    rewrite Hi1, Hm0, Hm1, Hs1, Hn1, HL1.
    rewrite IH by lia.
    assert (Hseq : seqZ i (n - i) = i :: seqZ (i + 1) (n - (i + 1))).
    { rewrite (seqZ_cons i) by lia. f_equal. f_equal; lia. }
    rewrite Hseq, <- app_assoc. cbn [fmap list_fmap app].
    by rewrite Hsr.
  - replace (n - i) with 0 by lia. cbn. by rewrite app_nil_r.
Qed.

Lemma Split_spec_neg : Split h = Done (spec_plan L n).
Proof.
  unfold Split.
  destruct (Z.eqb_spec n 0) as [?|_]; [lia|].
  rewrite Split_loop_spec_neg by lia.
  unfold spec_plan. by rewrite Z.sub_0_r.
Qed.

End NegativePlanner.

(** X7: with a negative content length (the probe reports -1 when the answer
    carries no length) and workerCount >= 1 the planner still returns
    workerCount ranges, none of which starts after byte 0, and every one of
    them is degenerate: its end lies before its start, so it denotes no
    byte. *)
Theorem negative_length_plan (h : HttpDownloader) :
  GoInt.min_int < contentLength h < 0 ->
  1 <= numRoutines h <= GoInt.max_int ->
  exists ranges,
    Split h = Done ranges
    /\ Z.of_nat (length ranges) = numRoutines h
    /\ (forall r, r ∈ ranges ->
          range_start r <= 0
          /\ range_end r < range_start r
          /\ forall x, ~ covers r x).
Proof.
  intros HL Hn. eexists. split; [by apply Split_spec_neg|].
  split; [rewrite spec_plan_length; lia|].
  intros r Hr. apply list_elem_of_lookup in Hr as [i Hr].
  apply spec_plan_lookup in Hr as [-> Hi].
  pose proof (neg_block_times_count (contentLength h) (numRoutines h)
                ltac:(lia) ltac:(lia)) as [Hb0 Hbn].
  rewrite spec_range_start, spec_range_end.
  assert (Hse :
    (if Z.of_nat i =? numRoutines h - 1 then contentLength h - 1
     else (Z.of_nat i + 1) * Z.quot (contentLength h) (numRoutines h) - 1)
    < Z.of_nat i * Z.quot (contentLength h) (numRoutines h)).
  { remember (Z.quot (contentLength h) (numRoutines h)) as b eqn:Eb. clear Eb.
    destruct (Z.eqb_spec (Z.of_nat i) (numRoutines h - 1)) as [E|]; nia. }
  split; [|split; [done|]].
  - remember (Z.quot (contentLength h) (numRoutines h)) as b eqn:Eb. clear Eb.
    nia.
  - intros x. unfold spec_range, covers.
    remember (Z.quot (contentLength h) (numRoutines h)) as b eqn:Eb. clear Eb.
    cbv zeta. lia.
Qed.

Lemma negative_length_plan_witness :
  exists ranges,
    Split (job (-1) 3) = Done ranges
    /\ Z.of_nat (length ranges) = numRoutines (job (-1) 3)
    /\ (forall r, r ∈ ranges ->
          range_start r <= 0
          /\ range_end r < range_start r
          /\ forall x, ~ covers r x).
Proof.
  apply (negative_length_plan (job (-1) 3)); vm_compute; split;
    (reflexivity || discriminate).
Defined.

(** ** What one save does to the file *)

(** X8: [save2file] either ends the process with exit status 1 or returns.
    When it ends the process no file but the one it was given can differ,
    and when the failure came before the write (the file is absent, or
    opening, seeking or reading the body failed) no file has changed at
    all.  When it returns, the file it was given existed before (it never
    creates a file), the offset is not negative, the bytes of the body sit
    at the offset, and the bytes before the offset and those after the
    written region are the old ones. *)
Theorem save2file_region (w : World) (name : string) (off : Z)
    (resp : Response) (p : Process) :
  ((save2file w name off resp p).1 = Exited 1
   /\ only_touches name p (save2file w name off resp p).2
   /\ (files p !! name = None \/ os_OpenFile_fails w name = true
       \/ off < 0 \/ file_Seek_fails w name off = true
       \/ respBody resp = None ->
       files (save2file w name off resp p).2 = files p))
  \/ (exists data body data',
        (save2file w name off resp p).1 = Returned tt
        /\ files p !! name = Some data
        /\ respBody resp = Some body
        /\ 0 <= off
        /\ files (save2file w name off resp p).2 = <[name := data']> (files p)
        /\ (forall j : nat,
              (j < length body)%nat ->
              data' !! (Z.to_nat off + j)%nat = body !! j)
        /\ (forall i : nat,
              (i < Z.to_nat off)%nat -> (i < length data)%nat ->
              data' !! i = data !! i)
        /\ (forall i : nat,
              (Z.to_nat off + length body <= i)%nat ->
              data' !! i = data !! i)).
Proof.
  destruct (save2file_cases w name off resp p)
    as [(data & body & Hf & Hb & Hs & ->)|(evs & -> & _)]; [right|left].
  - exists data, body, (write_at data (Z.to_nat off) body). cbn [fst snd files].
    assert (0 <= off) as Hoff.
    { unfold save_fails in Hs. destruct (Z.ltb_spec off 0); [|done].
      by rewrite orb_true_r in Hs. }
    repeat (split; [done|]). split; [|split].
    + intros j Hj. rewrite write_at_lookup_in by lia. f_equal. lia.
    + intros i Hi Hlen. by apply write_at_lookup_before.
    + intros i Hi. by apply write_at_lookup_after.
  - cbn [fst snd files]. split; [done|]. split; [by intros other _|done].
Qed.

(** ** The probe and the file name *)

Lemma list_ascii_of_string_app (a b : string) :
  list_ascii_of_string (a +:+ b)
  = list_ascii_of_string a ++ list_ascii_of_string b.
Proof.
  induction a as [|c a IH]; [done|].
  change (c :: list_ascii_of_string (a +:+ b)
          = c :: list_ascii_of_string a ++ list_ascii_of_string b).
  by rewrite IH.
Qed.

Lemma until_slash_no_slash (cs : list ascii) : "/"%char ∉ until_slash cs.
Proof.
  induction cs as [|c cs IH]; cbn; [apply not_elem_of_nil|].
  destruct (Ascii.eqb_spec c "/"%char) as [|Hc]; [apply not_elem_of_nil|].
  apply not_elem_of_cons. split; [congruence|done].
Qed.

Lemma until_slash_app (cs rest : list ascii) :
  "/"%char ∉ cs -> until_slash (cs ++ "/"%char :: rest) = cs.
Proof.
  induction cs as [|c cs IH]; intros Hcs; cbn; [done|].
  apply not_elem_of_cons in Hcs as [Hc Hcs].
  destruct (Ascii.eqb_spec c "/"%char) as [->|_]; [done|].
  by rewrite IH.
Qed.

Lemma elem_of_rev {A} (l : list A) (x : A) : x ∈ rev l <-> x ∈ l.
Proof. rewrite !list_elem_of_In. symmetry. apply in_rev. Qed.

Lemma string_of_list_ascii_nonempty (cs : list ascii) :
  cs <> [] -> string_of_list_ascii cs <> "".
Proof.
  intros Hcs E. apply Hcs.
  by rewrite <- (list_ascii_of_string_of_list_ascii cs), E.
Qed.

Lemma path_Base_nonempty (path : string) : path_Base path <> "".
Proof.
  unfold path_Base. destruct (String.eqb path ""); [done|].
  destruct (until_slash _) as [|c l]; [done|].
  apply string_of_list_ascii_nonempty. intros E.
  apply (f_equal (@length ascii)) in E. rewrite length_rev in E. done.
Qed.

Lemma path_Base_no_slash (path : string) :
  path_Base path = "/" \/ "/"%char ∉ list_ascii_of_string (path_Base path).
Proof.
  unfold path_Base. destruct (String.eqb path "").
  { right. cbn. apply not_elem_of_cons. split; [done|apply not_elem_of_nil]. }
  destruct (until_slash _) as [|c l] eqn:E; [by left|right].
  rewrite list_ascii_of_string_of_list_ascii, elem_of_rev, <- E.
  apply until_slash_no_slash.
Qed.

Lemma path_Base_last (dir name : string) :
  name <> "" -> "/"%char ∉ list_ascii_of_string name ->
  path_Base (dir +:+ "/" +:+ name) = name.
Proof.
  intros Hne Hns. unfold path_Base.
  assert (String.eqb (dir +:+ "/" +:+ name) "" = false) as ->.
  { apply String.eqb_neq. intros E.
    apply (f_equal list_ascii_of_string) in E.
    rewrite !list_ascii_of_string_app in E. cbn in E.
    by apply app_eq_nil in E as [_ E]. }
  rewrite !list_ascii_of_string_app, rev_app_distr. cbn [list_ascii_of_string app rev].
  rewrite <- app_assoc. cbn [app].
  destruct (rev (list_ascii_of_string name)) as [|c rl] eqn:Er.
  { exfalso. apply Hne.
    rewrite <- (string_of_list_ascii_of_string name),
      <- (rev_involutive (list_ascii_of_string name)), Er. done. }
  assert ("/"%char ∉ c :: rl) as Hrl by (rewrite <- Er; by rewrite elem_of_rev).
  cbn [app drop_slashes].
  destruct (Ascii.eqb_spec c "/"%char) as [->|_].
  { exfalso. apply Hrl. apply list_elem_of_here. }
  pose proof (until_slash_app (c :: rl) (rev (list_ascii_of_string dir)) Hrl)
    as E.
  cbn [app] in E. rewrite E.
  change (string_of_list_ascii (rev (c :: rl)) = name).
  by rewrite <- Er, rev_involutive, string_of_list_ascii_of_string.
Qed.

(** X9: when [NewDownloader] returns a downloader, it has changed no file,
    the downloader keeps the URL it was given, and its file name is never
    empty and holds no slash unless it is the single slash; for a URL that
    ends in a slash followed by a non-empty, slash-free name, the file name
    is that name. *)
Theorem NewDownloader_filename (w : World) (u : string) (numThreads : Z)
    (p p' : Process) (h : HttpDownloader) :
  NewDownloader w u numThreads p = (Returned h, p') ->
  files p' = files p
  /\ url h = u
  /\ filename h <> ""
  /\ (filename h = "/" \/ "/"%char ∉ list_ascii_of_string (filename h))
  /\ (forall dir name : string,
        u = dir +:+ "/" +:+ name ->
        name <> "" -> "/"%char ∉ list_ascii_of_string name ->
        filename h = name).
Proof.
  unfold NewDownloader. destruct (http_Head w u) as [resp|]; [|done].
  intros [= <- <-]. cbn [url filename].
  split; [done|]. split; [done|].
  split; [apply path_Base_nonempty|]. split; [apply path_Base_no_slash|].
  intros dir name -> Hne Hns. by apply path_Base_last.
Qed.

Lemma NewDownloader_filename_witness :
  files fresh = files fresh
  /\ url (job 10 6) = "http://example.com/f.bin"
  /\ filename (job 10 6) <> ""
  /\ (filename (job 10 6) = "/"
      \/ "/"%char ∉ list_ascii_of_string (filename (job 10 6)))
  /\ (forall dir name : string,
        "http://example.com/f.bin" = dir +:+ "/" +:+ name ->
        name <> "" -> "/"%char ∉ list_ascii_of_string name ->
        filename (job 10 6) = name).
Proof.
  apply (NewDownloader_filename (sample_world ["bytes"])
           "http://example.com/f.bin" 6 fresh fresh (job 10 6)).
  reflexivity.
Defined.

(** ** [main] gives up early *)

(** X10: when the URL does not parse, or the probe of the URL fails, [main]
    ends with exit status 1 having changed no file, created none, and sent
    no fetch request. *)
Theorem main_fails_fast (w : World) (order : list nat) (downloadUrl : string)
    (numRoutines : Z) (p : Process) :
  url_ParseRequestURI_fails w downloadUrl = true
  \/ http_Head w downloadUrl = None ->
  (main w order downloadUrl numRoutines p).1 = Exited 1
  /\ files (main w order downloadUrl numRoutines p).2 = files p
  /\ requests_of (new_events p (main w order downloadUrl numRoutines p).2) = []
  /\ forall name,
       EvCreate name ∉ new_events p (main w order downloadUrl numRoutines p).2.
Proof.
  intros Hbad. unfold main, NewDownloader. io_unfold.
  destruct (url_ParseRequestURI_fails w downloadUrl).
  - cbn. unfold new_events. cbn [trace]. rewrite drop_app_length. cbn.
    repeat (split; [done|]). intros name.
    apply not_elem_of_cons. split; [done|apply not_elem_of_nil].
  - destruct Hbad as [?| ->]; [done|]. cbn.
    unfold new_events. cbn [trace]. rewrite drop_app_length. cbn.
    repeat (split; [done|]). intros name.
    apply not_elem_of_cons. split; [done|apply not_elem_of_nil].
Qed.

Lemma main_fails_fast_witness :
  (main (mkWorld (fun _ => true) (fun _ => None) (fun _ => false)
           (fun _ => None) (fun _ => false) (fun _ => false)
           (fun _ _ => false) (fun _ _ _ => false) (fun _ => false))
        [0%nat] "not a url" 6 fresh).1 = Exited 1.
Proof.
  apply (main_fails_fast
           (mkWorld (fun _ => true) (fun _ => None) (fun _ => false)
              (fun _ => None) (fun _ => false) (fun _ => false)
              (fun _ _ => false) (fun _ _ _ => false) (fun _ => false))
           [0%nat] "not a url" 6 fresh).
  left. reflexivity.
Defined.

